(** * email_classifier_ia: the classification and response pipeline

    A shallow embedding of [backend/llm_client.py],
    [backend/nlp_utils.py] and the file filter of [backend/app.py], with
    the properties of the pipeline stated and proved over it.

    Python strings are sequences of Unicode code points, so a [str] is a
    list of integers; the program's literals are written as UTF-8 text
    and decoded by [u].  Exceptions are an explicit result type.  The
    language model is an oracle indexed by the number of calls already
    made, and every call and every sleep is recorded in a trace. *)

From Stdlib Require Import ZArith List Bool Lia String Ascii QArith Qabs.
Import ListNotations.
Open Scope string_scope.
Open Scope list_scope.
Open Scope Z_scope.
Set Implicit Arguments.
Set Warnings "-register-all".

(** ** Strings *)

Module Str.

Definition pystr := list Z.

(** UTF-8 decoding of a literal of the source into code points. *)
Fixpoint utf8 (bs : list Z) : pystr :=
  match bs with
  | [] => []
  | b :: r =>
      if b <? 128 then b :: utf8 r
      else if b <? 224 then
        match r with
        | b1 :: r1 => ((b - 192) * 64 + (b1 - 128)) :: utf8 r1
        | [] => []
        end
      else
        match r with
        | b1 :: b2 :: r2 =>
            ((b - 224) * 4096 + (b1 - 128) * 64 + (b2 - 128)) :: utf8 r2
        | _ => []
        end
  end.

Definition u (s : string) : pystr :=
  utf8 (map (fun a => Z.of_nat (nat_of_ascii a)) (list_ascii_of_string s)).

Definition str_eqb (a b : pystr) : bool :=
  if list_eq_dec Z.eq_dec a b then true else false.

(** [p in s] for strings: [p] occurs as a contiguous block of [s]. *)
Fixpoint starts_with (p s : pystr) : bool :=
  match p, s with
  | [], _ => true
  | _ :: _, [] => false
  | a :: p', b :: s' => (a =? b) && starts_with p' s'
  end.

Fixpoint contains (s p : pystr) : bool :=
  starts_with p s ||
  match s with
  | [] => false
  | _ :: s' => contains s' p
  end.

(** [str.isspace] of one code point; the same table serves [\s] of [re]
    on [str] patterns, [str.strip()] and [str.split()]. *)
Definition is_space (c : Z) : bool :=
  ((9 <=? c) && (c <=? 13)) || ((28 <=? c) && (c <=? 32)) ||
  (c =? 133) || (c =? 160) || (c =? 5760) ||
  ((8192 <=? c) && (c <=? 8202)) || (c =? 8232) || (c =? 8233) ||
  (c =? 8239) || (c =? 8287) || (c =? 12288).

Fixpoint lstrip (s : pystr) : pystr :=
  match s with
  | c :: s' => if is_space c then lstrip s' else s
  | [] => []
  end.

Definition strip (s : pystr) : pystr := rev (lstrip (rev (lstrip s))).

(** [str.split()] without argument: maximal blocks of non-space
    characters.  [cur] is the word being read, reversed. *)
Fixpoint split_aux (cur : pystr) (s : pystr) : list pystr :=
  match s with
  | [] => match cur with [] => [] | _ => [rev cur] end
  | c :: s' =>
      if is_space c then
        match cur with
        | [] => split_aux [] s'
        | _ => rev cur :: split_aux [] s'
        end
      else split_aux (c :: cur) s'
  end.

Definition split (s : pystr) : list pystr := split_aux [] s.

(** [str.replace(a, b)] for a one-character [a]. *)
Definition replace_char (a : Z) (b : pystr) (s : pystr) : pystr :=
  flat_map (fun c => if c =? a then b else [c]) s.

(** [str.find(c)] and [str.rfind(c)] for a one-character [c]; [-1] when
    absent. *)
Fixpoint find_from (i : Z) (c : Z) (s : pystr) : Z :=
  match s with
  | [] => -1
  | x :: s' => if x =? c then i else find_from (i + 1) c s'
  end.

Definition find (c : Z) (s : pystr) : Z := find_from 0 c s.

Fixpoint rfind_from (i : Z) (best : Z) (c : Z) (s : pystr) : Z :=
  match s with
  | [] => best
  | x :: s' => rfind_from (i + 1) (if x =? c then i else best) c s'
  end.

Definition rfind (c : Z) (s : pystr) : Z := rfind_from 0 (-1) c s.

(** The slice [s[i:j]] for [0 <= i]. *)
Definition slice (i j : Z) (s : pystr) : pystr :=
  firstn (Z.to_nat (j - i)) (skipn (Z.to_nat i) s).

Definition len (s : pystr) : Z := Z.of_nat (List.length s).

End Str.
Import Str.

(** ** Regular expressions

    The fragment of [re] the program uses: character classes, greedy
    repetition of a class, the word boundary [\b] and concatenation.
    The matcher backtracks as [re] does: a greedy repetition first takes
    as many characters as it can and gives them back one at a time while
    the rest of the pattern fails. *)

Module Re.

Inductive re : Type :=
| Cls (p : Z -> bool)          (* one character of a class *)
| Many (p : Z -> bool)         (* [p]*, greedy *)
| WordB (w : Z -> bool)        (* \b, for the word characters w *)
| Cat (r1 r2 : re).

Definition Many1 (p : Z -> bool) : re := Cat (Cls p) (Many p).

Fixpoint Rep (n : nat) (p : Z -> bool) : re :=
  match n with
  | O => Many (fun _ => false)
  | S O => Cls p
  | S n' => Cat (Cls p) (Rep n' p)
  end.

Definition Lit (c : Z) : re := Cls (fun x => x =? c).

Definition is_word_at (w : Z -> bool) (c : option Z) : bool :=
  match c with Some x => w x | None => false end.

(** [\b] holds between two positions of different word-ness; the ends of
    the text count as non-word. *)
Definition boundary (w : Z -> bool) (prev : option Z) (s : pystr) : bool :=
  xorb (is_word_at w prev) (is_word_at w (hd_error s)).

Section Match.
Variable A : Type.

Fixpoint many (p : Z -> bool) (k : option Z -> pystr -> option A)
         (prev : option Z) (s : pystr) : option A :=
  match s with
  | c :: s' =>
      if p c then
        match many p k (Some c) s' with
        | Some r => Some r
        | None => k prev s
        end
      else k prev s
  | [] => k prev s
  end.

Fixpoint run (r : re) (prev : option Z) (s : pystr)
         (k : option Z -> pystr -> option A) : option A :=
  match r with
  | Cls p =>
      match s with
      | c :: s' => if p c then k (Some c) s' else None
      | [] => None
      end
  | Many p => many p k prev s
  | WordB w => if boundary w prev s then k prev s else None
  | Cat r1 r2 => run r1 prev s (fun prev' s' => run r2 prev' s' k)
  end.
End Match.

(** The match of [r] that starts at the head of [s], as the text left
    after it; [prev] is the character before the head. *)
Definition match_here (r : re) (prev : option Z) (s : pystr) : option pystr :=
  run r prev s (fun _ rest => Some rest).

Definition match_len (r : re) (prev : option Z) (s : pystr) : option nat :=
  match match_here r prev s with
  | Some rest => Some (List.length s - List.length rest)%nat
  | None => None
  end.

(** [re.sub(r, rep, s)]: scan left to right, replace each leftmost match
    and resume after it.  [skip] counts the characters of the current
    match still to be dropped. *)
Fixpoint sub_aux (r : re) (rep : pystr) (skip : nat) (prev : option Z)
         (s : pystr) : pystr :=
  match s with
  | [] =>
      match skip, match_len r prev [] with
      | O, Some _ => rep
      | _, _ => []
      end
  | c :: s' =>
      match skip with
      | S n => sub_aux r rep n (Some c) s'
      | O =>
          match match_len r prev s with
          | Some (S n) => rep ++ sub_aux r rep n (Some c) s'
          | Some O => rep ++ c :: sub_aux r rep O (Some c) s'
          | None => c :: sub_aux r rep O (Some c) s'
          end
      end
  end.

Definition sub (r : re) (rep : pystr) (s : pystr) : pystr :=
  sub_aux r rep O None s.

(** [re.search(r, s) is not None], with [prev] before the head of [s]. *)
Fixpoint search_from (r : re) (prev : option Z) (s : pystr) : bool :=
  match match_here r prev s with
  | Some _ => true
  | None =>
      match s with
      | [] => false
      | c :: s' => search_from r (Some c) s'
      end
  end.

Definition search (r : re) (s : pystr) : bool := search_from r None s.

End Re.
Import Re.

(** ** Python values and exceptions *)

(** The arguments the functions test with [isinstance]: a string, or an
    object that is not one, with its truth value. *)
Inductive pyobj : Type :=
| PStr (s : pystr)
| PNone
| PInt (z : Z)
| PObj (truthy : bool).

Definition truthy (o : pyobj) : bool :=
  match o with
  | PStr s => negb (str_eqb s [])
  | PNone => false
  | PInt z => negb (z =? 0)
  | PObj b => b
  end.

Definition is_str (o : pyobj) : bool :=
  match o with PStr _ => true | _ => false end.

Definition ascii_alpha (c : Z) : bool :=
  ((97 <=? c) && (c <=? 122)) || ((65 <=? c) && (c <=? 90)).
Definition ascii_digit (c : Z) : bool := (48 <=? c) && (c <=? 57).

(** Case conversion on text whose cased characters are ASCII; it
    instantiates [str.lower] and [str.capitalize] in the examples. *)
Definition ascii_lower_char (c : Z) : Z :=
  if (65 <=? c) && (c <=? 90) then c + 32 else c.

Definition ascii_upper_char (c : Z) : Z :=
  if (97 <=? c) && (c <=? 122) then c - 32 else c.

Definition ascii_lower (s : pystr) : pystr := map ascii_lower_char s.

Definition ascii_capitalize (s : pystr) : pystr :=
  match s with
  | [] => []
  | c :: s' => ascii_upper_char c :: ascii_lower s'
  end.

(** ** Exceptions, floats and JSON values *)

Inductive exc : Type :=
| ValueError | TypeError | AttributeError | KeyError | IndexError
| OverflowError | JSONDecodeError
| ApiError (code : Z).        (* a failure of the external call *)

Inductive result (A : Type) : Type :=
| Ok (a : A)
| Raise (e : exc).
Arguments Ok {A} a.
Arguments Raise {A} e.

(** A Python float as far as the program looks at it: the program only
    compares floats and returns them, so a finite float is the rational
    it denotes. *)
Inductive pyfloat : Type :=
| FNan
| FInf (negative : bool)
| FFin (q : Q).

(** [a < b] on floats; every comparison with NaN is false. *)
Definition flt (a b : pyfloat) : bool :=
  match a, b with
  | FNan, _ | _, FNan => false
  | FInf true, FInf true => false
  | FInf true, _ => true
  | _, FInf true => false
  | FInf false, _ => false
  | _, FInf false => true
  | FFin x, FFin y => if Qlt_le_dec x y then true else false
  end.

(** The built-ins [min(a, b)] and [max(a, b)]: the first argument unless
    the second is strictly smaller (greater). *)
Definition py_min (a b : pyfloat) : pyfloat := if flt b a then b else a.
Definition py_max (a b : pyfloat) : pyfloat := if flt a b then b else a.

Definition f0 : pyfloat := FFin 0.
Definition f1 : pyfloat := FFin 1.

(** [0.0 <= f <= 1.0] *)
Definition in_unit (f : pyfloat) : Prop :=
  match f with
  | FFin q => (0 <= q /\ q <= 1)%Q
  | _ => False
  end.

(** [a == b] on floats *)
Definition feq (a b : pyfloat) : Prop :=
  match a, b with
  | FFin x, FFin y => (x == y)%Q
  | FInf s, FInf t => s = t
  | _, _ => False
  end.

Inductive json : Type :=
| JNull
| JBool (b : bool)
| JInt (z : Z)
| JFloat (f : pyfloat)
| JStr (s : pystr)
| JArr (l : list json)
| JObj (kv : list (pystr * json)).

(** [d.get(key, default)] on the dict of a JSON object. *)
Fixpoint dict_get (kv : list (pystr * json)) (key : pystr) (default : json)
  : json :=
  match kv with
  | [] => default
  | (k, v) :: kv' => if str_eqb k key then v else dict_get kv' key default
  end.

Definition json_truthy (v : json) : bool :=
  match v with
  | JNull => false
  | JBool b => b
  | JInt z => negb (z =? 0)
  | JFloat (FFin q) => if Qeq_dec q 0 then false else true
  | JFloat _ => true
  | JStr s => negb (str_eqb s [])
  | JArr l => match l with [] => false | _ => true end
  | JObj kv => match kv with [] => false | _ => true end
  end.

(** ** The Python runtime

    What the program takes from the interpreter and the standard
    library: case conversion of [str], the Unicode tables beyond ASCII
    (the decimal digits, which are [\d], and the other alphanumeric
    characters; [\w] is alphanumeric or underscore), [json.loads],
    [float] of a [str], and [str] of a value that is not a [str].  The
    properties below hold for every runtime. *)

Class Runtime : Type := {
  str_lower : pystr -> pystr;
  str_capitalize : pystr -> pystr;
  uni_decimal : Z -> bool;
  uni_alnum : Z -> bool;
  json_loads : pystr -> result json;
  float_of_str : pystr -> result pyfloat;
  py_repr : json -> pystr
}.

(** ** A JSON reader

    [json.loads] as the C scanner of the standard library reads a
    [str]: it instantiates the pipeline in the worked examples.  A finite
    number with a fraction or an exponent becomes the rational it
    writes. *)

Module Json.

Definition is_ws (c : Z) : bool :=
  (c =? 32) || (c =? 9) || (c =? 10) || (c =? 13).

Fixpoint skip_ws (s : pystr) : pystr :=
  match s with
  | c :: s' => if is_ws c then skip_ws s' else s
  | [] => []
  end.

(** A run of ASCII digits: its value, its length and the rest. *)
Fixpoint digits (acc : Z) (n : nat) (s : pystr) : Z * nat * pystr :=
  match s with
  | c :: s' => if ascii_digit c then digits (acc * 10 + (c - 48)) (S n) s'
               else (acc, n, s)
  | [] => (acc, n, s)
  end.

Definition hex (c : Z) : option Z :=
  if ascii_digit c then Some (c - 48)
  else if (97 <=? c) && (c <=? 102) then Some (c - 87)
  else if (65 <=? c) && (c <=? 70) then Some (c - 55)
  else None.

Definition hex4 (a b c d : Z) : option Z :=
  match hex a, hex b, hex c, hex d with
  | Some x, Some y, Some z, Some w => Some (((x * 16 + y) * 16 + z) * 16 + w)
  | _, _, _, _ => None
  end.

Definition simple_escape (c : Z) : option Z :=
  if c =? 34 then Some 34 else if c =? 92 then Some 92
  else if c =? 47 then Some 47 else if c =? 98 then Some 8
  else if c =? 102 then Some 12 else if c =? 110 then Some 10
  else if c =? 114 then Some 13 else if c =? 116 then Some 9
  else None.

(** The text of a string after its opening quote, up to the closing one.
    A pair of surrogate escapes is one code point. *)
Fixpoint string_body (acc : pystr) (s : pystr) : option (pystr * pystr) :=
  match s with
  | [] => None
  | c :: s' =>
      if c =? 34 then Some (rev acc, s')
      else if c <? 32 then None
      else if c =? 92 then
        match s' with
        | [] => None
        | e :: s1 =>
            if e =? 117 then
              match s1 with
              | h1 :: h2 :: h3 :: h4 :: s2 =>
                  match hex4 h1 h2 h3 h4 with
                  | None => None
                  | Some hi =>
                      match s2 with
                      | b1 :: b2 :: l1 :: l2 :: l3 :: l4 :: s3 =>
                          match hex4 l1 l2 l3 l4 with
                          | Some lo =>
                              if (55296 <=? hi) && (hi <=? 56319) &&
                                 (b1 =? 92) && (b2 =? 117) &&
                                 (56320 <=? lo) && (lo <=? 57343)
                              then string_body
                                     (65536 + (hi - 55296) * 1024 + (lo - 56320) :: acc) s3
                              else string_body (hi :: acc) s2
                          | None => string_body (hi :: acc) s2
                          end
                      | _ => string_body (hi :: acc) s2
                      end
                  end
              | _ => None
              end
            else
              match simple_escape e with
              | Some x => string_body (x :: acc) s1
              | None => None
              end
        end
      else string_body (c :: acc) s'
  end.

Definition float_of_Q (q : Q) : pyfloat :=
  if Qlt_le_dec (Qabs q) (inject_Z (2 ^ 1024 - 2 ^ 970)) then FFin q
  else FInf (if Qlt_le_dec q 0 then true else false).

(** A number: an optional minus, an integer part without leading zero,
    an optional fraction and an optional exponent. *)
Definition number (s : pystr) : option (json * pystr) :=
  let '(neg, s0) :=
    match s with
    | c :: s' => if c =? 45 then (true, s') else (false, s)
    | [] => (false, s)
    end in
  let sign := if neg : bool then -1 else 1 in
  match s0 with
  | [] => None
  | c :: s1 =>
      if negb (ascii_digit c) then None
      else
        let '(ip, _, r0) :=
          if c =? 48 then (0, 1%nat, s1) else digits 0 0 s0 in
        let '(fr, fn, r1, hasf) :=
          match r0 with
          | p :: (x :: _) as r =>
              if (p =? 46) && ascii_digit x
              then let '(v, n, r') := digits 0 0 r in (v, n, r', true)
              else (0, 0%nat, r0, false)
          | _ => (0, 0%nat, r0, false)
          end in
        let '(ex, r2, hase) :=
          match r1 with
          | e :: r =>
              if (e =? 101) || (e =? 69) then
                let '(eneg, r') :=
                  match r with
                  | g :: r'' => if g =? 45 then (true, r'')
                                else if g =? 43 then (false, r'') else (false, r)
                  | [] => (false, r)
                  end in
                match digits 0 0 r' with
                | (_, O, _) => (0, r1, false)
                | (v, _, r'') => ((if eneg : bool then - v else v), r'', true)
                end
              else (0, r1, false)
          | [] => (0, r1, false)
          end in
        if hasf || hase then
          let m := (ip * 10 ^ Z.of_nat fn + fr) # 1 in
          let sc := ex - Z.of_nat fn in
          let q := if 0 <=? sc then Qmult m (inject_Z (10 ^ sc))
                   else Qmult m (Qinv (inject_Z (10 ^ (- sc)))) in
          Some (JFloat (float_of_Q (Qmult (inject_Z sign) q)), r2)
        else Some (JInt (sign * ip), r2)
  end.

Definition literal (l : pystr) (v : json) (s : pystr) : option (json * pystr) :=
  if starts_with l s then Some (v, skipn (List.length l) s) else None.

(** [d[k] = v] *)
Fixpoint dict_set (kv : list (pystr * json)) (k : pystr) (v : json)
  : list (pystr * json) :=
  match kv with
  | [] => [(k, v)]
  | (k', v') :: kv' =>
      if str_eqb k' k then (k, v) :: kv' else (k', v') :: dict_set kv' k v
  end.

Fixpoint value (fuel : nat) (s : pystr) {struct fuel} : option (json * pystr) :=
  match fuel with
  | O => None
  | S f =>
      match s with
      | [] => None
      | c :: s' =>
          if c =? 34 then
            match string_body [] s' with
            | Some (x, r) => Some (JStr x, r)
            | None => None
            end
          else if c =? 123 then
            match skip_ws s' with
            | x :: r => if x =? 125 then Some (JObj [], r)
                        else members f [] (x :: r)
            | [] => None
            end
          else if c =? 91 then
            match skip_ws s' with
            | x :: r => if x =? 93 then Some (JArr [], r)
                        else elements f [] (x :: r)
            | [] => None
            end
          else if c =? 110 then literal (u "null") JNull s
          else if c =? 116 then literal (u "true") (JBool true) s
          else if c =? 102 then literal (u "false") (JBool false) s
          else if c =? 78 then literal (u "NaN") (JFloat FNan) s
          else if c =? 73 then literal (u "Infinity") (JFloat (FInf false)) s
          else if (c =? 45) && starts_with (u "-Infinity") s
               then literal (u "-Infinity") (JFloat (FInf true)) s
          else number s
      end
  end
with members (fuel : nat) (acc : list (pystr * json)) (s : pystr)
       {struct fuel} : option (json * pystr) :=
  match fuel with
  | O => None
  | S f =>
      match s with
      | q :: s' =>
          if q =? 34 then
            match string_body [] s' with
            | Some (k, r) =>
                match skip_ws r with
                | c :: r1 =>
                    if c =? 58 then
                      match value f (skip_ws r1) with
                      | Some (v, r2) =>
                          match skip_ws r2 with
                          | x :: r3 =>
                              if x =? 125 then Some (JObj (dict_set acc k v), r3)
                              else if x =? 44
                                   then members f (dict_set acc k v) (skip_ws r3)
                              else None
                          | [] => None
                          end
                      | None => None
                      end
                    else None
                | [] => None
                end
            | None => None
            end
          else None
      | [] => None
      end
  end
with elements (fuel : nat) (acc : list json) (s : pystr)
       {struct fuel} : option (json * pystr) :=
  match fuel with
  | O => None
  | S f =>
      match value f s with
      | Some (v, r) =>
          match skip_ws r with
          | x :: r1 =>
              if x =? 93 then Some (JArr (rev (v :: acc)), r1)
              else if x =? 44 then elements f (v :: acc) (skip_ws r1)
              else None
          | [] => None
          end
      | None => None
      end
  end.

Definition loads (s : pystr) : result json :=
  match value (S (List.length s)) (skip_ws s) with
  | Some (v, r) =>
      match skip_ws r with
      | [] => Ok v
      | _ => Raise JSONDecodeError
      end
  | None => Raise JSONDecodeError
  end.

End Json.

(** ** A runtime for the worked examples

    It agrees with Python on the inputs of the examples: ASCII case
    conversion, no digit or letter beyond ASCII, the JSON reader above,
    [float] of a plain decimal numeral or of [nan], [inf], [infinity],
    and [str] of [None], a bool or an int. *)

Definition no_uni (c : Z) : bool := false.

Definition dec_float (s : pystr) : result pyfloat :=
  let s := strip s in
  let '(neg, s0) :=
    match s with
    | c :: s' => if c =? 45 then (true, s')
                 else if c =? 43 then (false, s') else (false, s)
    | [] => (false, s)
    end in
  let word := ascii_lower s0 in
  if str_eqb word (u "nan") then Ok FNan
  else if str_eqb word (u "inf") || str_eqb word (u "infinity") then Ok (FInf neg)
  else
    let '(ip, n1, r0) := Json.digits 0 0 s0 in
    let '(fr, n2, r1) :=
      match r0 with
      | p :: r => if p =? 46 then Json.digits 0 0 r else (0, 0%nat, r0)
      | [] => (0, 0%nat, r0)
      end in
    match (n1 + n2)%nat, r1 with
    | S _, [] =>
        let q := Qmult ((ip * 10 ^ Z.of_nat n2 + fr) # 1)
                       (Qinv (inject_Z (10 ^ Z.of_nat n2))) in
        Ok (Json.float_of_Q (if neg : bool then Qopp q else q))
    | _, _ => Raise ValueError
    end.

Fixpoint dec_digits (fuel : nat) (n : Z) (acc : pystr) : pystr :=
  match fuel with
  | O => acc
  | S f => if n <? 10 then (48 + n) :: acc
           else dec_digits f (n / 10) ((48 + n mod 10) :: acc)
  end.

Definition dec_of_int (z : Z) : pystr :=
  let a := Z.abs z in
  (if z <? 0 then [45] else []) ++ dec_digits (S (Z.to_nat (Z.log2 a))) a [].

Definition basic_repr (v : json) : pystr :=
  match v with
  | JNull => u "None"
  | JBool true => u "True"
  | JBool false => u "False"
  | JInt z => dec_of_int z
  | _ => u "<value>"
  end.

Definition ascii_runtime : Runtime := {|
  str_lower := ascii_lower;
  str_capitalize := ascii_capitalize;
  uni_decimal := no_uni;
  uni_alnum := no_uni;
  json_loads := Json.loads;
  float_of_str := dec_float;
  py_repr := basic_repr
|}.

(** ** nlp_utils.py *)

Section NlpUtils.

Context {rt : Runtime}.

Definition clean_text (text : pyobj) : pystr :=
  match text with
  | PStr text =>
      let text := replace_char 10 (u " ") (replace_char 13 (u " ") text) in
      let text := sub (Many1 is_space) (u " ") text in
      strip text
  | _ => []
  end.

Definition TRUNCADO : pystr := [10; 10] ++ u "[...TRUNCADO]".

(** The slice [s[:n]]: the first [n] characters, and for a negative [n]
    all but the last [-n]. *)
Definition py_prefix (n : Z) (s : pystr) : pystr :=
  if n <? 0 then firstn (List.length s - Z.to_nat (- n)) s
  else firstn (Z.to_nat n) s.

Definition preprocess_for_sending (text : pyobj) (max_chars : Z) : pystr :=
  let text := clean_text text in
  if len text >? max_chars then py_prefix max_chars text ++ TRUNCADO
  else text.

(** The class [[a-zA-ZÀ-ú ]] of the source. *)
Definition kw_class (c : Z) : bool :=
  ((97 <=? c) && (c <=? 122)) || ((65 <=? c) && (c <=? 90)) ||
  ((192 <=? c) && (c <=? 250)) || (c =? 32).

Definition stopwords : list pystr :=
  map u ["de";"da";"do";"para";"por";"com";"uma";"um";"em";"e";"o";"a";"que";
         "na";"no";"nos";"nas";"pois";"mas";"ou";"se";"onde";"como";
         "tem";"têm";"ter";"ser"].

Definition mem (w : pystr) (l : list pystr) : bool := existsb (str_eqb w) l.

(** The loop over [keywords]: [seen] and [out] are the loop's two
    variables; the test on [top_k] follows the append. *)
Fixpoint kw_loop (top_k : Z) (seen out : list pystr) (ws : list pystr)
  : list pystr :=
  match ws with
  | [] => out
  | w :: ws' =>
      let '(seen', out') :=
        if negb (mem w seen) then (w :: seen, out ++ [w]) else (seen, out) in
      if Z.of_nat (List.length out') >=? top_k then out'
      else kw_loop top_k seen' out' ws'
  end.

Definition kw_words (text : pystr) : list pystr :=
  let text := clean_text (PStr (str_lower text)) in
  split (sub (Cls (fun c => negb (kw_class c))) (u " ") text).

Definition kw_keywords (text : pystr) : list pystr :=
  filter (fun w => negb (mem w stopwords) && (len w >? 3)) (kw_words text).

Definition extract_keywords (text : pystr) (top_k : Z) : list pystr :=
  kw_loop top_k [] [] (kw_keywords text).

End NlpUtils.

(** ** The world: the external model, the clock and the trace *)

Record request : Type := mkRequest {
  req_system : pystr;
  req_user : pystr;
  req_temperature : Q;
  req_max_tokens : Z
}.

(** What [openai.ChatCompletion.create] returns: an object whose
    [["choices"][0]["message"]["content"]] is [content], or one of
    another shape, on which that access raises. *)
Inductive response : Type :=
| Resp (content : pyobj)
| RespShape (e : exc).

Inductive event : Type :=
| ECall (r : request)
| ESleep (d : Q).

Record world : Type := mkWorld {
  ncalls : nat;
  trace : list event
}.

Definition world0 : world := mkWorld 0 [].

Definition M (A : Type) : Type := world -> result A * world.

Definition ret {A} (a : A) : M A := fun w => (Ok a, w).
Definition raise {A} (e : exc) : M A := fun w => (Raise e, w).
Definition bind {A B} (m : M A) (f : A -> M B) : M B :=
  fun w => match m w with
           | (Ok a, w1) => f a w1
           | (Raise e, w1) => (Raise e, w1)
           end.
(** [try: m except Exception: h] *)
Definition try_except {A} (m : M A) (h : exc -> M A) : M A :=
  fun w => match m w with
           | (Ok a, w1) => (Ok a, w1)
           | (Raise e, w1) => h e w1
           end.
Definition lift {A} (r : result A) : M A := fun w => (r, w).

Notation "x <- m ;; k" := (bind m (fun x => k))
  (at level 61, m at next level, right associativity).

(** [time.sleep(d)]: a negative duration is a [ValueError]. *)
Definition sleep (d : Q) : M unit :=
  fun w =>
    if Qlt_le_dec d 0 then (Raise ValueError, w)
    else (Ok tt, mkWorld (ncalls w) (trace w ++ [ESleep d])).

Definition pow2 (i : nat) : Q := inject_Z (2 ^ Z.of_nat i).

(** The world after a sleep of [d] seconds. *)
Definition slept (w : world) (d : Q) : world :=
  mkWorld (ncalls w) (trace w ++ [ESleep d]).

Section Retry.
Variable A : Type.

(** The loop of [_retry_backoff_call] from iteration [i], with [n]
    iterations left. *)
Fixpoint retry_loop (func : M A) (base_delay : Q) (i n : nat)
         (last_exc : option exc) : M A :=
  match n with
  | O =>
      match last_exc with
      | Some e => raise e
      | None => raise TypeError          (* raise None *)
      end
  | S n' =>
      try_except func
        (fun e =>
           _ <- sleep (base_delay * pow2 i) ;;
           retry_loop func base_delay (S i) n' (Some e))
  end.

Definition _retry_backoff_call (func : M A) (retries : Z) (base_delay : Q)
  : M A :=
  retry_loop func base_delay 0 (Z.to_nat retries) None.
End Retry.

Definition nl : pystr := [10].
Definition dq : pystr := [34].
Definition q3 : pystr := [39; 39; 39].

(** ** llm_client.py: constants *)

Definition INSTITUTIONAL_TONE : pystr :=
  u "Use um tom institucional: cordial, profissional, objetivo e claro. " ++
  u "Evite jargões técnicos quando não solicitados. Não invente prazos ou informações. " ++
  u "Se precisar de dados adicionais para prosseguir, peça educadamente por 'dados de identificação' " ++
  u "sem solicitar informações sensíveis (como CPF ou número de cartão) diretamente no e-mail.".

Definition CLASSIFY_PROMPT_INSTRUCTIONS : pystr :=
  u "Classifique o e-mail em exatamente UMA das categorias: 'Produtivo' ou 'Improdutivo'." ++ nl ++
  u "Forneça também um resumo curto (uma frase) e uma estimativa de confiança entre 0 e 1." ++ nl ++
  u "Responda APENAS em JSON com as chaves: category, confidence, summary." ++ nl ++
  u "category deve ser 'Produtivo' ou 'Improdutivo'. confidence deve ser um número entre 0.0 e 1.0." ++ nl.

Definition Produtivo : pystr := u "Produtivo".
Definition Improdutivo : pystr := u "Improdutivo".

Definition TEMPLATE_Produtivo : pystr :=
  u "Olá," ++ nl ++ nl ++ u "Recebemos sua solicitação e já estamos verificando. " ++
  u "Por favor, confirme os dados necessários (número do processo ou mais detalhes) para que possamos acelerar o atendimento. " ++
  u "Retornaremos com uma atualização assim que possível." ++ nl ++ nl ++ u "Atenciosamente,".

Definition TEMPLATE_Improdutivo : pystr :=
  u "Olá," ++ nl ++ nl ++
  u "Agradecemos a sua mensagem. Caso precise de suporte ou queira abrir uma solicitação, por favor nos informe os detalhes.".

Definition _PRODUCTIVE_KEYWORDS : list pystr :=
  map u ["erro"; "problema"; "solicit"; "atualiza"; "atualização"; "status";
         "não consigo"; "não funciona"; "falha"; "incidente"; "reclama";
         "ajuda"; "suporte"].

Definition EMAIL_REMOVIDO : pystr := u "[EMAIL_REMOVIDO]".
Definition PII_REMOVIDO : pystr := u "[PII_REMOVIDO]".
Definition NUM_REMOVIDO : pystr := u "[NUM_REMOVIDO]".

(** ** Character classes of the anonymizer *)

(** [[a-zA-Z0-9_.+-]], [[a-zA-Z0-9-]] and [[a-zA-Z0-9-.]] *)
Definition cls_local (c : Z) : bool :=
  ascii_alpha c || ascii_digit c || (c =? 95) || (c =? 46) || (c =? 43) || (c =? 45).
Definition cls_dom (c : Z) : bool :=
  ascii_alpha c || ascii_digit c || (c =? 45).
Definition cls_domdot (c : Z) : bool :=
  ascii_alpha c || ascii_digit c || (c =? 45) || (c =? 46).

Fixpoint seq (l : list re) : re :=
  match l with
  | [] => Many (fun _ => false)
  | [r] => r
  | r :: l' => Cat r (seq l')
  end.

Section Anonymizer.

Context {rt : Runtime}.

Definition is_digit (c : Z) : bool :=
  if c <? 128 then ascii_digit c else uni_decimal c.

Definition is_word (c : Z) : bool :=
  if c <? 128 then ascii_alpha c || ascii_digit c || (c =? 95)
  else uni_decimal c || uni_alnum c.

(** [\b core \b] *)
Definition bounded (core : re) : re :=
  Cat (WordB is_word) (Cat core (WordB is_word)).

Definition dg (n : nat) : re := Rep n is_digit.

(** r"[a-zA-Z0-9_.+-]+@[a-zA-Z0-9-]+\.[a-zA-Z0-9-.]+" *)
Definition re_email : re :=
  seq [Many1 cls_local; Lit 64; Many1 cls_dom; Lit 46; Many1 cls_domdot].
(** r"\b\d{3}\.\d{3}\.\d{3}-\d{2}\b" *)
Definition core_cpf : re := seq [dg 3; Lit 46; dg 3; Lit 46; dg 3; Lit 45; dg 2].
Definition re_cpf : re := bounded core_cpf.
(** r"\b\d{11}\b" *)
Definition re_d11 : re := bounded (dg 11).
(** r"\b\d{2}\.\d{3}\.\d{3}/\d{4}-\d{2}\b" *)
Definition core_cnpj : re :=
  seq [dg 2; Lit 46; dg 3; Lit 46; dg 3; Lit 47; dg 4; Lit 45; dg 2].
Definition re_cnpj : re := bounded core_cnpj.
(** r"\b\d{14}\b" *)
Definition re_d14 : re := bounded (dg 14).
(** r"\b\d{6,}\b" *)
Definition core_d6 : re := Cat (dg 6) (Many is_digit).
Definition re_d6 : re := bounded core_d6.

Definition anonymize_text (text : pyobj) : pystr :=
  match text with
  | PStr text =>
      let text := sub re_email EMAIL_REMOVIDO text in
      let text := sub re_cpf PII_REMOVIDO text in
      let text := sub re_d11 PII_REMOVIDO text in
      let text := sub re_cnpj PII_REMOVIDO text in
      let text := sub re_d14 PII_REMOVIDO text in
      let text := sub re_d6 NUM_REMOVIDO text in
      text
  | _ => []
  end.

End Anonymizer.

(** ** llm_client.py: the pipeline *)

Record classification : Type := mkClassification {
  category : pystr;
  confidence : pyfloat;
  summary : pystr
}.

Definition c065 : pyfloat := FFin (65 # 100).
Definition c055 : pyfloat := FFin (55 # 100).
Definition c07 : pyfloat := FFin (7 # 10).
Definition c06 : pyfloat := FFin (6 # 10).

(** [resp["choices"][0]["message"]["content"].strip()] *)
Definition content_strip (r : response) : result pystr :=
  match r with
  | Resp (PStr s) => Ok (strip s)
  | Resp _ => Raise AttributeError
  | RespShape e => Raise e
  end.

(** [float(z)] for an int: the ints that round beyond the largest
    double raise. *)
Definition float_of_int (z : Z) : result pyfloat :=
  if Z.abs z >=? 2 ^ 1024 - 2 ^ 970 then Raise OverflowError
  else Ok (FFin (inject_Z z)).

Section LlmClient.

Context {rt : Runtime}.

(** The external model: its answer to the [n]-th call of a run. *)
Variable llm : nat -> request -> result response.

Definition create (r : request) : M response :=
  fun w => (llm (ncalls w) r, mkWorld (S (ncalls w)) (trace w ++ [ECall r])).

Definition py_str (v : json) : pystr :=
  match v with
  | JStr s => s
  | _ => py_repr v
  end.

Definition py_float (v : json) : result pyfloat :=
  match v with
  | JNull => Raise TypeError
  | JBool true => Ok f1
  | JBool false => Ok f0
  | JInt z => float_of_int z
  | JFloat f => Ok f
  | JStr s => float_of_str s
  | JArr _ | JObj _ => Raise TypeError
  end.

(** The clean-up of the [except] branch of [_extract_json_from_text]:
    every single quote becomes a double quote, then the matches of
    [,\s*}] become [}] and the matches of [,\s*]] become []]. *)
Definition json_cleaned (json_text : pystr) : pystr :=
  let cleaned := replace_char 39 dq json_text in
  let cleaned := sub (seq [Lit 44; Many is_space; Lit 125]) (u "}") cleaned in
  let cleaned := sub (seq [Lit 44; Many is_space; Lit 93]) (u "]") cleaned in
  cleaned.

Definition _extract_json_from_text (text : pyobj) : result json :=
  match text with
  | PStr text =>
      if str_eqb text [] then Raise ValueError
      else
        let first := find 123 text in
        let last := rfind 125 text in
        if (first =? -1) || (last =? -1) || (last <? first) then Raise ValueError
        else
          let json_text := slice first (last + 1) text in
          match json_loads json_text with
          | Ok parsed => Ok parsed
          | Raise _ => json_loads (json_cleaned json_text)
          end
  | _ => Raise ValueError
  end.

Definition heuristics_fallback_classify (text : pystr) : classification :=
  let t := str_lower text in
  match List.find (fun kw => contains t kw) _PRODUCTIVE_KEYWORDS with
  | Some kw =>
      mkClassification Produtivo c065
        (u "Contém palavra-chave indicativa: '" ++ kw ++ u "'")
  | None =>
      mkClassification Improdutivo c055
        (u "Nenhuma palavra-chave produtiva detectada")
  end.

(** The category after normalization, or [None] on the path that
    returns the heuristic result. *)
Definition normalize_category (category : pystr) : option pystr :=
  let cat_norm := str_capitalize category in
  if str_eqb cat_norm Produtivo || str_eqb cat_norm Improdutivo then Some cat_norm
  else
    let cat_norm := str_lower cat_norm in
    if contains cat_norm (u "prod") then Some Produtivo
    else if contains cat_norm (u "improd") || contains cat_norm (u "não")
         then Some Improdutivo
    else None.

Definition normalize_confidence (cat_norm : pystr) (confidence : json)
  : pyfloat :=
  match py_float confidence with
  | Ok f => py_max f0 (py_min f1 f)
  | Raise _ => if str_eqb cat_norm Produtivo then c07 else c06
  end.

(** The body of the [try] after the JSON is parsed. *)
Definition classify_parsed (email_text : pystr) (parsed : json)
  : result classification :=
  match parsed with
  | JObj kv =>
      let category := strip (py_str (dict_get kv (u "category") (JStr []))) in
      let confidence := dict_get kv (u "confidence") JNull in
      let summary := dict_get kv (u "summary") (JStr []) in
      match normalize_category category with
      | None => Ok (heuristics_fallback_classify email_text)
      | Some cat_norm =>
          let confidence := normalize_confidence cat_norm confidence in
          let summary :=
            if json_truthy summary then strip (py_str summary) else [] in
          Ok (mkClassification cat_norm confidence summary)
      end
  | _ => Raise AttributeError        (* parsed.get on a value that is no dict *)
  end.

Definition classify_request (email_text : pystr) (max_tokens : Z)
           (temperature : Q) : request :=
  let text := anonymize_text (PStr email_text) in
  mkRequest
    (u "Você é um assistente que classifica e resume e-mails para triagem em uma empresa financeira. Responda em Português.")
    (CLASSIFY_PROMPT_INSTRUCTIONS ++ nl ++ u "Email: '''" ++ text ++ q3 ++
     nl ++ nl ++ u "Saída JSON:")
    temperature max_tokens.

(** The body of the [try] block. *)
Definition classify_try (email_text : pystr) (max_tokens : Z)
           (temperature : Q) : M classification :=
  let req := classify_request email_text max_tokens temperature in
  resp <- _retry_backoff_call (create req) 3 1 ;;
  text_out <- lift (content_strip resp) ;;
  parsed <- lift (_extract_json_from_text (PStr text_out)) ;;
  lift (classify_parsed email_text parsed).

Definition classify_email (email_text : pystr) (max_tokens : Z)
           (temperature : Q) : M classification :=
  try_except (classify_try email_text max_tokens temperature)
    (fun _ => ret (heuristics_fallback_classify email_text)).

Definition improdutivo_request (email_text : pyobj) (max_tokens : Z) : request :=
  let text := anonymize_text email_text in
  mkRequest
    (u "Assistente que gera respostas institucionais em Português.")
    (INSTITUTIONAL_TONE ++ nl ++ nl ++
     u "O e-mail a seguir parece improdutivo. Gere uma resposta curta e cordial em Português." ++
     nl ++ nl ++ u "Email: '''" ++ text ++ q3 ++ nl ++ nl ++ u "Resposta:")
    (3 # 10) max_tokens.

Definition produtivo_request (email_text : pyobj) (summary : option pystr)
           (max_tokens : Z) : request :=
  let text := anonymize_text email_text in
  mkRequest
    (u "Assistente que gera respostas institucionais e seguras em Português.")
    (INSTITUTIONAL_TONE ++ nl ++ nl ++
     u "O e-mail abaixo foi classificado como 'Produtivo'. Gere uma resposta profissional em Português, " ++
     u "objetiva, com próximos passos claros e solicite informações adicionais se necessário." ++
     nl ++ nl ++ u "Resumo do e-mail: " ++ dq ++
     match summary with Some s => s | None => [] end ++ dq ++
     nl ++ nl ++ u "Email: '''" ++ text ++ q3 ++ nl ++ nl ++ u "Resposta:")
    (2 # 10) max_tokens.

(** [category == "Improdutivo"] *)
Definition is_improdutivo (category : pyobj) : bool :=
  match category with
  | PStr s => str_eqb s Improdutivo
  | _ => false
  end.

Definition generate_response (email_text : pyobj) (category : pyobj)
           (summary : option pystr) (max_tokens : Z) : M pystr :=
  if is_improdutivo category then
    try_except
      (resp <- _retry_backoff_call (create (improdutivo_request email_text max_tokens))
                                   2 (8 # 10) ;;
       reply <- lift (content_strip resp) ;;
       if len reply <? 30 then raise ValueError else ret reply)
      (fun _ => ret TEMPLATE_Improdutivo)
  else
    try_except
      (resp <- _retry_backoff_call (create (produtivo_request email_text summary max_tokens))
                                   3 1 ;;
       reply <- lift (content_strip resp) ;;
       if str_eqb reply [] then raise ValueError else ret reply)
      (fun _ => ret TEMPLATE_Produtivo).

End LlmClient.


(** ** Worlds for the worked examples *)

Definition req0 : request := mkRequest (u "system") (u "user") 0 16.

(** A model that is down for its first two calls, and one that never
    answers. *)
Definition llm_late (r : response) (n : nat) (_ : request) : result response :=
  if (n <? 2)%nat then Raise (ApiError 503) else Ok r.

Definition llm_down (n : nat) (_ : request) : result response :=
  Raise (ApiError 503).

(** A model that always gives the same answer. *)
Definition llm_says (text : pystr) (n : nat) (_ : request) : result response :=
  Ok (Resp (PStr text)).

(** The world in which attempt [i] of a retried call starts. *)
Fixpoint attempt_world (A : Type) (func : M A) (base : Q) (w : world) (i : nat)
  : world :=
  match i with
  | O => w
  | S j => slept (snd (func (attempt_world func base w j))) (base * pow2 j)
  end.

(** ** Predicates of the statements *)

(** A result with a canonical category and a confidence in the unit
    interval. *)
Definition canonical (c : classification) : Prop :=
  (category c = Produtivo \/ category c = Improdutivo) /\ in_unit (confidence c).

(** A JSON text of the examples, written with ['] for the double quote. *)
Definition js (s : string) : pystr := replace_char 39 dq (u s).

(** The text the productive branch returns for a response of the model. *)
Definition reply_or (template : pystr) (resp : response) : pystr :=
  match content_strip resp with
  | Ok reply => if str_eqb reply [] then template else reply
  | Raise _ => template
  end.

(** The two-stage parse of a JSON candidate: [json.loads], and when it
    raises, [json.loads] of the cleaned candidate, once. *)
Definition loads_with_cleanup {rt : Runtime} (candidate : pystr) : result json :=
  match json_loads candidate with
  | Ok parsed => Ok parsed
  | Raise _ => json_loads (json_cleaned candidate)
  end.

(** The words of a list in the order of their first occurrence, those of
    [seen] left out. *)
Fixpoint first_seen (seen : list pystr) (l : list pystr) : list pystr :=
  match l with
  | [] => []
  | w :: l' => if mem w seen then first_seen seen l'
               else w :: first_seen (w :: seen) l'
  end.

(** The class [[a-zA-ZÀ-ú]]: the ASCII letters and the code points
    U+00C0 to U+00FA, which are letters except for the signs [×] (U+00D7)
    and [÷] (U+00F7). *)
Definition kw_letter (c : Z) : bool :=
  ((97 <=? c) && (c <=? 122)) || ((65 <=? c) && (c <=? 90)) ||
  ((192 <=? c) && (c <=? 250)).

(** ** What a pattern matches

    [Matches r prev m t]: the pattern [r] can match the text [m] when
    the character [prev] stands before it and the text [t] follows it.
    The matcher [run] finds a match exactly when there is one. *)

Fixpoint last_or (prev : option Z) (m : pystr) : option Z :=
  match m with
  | [] => prev
  | c :: m' => last_or (Some c) m'
  end.

Inductive Matches : re -> option Z -> pystr -> pystr -> Prop :=
| M_cls p prev c t : p c = true -> Matches (Cls p) prev [c] t
| M_many0 p prev t : Matches (Many p) prev [] t
| M_many1 p prev c m t :
    p c = true -> Matches (Many p) (Some c) m t ->
    Matches (Many p) prev (c :: m) t
| M_wordb w prev t : boundary w prev t = true -> Matches (WordB w) prev [] t
| M_cat r1 r2 prev m1 m2 t :
    Matches r1 prev m1 (m2 ++ t) -> Matches r2 (last_or prev m1) m2 t ->
    Matches (Cat r1 r2) prev (m1 ++ m2) t.

(** The pattern has a match somewhere in [s], which follows [prev]. *)
Definition Occurs (r : re) (prev : option Z) (s : pystr) : Prop :=
  exists l m t, s = l ++ m ++ t /\ Matches r (last_or prev l) m t.

(** The characters a match of the pattern can contain. *)
Fixpoint alphabet (r : re) (c : Z) : bool :=
  match r with
  | Cls p | Many p => p c
  | WordB _ => false
  | Cat r1 r2 => alphabet r1 c || alphabet r2 c
  end.

(** The pattern cannot match the empty text. *)
Fixpoint consumes (r : re) : bool :=
  match r with
  | Cls _ => true
  | Many _ | WordB _ => false
  | Cat r1 r2 => consumes r1 || consumes r2
  end.

(** Every [\b] of the pattern is taken with the word characters [w]. *)
Fixpoint uses_words (w : Z -> bool) (r : re) : Prop :=
  match r with
  | Cls _ | Many _ => True
  | WordB w' => w' = w
  | Cat r1 r2 => uses_words w r1 /\ uses_words w r2
  end.

(** Two contexts a [\b] cannot tell apart. *)
Definition same_context (w : Z -> bool) (prev prev' : option Z) (t t' : pystr)
  : Prop :=
  is_word_at w prev = is_word_at w prev' /\
  is_word_at w (hd_error t) = is_word_at w (hd_error t').

(** ** What [re.sub] does

    [Subst r rep prev s o]: scanning [s], which follows [prev], [re.sub]
    writes [o]: a character where the pattern does not match is copied,
    a match is replaced by [rep]. *)
Inductive Subst (r : re) (rep : pystr) : option Z -> pystr -> pystr -> Prop :=
| Sub_end prev : Subst r rep prev [] []
| Sub_keep prev c s o :
    match_here r prev (c :: s) = None ->
    Subst r rep (Some c) s o ->
    Subst r rep prev (c :: s) (c :: o)
| Sub_repl prev m t o :
    m <> [] -> Matches r prev m t ->
    Subst r rep (last_or prev m) t o ->
    Subst r rep prev (m ++ t) (rep ++ o).

(** ** Why a replaced text hides nothing

    [Kept w t rep prev s o]: a scan that turns [s] into [o] by copying
    characters and writing [rep] for some blocks, such that the target
    pattern [t] has no match starting at a copied character of [s], and
    each replaced block stands between two non-word positions. *)
Inductive Kept (w : Z -> bool) (t : re) (rep : pystr)
  : option Z -> pystr -> pystr -> Prop :=
| K_end prev : Kept w t rep prev [] []
| K_keep prev c s o :
    (forall m r, c :: s = m ++ r -> ~ Matches t prev m r) ->
    Kept w t rep (Some c) s o ->
    Kept w t rep prev (c :: s) (c :: o)
| K_repl prev m r o :
    m <> [] ->
    is_word_at w prev = false -> is_word_at w (hd_error r) = false ->
    Kept w t rep (last_or prev m) r o ->
    Kept w t rep prev (m ++ r) (rep ++ o).

(** Either the pattern is read with no word character at all, so that
    no context matters to it, or its matches begin and end with a word
    character. *)
Definition Edges (w : Z -> bool) (t : re) : Prop :=
  (forall c, w c = false) \/
  (forall prev m r, Matches t prev m r ->
     is_word_at w (hd_error m) = true /\ is_word_at w (last_or None m) = true).

(** Every match of the pattern stands between two non-word positions. *)
Definition Fenced (w : Z -> bool) (r : re) : Prop :=
  forall prev m t, Matches r prev m t ->
    is_word_at w prev = false /\ is_word_at w (hd_error t) = false.

(** The replacement text [rep] hides the pattern [t]: it stands between
    two characters no match of [t] contains, the last of them no word
    character, and lacks a character every match of [t] needs. *)
Definition Hides (w : Z -> bool) (t : re) (rep : pystr) : Prop :=
  exists o1 o2 body need,
    rep = o1 :: body ++ [o2] /\
    uses_words w t /\ consumes t = true /\
    alphabet t o1 = false /\ alphabet t o2 = false /\ w o2 = false /\
    (forall prev m r, Matches t prev m r -> exists c, In c m /\ need c = true) /\
    (forall c, In c rep -> need c = false) /\
    Edges w t.

(** A pattern begins (ends) with a character of the class [p]. *)
Inductive StartsWith (p : Z -> bool) : re -> Prop :=
| SW_cls : StartsWith p (Cls p)
| SW_cat r1 r2 : StartsWith p r1 -> StartsWith p (Cat r1 r2).

Inductive EndsWith (p : Z -> bool) : re -> Prop :=
| EW_cls : EndsWith p (Cls p)
| EW_cat r1 r2 : EndsWith p r2 -> EndsWith p (Cat r1 r2)
| EW_many r1 : EndsWith p r1 -> EndsWith p (Cat r1 (Many p)).

(** ** llm_client.py: the compatibility entry point *)

Section Compat.
Context {rt : Runtime}.
Variable llm : nat -> request -> result response.

(** [call_llm_for_classify_and_respond]: the pair [(category,
    suggested)]; both calls take the defaults of their keyword
    arguments. *)
Definition call_llm_for_classify_and_respond (email_text : pystr)
  : M (pystr * pystr) :=
  cls <- classify_email llm email_text 256 0 ;;
  let category := category cls in
  let summary := summary cls in
  suggested <- generate_response llm (PStr email_text) (PStr category)
                                 (Some summary) 512 ;;
  ret (category, suggested).

(** What the [try] block of [classify_email] makes of a response. *)
Definition classify_response (email_text : pystr) (resp : response)
  : result classification :=
  match content_strip resp with
  | Ok text_out =>
      match _extract_json_from_text (PStr text_out) with
      | Ok parsed => classify_parsed email_text parsed
      | Raise e => Raise e
      end
  | Raise e => Raise e
  end.

End Compat.

(** ** app.py: the file filter *)

Definition ALLOWED_EXTENSIONS : list pystr := map u ["pdf"; "txt"].

(** [filename.rsplit('.', 1)[1]] for a name with a dot: what follows the
    last dot. *)
Definition after_last_dot (filename : pystr) : pystr :=
  skipn (Z.to_nat (rfind 46 filename + 1)) filename.

Definition allowed_file {rt : Runtime} (filename : pystr) : bool :=
  existsb (fun c => c =? 46) filename &&
  mem (str_lower (after_last_dot filename)) ALLOWED_EXTENSIONS.

(** The seconds a trace spends asleep. *)
Fixpoint total_sleep (evs : list event) : Q :=
  match evs with
  | [] => 0
  | ESleep d :: evs' => d + total_sleep evs'
  | ECall _ :: evs' => total_sleep evs'
  end.

(** The calls of a trace. *)
Fixpoint calls_of (evs : list event) : list request :=
  match evs with
  | [] => []
  | ECall r :: evs' => r :: calls_of evs'
  | ESleep _ :: evs' => calls_of evs'
  end.

(** ** Words and spacing *)

(** [sep.join(l)] *)
Fixpoint join (sep : pystr) (l : list pystr) : pystr :=
  match l with
  | [] => []
  | w :: l' =>
      match l' with
      | [] => w
      | _ :: _ => w ++ sep ++ join sep l'
      end
  end.

(** The number of whitespace characters a text begins with. *)
Fixpoint space_run (s : pystr) : nat :=
  match s with
  | c :: s' => if is_space c then S (space_run s') else O
  | [] => O
  end.

(** A text with every run of whitespace written as one space; with
    [inside] the text continues a run, whose space is written already. *)
Fixpoint squeeze (inside : bool) (s : pystr) : pystr :=
  match s with
  | [] => []
  | c :: s' =>
      if is_space c then
        if inside then squeeze true s' else 32 :: squeeze true s'
      else c :: squeeze false s'
  end.

(** A text that neither begins nor ends with whitespace. *)
Definition tight (s : pystr) : Prop :=
  (forall a, hd_error s = Some a -> is_space a = false) /\
  (forall z, last_or None s = Some z -> is_space z = false).

(** A word: not empty and free of whitespace. *)
Definition word (w : pystr) : Prop :=
  w <> [] /\ Forall (fun c => is_space c = false) w.

(** The maximal runs of characters of a class, in order; [cur] is the
    run being read, reversed. *)
Fixpoint blocks_aux (p : Z -> bool) (cur : pystr) (s : pystr) : list pystr :=
  match s with
  | [] => match cur with [] => [] | _ => [rev cur] end
  | c :: s' =>
      if p c then blocks_aux p (c :: cur) s'
      else
        match cur with
        | [] => blocks_aux p [] s'
        | _ => rev cur :: blocks_aux p [] s'
        end
  end.

Definition blocks (p : Z -> bool) (s : pystr) : list pystr := blocks_aux p [] s.

(** ** What a prompt can contain *)

(** No match of the pattern, in whatever context, lies inside [s]. *)
Definition NoBlock (r : re) (s : pystr) : Prop :=
  forall prev m t l l', Matches r prev m t -> s <> l ++ m ++ l'.

(** A character that may be a digit: an ASCII digit, or a character
    beyond ASCII, on which the Unicode tables decide. *)
Definition maybe_digit (c : Z) : bool := ascii_digit c || (128 <=? c).

(** The text has two characters that may be digits followed by a third
    or by a dot. *)
Fixpoint risky (s : pystr) : bool :=
  match s with
  | c1 :: s1 =>
      match s1 with
      | c2 :: c3 :: _ =>
          (maybe_digit c1 && maybe_digit c2 && (maybe_digit c3 || (c3 =? 46)))
          || risky s1
      | _ => false
      end
  | [] => false
  end.


(** * Properties *)

(** ** Worked examples *)

Example u_nao : u "não" = [110; 227; 111].
Proof. reflexivity. Qed.

Example dec_float_ex : dec_float (u " 1.5 ") = Ok (FFin (15 # 10)).
Proof. vm_compute. reflexivity. Qed.

Example dec_of_int_ex : dec_of_int (-1203) = u "-1203".
Proof. vm_compute. reflexivity. Qed.

Example extract_keywords_ex :
  extract_keywords (rt := ascii_runtime)
    (u "O Status do pedido 123: status, erro de acesso!") 10
  = [u "status"; u "pedido"; u "erro"; u "acesso"].
Proof. vm_compute. reflexivity. Qed.

Example anonymize_ex :
  anonymize_text (rt := ascii_runtime)
    (PStr (u "de joao.silva@banco.com.br cpf 123.456.789-09 conta 12345678 ok 12345"))
  = u "de [EMAIL_REMOVIDO] cpf [PII_REMOVIDO] conta [NUM_REMOVIDO] ok 12345".
Proof. vm_compute. reflexivity. Qed.

Example loads_ex1 :
  Json.loads (u "{'a':1,}") = Raise JSONDecodeError.
Proof. vm_compute. reflexivity. Qed.

Example loads_ex2 :
  Json.loads ([123; 34; 97; 34; 58] ++ u " [1, -2.5e1, true, null], " ++
              [34; 98; 34; 58; 34; 92; 117] ++ u "00e3x" ++ [34; 125])
  = Ok (JObj [(u "a", JArr [JInt 1; JFloat (FFin (-25 # 1)); JBool true; JNull]);
              (u "b", JStr (u "ãx"))]).
Proof. vm_compute. reflexivity. Qed.

(** ** Basic facts *)

Lemma str_eqb_eq a b : str_eqb a b = true <-> a = b.
Proof. unfold str_eqb. destruct (list_eq_dec Z.eq_dec a b); split; congruence. Qed.

Lemma str_eqb_refl a : str_eqb a a = true.
Proof. apply str_eqb_eq. reflexivity. Qed.

Lemma str_eqb_neq a b : str_eqb a b = false <-> a <> b.
Proof. unfold str_eqb. destruct (list_eq_dec Z.eq_dec a b); split; congruence. Qed.

(** ** The retry loop *)

Lemma pow2_nonneg i : (0 <= pow2 i)%Q.
Proof.
  unfold pow2. change 0%Q with (inject_Z 0). rewrite <- Zle_Qle.
  apply Z.pow_nonneg. lia.
Qed.

Lemma sleep_ok d w : (0 <= d)%Q -> sleep d w = (Ok tt, slept w d).
Proof.
  intros H. unfold sleep, slept. destruct (Qlt_le_dec d 0) as [L|L].
  - exfalso. apply (Qlt_not_le _ _ L H).
  - reflexivity.
Qed.

Lemma sleep_backoff_ok base i w :
  (0 <= base)%Q -> sleep (base * pow2 i) w = (Ok tt, slept w (base * pow2 i)).
Proof.
  intros H. apply sleep_ok. apply Qmult_le_0_compat; [exact H | apply pow2_nonneg].
Qed.

Section RetryFacts.
Variable A : Type.
Variable func : M A.
Variable base : Q.
Hypothesis base_nonneg : (0 <= base)%Q.

(** [k] failures followed by a success, from iteration [i0]. *)
Lemma retry_loop_success k :
  forall (ws ws' : nat -> world) (e : nat -> exc) i0 n last a w',
    (k < n)%nat ->
    (forall i, (i < k)%nat -> func (ws i) = (Raise (e i), ws' i)) ->
    (forall i, (i < k)%nat -> ws (S i) = slept (ws' i) (base * pow2 (i0 + i))) ->
    func (ws k) = (Ok a, w') ->
    retry_loop func base i0 n last (ws 0%nat) = (Ok a, w').
Proof.
  induction k as [|k IH]; intros ws ws' e i0 n last a w' Hn Hf Hs Hok.
  - destruct n as [|n]; [lia|]. simpl. unfold try_except. rewrite Hok. reflexivity.
  - destruct n as [|n]; [lia|]. simpl. unfold try_except.
    rewrite (Hf 0%nat) by lia. unfold bind.
    rewrite sleep_backoff_ok by exact base_nonneg.
    specialize (Hs 0%nat) as Hs0. rewrite Nat.add_0_r in Hs0. rewrite <- Hs0 by lia.
    apply (IH (fun i => ws (S i)) (fun i => ws' (S i)) (fun i => e (S i))).
    + lia.
    + intros i Hi. apply Hf. lia.
    + intros i Hi. rewrite Hs by lia. f_equal. f_equal. f_equal. lia.
    + exact Hok.
Qed.

(** [n] failures in a row, from iteration [i0]. *)
Lemma retry_loop_exhausted n :
  forall (ws ws' : nat -> world) (e : nat -> exc) i0 last,
    (forall i, (i < n)%nat -> func (ws i) = (Raise (e i), ws' i)) ->
    (forall i, (i < n)%nat -> ws (S i) = slept (ws' i) (base * pow2 (i0 + i))) ->
    retry_loop func base i0 n last (ws 0%nat)
    = (Raise (match n with
              | O => match last with Some x => x | None => TypeError end
              | S m => e m
              end), ws n).
Proof.
  induction n as [|n IH]; intros ws ws' e i0 last Hf Hs.
  - simpl. destruct last; reflexivity.
  - simpl. unfold try_except. rewrite (Hf 0%nat) by lia. unfold bind.
    rewrite sleep_backoff_ok by exact base_nonneg.
    specialize (Hs 0%nat) as Hs0. rewrite Nat.add_0_r in Hs0. rewrite <- Hs0 by lia.
    rewrite (IH (fun i => ws (S i)) (fun i => ws' (S i)) (fun i => e (S i))).
    + destruct n; reflexivity.
    + intros i Hi. apply Hf. lia.
    + intros i Hi. rewrite Hs by lia. f_equal. f_equal. f_equal. lia.
Qed.

End RetryFacts.

(** C5.  [_retry_backoff_call] runs the call at most [retries] times and
    returns the first result; after the failed attempt [i] it sleeps
    [base_delay * 2^i]; when all [retries] attempts fail it raises the
    exception of the last one.  Here [ws i] is the world in which
    attempt [i] runs, [ws' i] the world it leaves and [e i] its
    exception. *)
Theorem retry_backoff_call_spec (A : Type) (func : M A) (retries : Z)
        (base_delay : Q) (ws ws' : nat -> world) (e : nat -> exc) :
  (0 <= base_delay)%Q ->
  (forall i, (i < Z.to_nat retries)%nat ->
             ws (S i) = slept (ws' i) (base_delay * pow2 i)) ->
  (forall k a w',
      (k < Z.to_nat retries)%nat ->
      (forall i, (i < k)%nat -> func (ws i) = (Raise (e i), ws' i)) ->
      func (ws k) = (Ok a, w') ->
      _retry_backoff_call func retries base_delay (ws 0%nat) = (Ok a, w'))
  /\ ((0 < Z.to_nat retries)%nat ->
   (forall i, (i < Z.to_nat retries)%nat -> func (ws i) = (Raise (e i), ws' i)) ->
   _retry_backoff_call func retries base_delay (ws 0%nat)
   = (Raise (e (Z.to_nat retries - 1)%nat), ws (Z.to_nat retries))).
Proof.
  intros Hb Hs. unfold _retry_backoff_call. split.
  - intros k a w' Hk Hf Hok.
    apply retry_loop_success with (ws := ws) (ws' := ws') (e := e) (k := k); auto.
    intros i Hi. rewrite Nat.add_0_l. apply Hs. lia.
  - intros Hpos Hf.
    rewrite retry_loop_exhausted with (ws := ws) (ws' := ws') (e := e); auto.
    destruct (Z.to_nat retries) as [|m]; [lia|].
    replace (S m - 1)%nat with m by lia. reflexivity.
Qed.

Lemma retry_backoff_call_spec_witness :
  _retry_backoff_call (create (llm_late (Resp (PStr (u "ok")))) req0) 3 1 world0
  = (Ok (Resp (PStr (u "ok"))),
     mkWorld 3 [ECall req0; ESleep 1; ECall req0; ESleep 2; ECall req0])
  /\
  _retry_backoff_call (create llm_down req0) 3 1 world0
  = (Raise (ApiError 503),
     mkWorld 3 [ECall req0; ESleep 1; ECall req0; ESleep 2; ECall req0; ESleep 4]).
Proof.
  split.
  - pose (f := create (llm_late (Resp (PStr (u "ok")))) req0).
    assert (Hb : (0 <= 1)%Q) by (unfold Qle; simpl; lia).
    assert (Hs : forall i, (i < Z.to_nat 3)%nat ->
                attempt_world f 1 world0 (S i)
                = slept (snd (f (attempt_world f 1 world0 i))) (1 * pow2 i))
      by (intros i _; reflexivity).
    destruct (retry_backoff_call_spec f 3 (attempt_world f 1 world0)
                (fun i => snd (f (attempt_world f 1 world0 i)))
                (fun _ => ApiError 503) Hb Hs) as [H _].
    apply (H 2%nat).
    + vm_compute. lia.
    + intros i Hi. destruct i as [|[|i]]; [reflexivity | reflexivity | lia].
    + reflexivity.
  - pose (f := create llm_down req0).
    assert (Hb : (0 <= 1)%Q) by (unfold Qle; simpl; lia).
    assert (Hs : forall i, (i < Z.to_nat 3)%nat ->
                attempt_world f 1 world0 (S i)
                = slept (snd (f (attempt_world f 1 world0 i))) (1 * pow2 i))
      by (intros i _; reflexivity).
    destruct (retry_backoff_call_spec f 3 (attempt_world f 1 world0)
                (fun i => snd (f (attempt_world f 1 world0 i)))
                (fun _ => ApiError 503) Hb Hs) as [_ H].
    apply H.
    + vm_compute. lia.
    + intros i Hi. destruct i as [|[|[|i]]];
        [reflexivity | reflexivity | reflexivity | ].
      vm_compute in Hi. lia.
Defined.

(** ** Floats *)

Lemma in_unit_f0 : in_unit f0.
Proof. simpl. split; apply Qle_refl || (unfold Qle; simpl; lia). Qed.

Lemma in_unit_f1 : in_unit f1.
Proof. simpl. split; unfold Qle; simpl; lia. Qed.

Lemma in_unit_consts : in_unit c065 /\ in_unit c055 /\ in_unit c07 /\ in_unit c06.
Proof. repeat split; unfold Qle; simpl; lia. Qed.

(** [max(0.0, min(1.0, f))] lies in the unit interval for every float,
    NaN and the infinities included. *)
Lemma clamp_unit f : in_unit (py_max f0 (py_min f1 f)).
Proof.
  destruct f as [|[|]|q]; unfold py_min, py_max, f0, f1; simpl.
  - destruct (Qlt_le_dec 0 1); split; unfold Qle; simpl; lia.
  - split; unfold Qle; simpl; lia.
  - destruct (Qlt_le_dec 0 1); split; unfold Qle; simpl; lia.
  - destruct (Qlt_le_dec q 1) as [L1|L1]; simpl.
    + destruct (Qlt_le_dec 0 q) as [L0|L0]; simpl.
      * split; apply Qlt_le_weak; assumption.
      * split; unfold Qle; simpl; lia.
    + destruct (Qlt_le_dec 0 1); split; unfold Qle; simpl; lia.
Qed.

Lemma clamp_inside f : in_unit f -> feq (py_max f0 (py_min f1 f)) f.
Proof.
  destruct f as [|[|]|q]; simpl; try tauto. intros [H0 H1].
  unfold py_min, py_max, f0, f1; simpl.
  destruct (Qlt_le_dec q 1) as [L1|L1]; simpl.
  - destruct (Qlt_le_dec 0 q) as [L0|L0]; simpl.
    + reflexivity.
    + apply Qle_antisym; assumption.
  - destruct (Qlt_le_dec 0 1) as [L|L]; simpl.
    + apply Qle_antisym; assumption.
    + exfalso. revert L. unfold Qle. simpl. lia.
Qed.

Lemma clamp_below f : flt f f0 = true -> py_max f0 (py_min f1 f) = f0.
Proof.
  destruct f as [|[|]|q]; unfold py_min, py_max, f0, f1; simpl; try discriminate.
  - reflexivity.
  - destruct (Qlt_le_dec q 0) as [L|L]; [|discriminate]. intros _.
    destruct (Qlt_le_dec q 1) as [L1|L1]; simpl.
    + destruct (Qlt_le_dec 0 q) as [L0|L0]; simpl; [|reflexivity].
      exfalso. apply (Qlt_irrefl 0%Q). apply Qlt_trans with q; assumption.
    + exfalso. apply (Qlt_not_le _ _ L). apply Qle_trans with 1%Q; [|exact L1].
      unfold Qle; simpl; lia.
Qed.

Lemma clamp_above f : flt f1 f = true -> py_max f0 (py_min f1 f) = f1.
Proof.
  destruct f as [|[|]|q]; unfold py_min, py_max, f0, f1; simpl; try discriminate.
  - intros _. destruct (Qlt_le_dec 0 1) as [L|L]; [reflexivity|].
    exfalso. revert L. unfold Qle. simpl. lia.
  - destruct (Qlt_le_dec 1 q) as [L|L]; [|discriminate]. intros _.
    destruct (Qlt_le_dec q 1) as [L1|L1]; simpl.
    + exfalso. apply (Qlt_irrefl 1%Q). apply Qlt_trans with q; assumption.
    + destruct (Qlt_le_dec 0 1) as [L0|L0]; [reflexivity|].
      exfalso. revert L0. unfold Qle. simpl. lia.
Qed.

Lemma clamp_nan : py_max f0 (py_min f1 FNan) = f1.
Proof.
  unfold py_min, py_max, f0, f1; simpl.
  destruct (Qlt_le_dec 0 1) as [L|L]; [reflexivity|].
  exfalso. revert L. unfold Qle. simpl. lia.
Qed.

(** ** The classification pipeline *)

Section ClassifyFacts.
Context {rt : Runtime}.
Variable llm : nat -> request -> result response.

Lemma heuristics_canonical text : canonical (heuristics_fallback_classify text).
Proof.
  unfold heuristics_fallback_classify, canonical.
  destruct (List.find _ _); simpl.
  - split; [left; reflexivity | apply in_unit_consts].
  - split; [right; reflexivity | apply in_unit_consts].
Qed.

Lemma normalize_category_canonical s c :
  normalize_category s = Some c -> c = Produtivo \/ c = Improdutivo.
Proof.
  unfold normalize_category.
  destruct (str_eqb (str_capitalize s) Produtivo) eqn:EP; simpl.
  - intros H. inversion H. left. apply str_eqb_eq. exact EP.
  - destruct (str_eqb (str_capitalize s) Improdutivo) eqn:EI.
    + intros H. inversion H. right. apply str_eqb_eq. exact EI.
    + destruct (contains _ (u "prod")); [intros H; inversion H; auto|].
      destruct (_ || _); intros H; inversion H; auto.
Qed.

Lemma normalize_confidence_unit cat v : in_unit (normalize_confidence cat v).
Proof.
  unfold normalize_confidence. destruct (py_float v).
  - apply clamp_unit.
  - destruct (str_eqb cat Produtivo); apply in_unit_consts.
Qed.

Lemma classify_parsed_canonical email parsed c :
  classify_parsed email parsed = Ok c -> canonical c.
Proof.
  destruct parsed; simpl; try discriminate.
  destruct (normalize_category _) as [cat|] eqn:E; intros H; inversion H; subst.
  - split; simpl.
    + apply normalize_category_canonical with (1 := E).
    + apply normalize_confidence_unit.
  - apply heuristics_canonical.
Qed.

(** [classify_email] returns, and what it returns is the heuristic
    result or the normalized answer of the model. *)
Lemma classify_email_returns email mt temp w :
  exists c w',
    classify_email llm email mt temp w = (Ok c, w') /\
    (c = heuristics_fallback_classify email \/
     exists parsed, classify_parsed email parsed = Ok c).
Proof.
  unfold classify_email, try_except, classify_try, bind, lift, ret.
  destruct (_retry_backoff_call _ _ _ w) as [[resp|e] w1]; [|eauto].
  destruct (content_strip resp) as [t|e]; [|eauto].
  destruct (_extract_json_from_text (PStr t)) as [parsed|e]; [|eauto].
  destruct (classify_parsed email parsed) as [c|e] eqn:E; eauto 6.
Qed.

End ClassifyFacts.

(** C2.  Whatever the model answers, [classify_email] returns a result
    whose category is exactly [Produtivo] or [Improdutivo] and whose
    confidence lies in [0.0, 1.0]. *)
Theorem classify_email_canonical (rt : Runtime)
        (llm : nat -> request -> result response)
        (email_text : pystr) (max_tokens : Z) (temperature : Q) (w : world) :
  match fst (classify_email llm email_text max_tokens temperature w) with
  | Ok c =>
      (category c = u "Produtivo" \/ category c = u "Improdutivo") /\
      in_unit (confidence c)
  | Raise _ => False
  end.
Proof.
  destruct (classify_email_returns llm email_text max_tokens temperature w)
    as (c & w' & E & H).
  rewrite E. simpl. destruct H as [H | [parsed H]].
  - subst c. apply heuristics_canonical.
  - apply classify_parsed_canonical with (1 := H).
Qed.

(** ** The heuristic classifier *)

Lemma find_first_match (A : Type) (f : A -> bool) before kw after :
  f kw = true ->
  (forall k, In k before -> f k = false) ->
  List.find f (before ++ kw :: after) = Some kw.
Proof.
  intros Hk. induction before as [|x before IH]; intros Hb; simpl.
  - rewrite Hk. reflexivity.
  - rewrite (Hb x) by (left; reflexivity). apply IH.
    intros k Hin. apply Hb. right. exact Hin.
Qed.

Lemma find_no_match (A : Type) (f : A -> bool) l :
  (forall k, In k l -> f k = false) -> List.find f l = None.
Proof.
  induction l as [|x l IH]; intros H; simpl; [reflexivity|].
  rewrite (H x) by (left; reflexivity). apply IH.
  intros k Hin. apply H. right. exact Hin.
Qed.

(** C1.  [classify_email] always returns.  When the retried call to the
    model raises, when the content of the response cannot be read, when
    no JSON can be extracted from it, or when the normalization raises,
    the result is the heuristic classification of the original text:
    [Produtivo] with confidence 0.65 and a summary naming the first
    keyword of the list that occurs in the lowercased text, or
    [Improdutivo] with confidence 0.55 and a fixed summary when none
    occurs. *)
Theorem classify_email_never_raises (rt : Runtime)
        (llm : nat -> request -> result response)
        (email_text : pystr) (max_tokens : Z) (temperature : Q) (w : world) :
  let h := heuristics_fallback_classify email_text in
  let call := _retry_backoff_call
                (create llm (classify_request email_text max_tokens temperature)) 3 1 in
  let run := classify_email llm email_text max_tokens temperature w in
  (exists c w', run = (Ok c, w'))
  /\ (forall e w1, call w = (Raise e, w1) -> run = (Ok h, w1))
  /\ (forall resp w1, call w = (Ok resp, w1) ->
        (forall e, content_strip resp = Raise e -> run = (Ok h, w1)) /\
        (forall t e, content_strip resp = Ok t ->
                     _extract_json_from_text (PStr t) = Raise e ->
                     run = (Ok h, w1)) /\
        (forall t parsed e, content_strip resp = Ok t ->
                            _extract_json_from_text (PStr t) = Ok parsed ->
                            classify_parsed email_text parsed = Raise e ->
                            run = (Ok h, w1)))
  /\ (forall before kw after,
        _PRODUCTIVE_KEYWORDS = before ++ kw :: after ->
        contains (str_lower email_text) kw = true ->
        (forall k, In k before -> contains (str_lower email_text) k = false) ->
        h = mkClassification (u "Produtivo") (FFin (65 # 100))
              (u "Contém palavra-chave indicativa: '" ++ kw ++ u "'"))
  /\ ((forall k, In k _PRODUCTIVE_KEYWORDS ->
                 contains (str_lower email_text) k = false) ->
      h = mkClassification (u "Improdutivo") (FFin (55 # 100))
            (u "Nenhuma palavra-chave produtiva detectada")).
Proof.
  intros h call run. repeat split.
  - destruct (classify_email_returns llm email_text max_tokens temperature w)
      as (c & w' & E & _). eauto.
  - intros e w1 E. unfold run, classify_email, try_except, classify_try, bind.
    fold call. rewrite E. reflexivity.
  - intros e E'. unfold run, classify_email, try_except, classify_try, bind, lift.
    fold call. rewrite H, E'. reflexivity.
  - intros t e Et Ex. unfold run, classify_email, try_except, classify_try, bind, lift.
    fold call. rewrite H, Et, Ex. reflexivity.
  - intros t parsed e Et Ex Ec.
    unfold run, classify_email, try_except, classify_try, bind, lift.
    fold call. rewrite H, Et, Ex, Ec. reflexivity.
  - intros before kw after Hl Hk Hb. unfold h, heuristics_fallback_classify.
    rewrite Hl. rewrite find_first_match; auto.
  - intros Hn. unfold h, heuristics_fallback_classify.
    rewrite find_no_match; auto.
Qed.

Lemma classify_email_never_raises_witness :
  fst (classify_email (rt := ascii_runtime) llm_down (u "Erro no sistema") 256 0 world0)
  = Ok (mkClassification (u "Produtivo") (FFin (65 # 100))
          (u "Contém palavra-chave indicativa: 'erro'"))
  /\
  fst (classify_email (rt := ascii_runtime) (llm_says (u "sem chaves"))
         (u "Bom dia, obrigado") 256 0 world0)
  = Ok (mkClassification (u "Improdutivo") (FFin (55 # 100))
          (u "Nenhuma palavra-chave produtiva detectada")).
Proof.
  split.
  - destruct (classify_email_never_raises ascii_runtime llm_down
                (u "Erro no sistema") 256 0 world0) as (_ & H2 & _ & H4 & _).
    rewrite (H2 (ApiError 503)
               (snd (_retry_backoff_call
                       (create llm_down
                          (classify_request (rt := ascii_runtime)
                             (u "Erro no sistema") 256 0)) 3 1 world0)))
      by (vm_compute; reflexivity).
    simpl fst. apply (f_equal (@Ok classification)).
    apply (H4 [] (u "erro") (map u ["problema"; "solicit"; "atualiza"; "atualização";
                                   "status"; "não consigo"; "não funciona"; "falha";
                                   "incidente"; "reclama"; "ajuda"; "suporte"])).
    + reflexivity.
    + vm_compute. reflexivity.
    + intros k [].
  - destruct (classify_email_never_raises ascii_runtime (llm_says (u "sem chaves"))
                (u "Bom dia, obrigado") 256 0 world0) as (_ & _ & H3 & _ & H5).
    destruct (H3 (Resp (PStr (u "sem chaves")))
                (snd (_retry_backoff_call
                        (create (llm_says (u "sem chaves"))
                           (classify_request (rt := ascii_runtime)
                              (u "Bom dia, obrigado") 256 0)) 3 1 world0)))
      as (_ & Hx & _); [vm_compute; reflexivity|].
    rewrite (Hx (u "sem chaves") ValueError) by (vm_compute; reflexivity).
    simpl fst. apply (f_equal (@Ok classification)). apply H5.
    intros k Hk. vm_compute in Hk.
    repeat (destruct Hk as [Hk|Hk]; [subst k; vm_compute; reflexivity|]).
    destruct Hk.
Defined.

(** C6.  In the normalization of [classify_email], a confidence that
    [float] accepts is clamped to [0.0, 1.0]: the result lies in the
    interval, equals the value when the value lies in it, is 0.0 below
    and 1.0 above, so the string "1.5" gives 1.0; a confidence that
    [float] rejects is replaced by 0.7 for [Produtivo] and 0.6 for
    [Improdutivo]. *)
Theorem confidence_normalization (rt : Runtime) (email_text : pystr)
        (kv : list (pystr * json)) (cat : pystr) :
  normalize_category (strip (py_str (dict_get kv (u "category") (JStr [])))) = Some cat ->
  let raw := dict_get kv (u "confidence") JNull in
  exists c,
    classify_parsed email_text (JObj kv) = Ok c /\ category c = cat /\
    (forall f, py_float raw = Ok f ->
       in_unit (confidence c) /\
       (in_unit f -> feq (confidence c) f) /\
       (flt f (FFin 0) = true -> confidence c = FFin 0) /\
       (flt (FFin 1) f = true -> confidence c = FFin 1)) /\
    (forall e, py_float raw = Raise e ->
       (cat = u "Produtivo" -> confidence c = FFin (7 # 10)) /\
       (cat = u "Improdutivo" -> confidence c = FFin (6 # 10))) /\
    (raw = JStr (u "1.5") -> float_of_str (u "1.5") = Ok (FFin (15 # 10)) ->
     confidence c = FFin 1).
Proof.
  intros Hc raw. simpl. rewrite Hc. eexists. split; [reflexivity|].
  split; [reflexivity|]. simpl. fold raw. unfold normalize_confidence.
  repeat split.
  - rewrite H. apply clamp_unit.
  - rewrite H. apply clamp_inside.
  - rewrite H. apply clamp_below.
  - rewrite H. apply clamp_above.
  - intros Hp. rewrite H. subst cat. reflexivity.
  - intros Hp. rewrite H. subst cat. reflexivity.
  - intros Hr Hf. rewrite Hr. simpl. rewrite Hf. apply clamp_above. reflexivity.
Qed.

Lemma confidence_normalization_witness :
  exists c,
    classify_parsed (rt := ascii_runtime) (u "Bom dia")
      (JObj [(u "category", JStr (u "Produtivo")); (u "confidence", JStr (u "1.5"))])
    = Ok c /\ confidence c = FFin 1.
Proof.
  assert (Hc : normalize_category (rt := ascii_runtime)
                 (strip (py_str (rt := ascii_runtime) (dict_get
                    [(u "category", JStr (u "Produtivo")); (u "confidence", JStr (u "1.5"))]
                    (u "category") (JStr [])))) = Some (u "Produtivo"))
    by (vm_compute; reflexivity).
  destruct (@confidence_normalization ascii_runtime (u "Bom dia") _ _ Hc)
    as (c & E & _ & _ & _ & H).
  exists c. split; [exact E|]. apply H; vm_compute; reflexivity.
Defined.

(** ** Substrings *)

Lemma contains_of_starts p t : starts_with p t = true -> contains t p = true.
Proof. intros H. destruct t; simpl; rewrite H; reflexivity. Qed.

Lemma contains_cons x t p : contains t p = true -> contains (x :: t) p = true.
Proof. intros H. simpl. rewrite H. apply orb_true_r. Qed.

Lemma starts_with_app_contains a : forall b t,
  starts_with (a ++ b) t = true -> contains t b = true.
Proof.
  induction a as [|x a IH]; intros b t H; simpl in H.
  - apply contains_of_starts. exact H.
  - destruct t as [|y t]; [discriminate|].
    apply andb_true_iff in H. destruct H as [_ H].
    apply contains_cons. apply IH. exact H.
Qed.

Lemma contains_app_r a b : forall t,
  contains t (a ++ b) = true -> contains t b = true.
Proof.
  induction t as [|x t IH]; intros H; simpl in H.
  - rewrite orb_false_r in H. apply starts_with_app_contains with (1 := H).
  - apply orb_true_iff in H. destruct H as [H|H].
    + apply starts_with_app_contains with (1 := H).
    + apply contains_cons. apply IH. exact H.
Qed.

(** C7, at the failing input.  A category that is not canonical and
    contains "improd" also contains "prod", and the test for "prod"
    comes first: the category is normalized to [Produtivo], and the
    branch for "improd" is never taken.  On the answer
    [{"category": "improdutiva", ...}] the pipeline returns
    [Produtivo]. *)
Theorem improd_category_becomes_produtivo :
  (forall (rt : Runtime) (s : pystr),
      str_capitalize s <> u "Produtivo" ->
      str_capitalize s <> u "Improdutivo" ->
      contains (str_lower (str_capitalize s)) (u "improd") = true ->
      normalize_category s = Some (u "Produtivo"))
  /\
  fst (classify_email (rt := ascii_runtime)
         (llm_says (js "{'category': 'improdutiva', 'confidence': 0.9, 'summary': 'propaganda'}"))
         (u "Oferta imperdivel, compre ja") 256 0 world0)
  = Ok (mkClassification (u "Produtivo") (FFin (9 # 10)) (u "propaganda")).
Proof.
  split.
  - intros rt s HP HI Hc. unfold normalize_category.
    apply str_eqb_neq in HP. apply str_eqb_neq in HI.
    unfold Produtivo, Improdutivo. rewrite HP, HI. simpl.
    rewrite (contains_app_r (u "im") (u "prod") _ Hc). reflexivity.
  - vm_compute. reflexivity.
Qed.

Lemma improd_category_becomes_produtivo_witness :
  normalize_category (rt := ascii_runtime) (u "improdutiva") = Some (u "Produtivo").
Proof.
  destruct improd_category_becomes_produtivo as [H _].
  apply H; vm_compute; (discriminate || reflexivity).
Defined.

(** ** The response pipeline *)

Lemma Q01 : (0 <= 1)%Q.
Proof. unfold Qle; simpl; lia. Qed.

Section RetryCreate.
Variable llm : nat -> request -> result response.
Variable req : request.
Variable base : Q.
Hypothesis base_nonneg : (0 <= base)%Q.

(** One attempt of [create] by hand. *)
Lemma create_step w :
  create llm req w
  = (llm (ncalls w) req, mkWorld (S (ncalls w)) (trace w ++ [ECall req])).
Proof. reflexivity. Qed.

(** The retried call with a budget of three, outcome by outcome. *)
Lemma retry_create_3 w :
  let c := ncalls w in
  _retry_backoff_call (create llm req) 3 base w =
  match llm c req with
  | Ok r => (Ok r, mkWorld (S c) (trace w ++ [ECall req]))
  | Raise _ =>
      match llm (S c) req with
      | Ok r => (Ok r, mkWorld (S (S c))
                         (trace w ++ [ECall req; ESleep (base * pow2 0); ECall req]))
      | Raise _ =>
          match llm (S (S c)) req with
          | Ok r => (Ok r, mkWorld (S (S (S c)))
                             (trace w ++ [ECall req; ESleep (base * pow2 0);
                                          ECall req; ESleep (base * pow2 1);
                                          ECall req]))
          | Raise e => (Raise e, mkWorld (S (S (S c)))
                                   (trace w ++ [ECall req; ESleep (base * pow2 0);
                                                ECall req; ESleep (base * pow2 1);
                                                ECall req; ESleep (base * pow2 2)]))
          end
      end
  end.
Proof.
  intros c. unfold _retry_backoff_call. change (Z.to_nat 3) with 3%nat.
  cbn [retry_loop]. unfold try_except, bind, raise.
  rewrite create_step. fold c. destruct (llm c req); [reflexivity|].
  rewrite sleep_backoff_ok by exact base_nonneg. unfold slept; cbn [ncalls trace].
  rewrite create_step; cbn [ncalls trace]. rewrite <- !app_assoc; cbn [app].
  destruct (llm (S c) req); [reflexivity|].
  rewrite sleep_backoff_ok by exact base_nonneg. unfold slept; cbn [ncalls trace].
  rewrite create_step; cbn [ncalls trace]. rewrite <- !app_assoc; cbn [app].
  destruct (llm (S (S c)) req); [reflexivity|].
  rewrite sleep_backoff_ok by exact base_nonneg. unfold slept; cbn [ncalls trace].
  rewrite <- !app_assoc; cbn [app]. reflexivity.
Qed.

End RetryCreate.

Lemma is_improdutivo_true category :
  is_improdutivo category = true <-> category = PStr (u "Improdutivo").
Proof.
  destruct category; simpl; split; try discriminate; intros H.
  - apply str_eqb_eq in H. subst. reflexivity.
  - inversion H. apply str_eqb_refl.
Qed.

Lemma is_improdutivo_false category :
  is_improdutivo category = false <-> category <> PStr (u "Improdutivo").
Proof.
  split.
  - intros H E. apply is_improdutivo_true in E. congruence.
  - intros H. destruct (is_improdutivo category) eqn:E; [|reflexivity].
    apply is_improdutivo_true in E. contradiction.
Qed.

Lemma templates_long :
  30 <= len TEMPLATE_Improdutivo /\ 30 <= len TEMPLATE_Produtivo.
Proof. split; vm_compute; discriminate. Qed.

Lemma len_pos_nonempty (r : pystr) : 30 <= len r -> r <> [].
Proof. intros H E. subst r. vm_compute in H. apply H. reflexivity. Qed.

(** C3, as the code has it.  [generate_response] always returns, and the
    text it returns is not empty.  For the category [Improdutivo] the
    text is the static Improdutivo template or a reply of the model of
    at least 30 characters: a shorter reply is rejected and the template
    returned.  For every other category the text is the static Produtivo
    template or a non-empty reply of the model, of any length: an empty
    reply is rejected and the template returned. *)
Theorem generate_response_total (rt : Runtime)
        (llm : nat -> request -> result response)
        (email_text category : pyobj) (summary : option pystr)
        (max_tokens : Z) (w : world) :
  exists r w',
    generate_response llm email_text category summary max_tokens w = (Ok r, w') /\
    r <> [] /\
    (category = PStr (u "Improdutivo") ->
     let call := _retry_backoff_call
                   (create llm (improdutivo_request email_text max_tokens)) 2 (8 # 10) in
     30 <= len r /\
     (r = TEMPLATE_Improdutivo \/
      exists resp w1, call w = (Ok resp, w1) /\ content_strip resp = Ok r) /\
     (forall resp w1 reply,
         call w = (Ok resp, w1) -> content_strip resp = Ok reply ->
         len reply < 30 -> r = TEMPLATE_Improdutivo)) /\
    (category <> PStr (u "Improdutivo") ->
     let call := _retry_backoff_call
                   (create llm (produtivo_request email_text summary max_tokens)) 3 1 in
     (r = TEMPLATE_Produtivo \/
      exists resp w1, call w = (Ok resp, w1) /\ content_strip resp = Ok r) /\
     (forall resp w1,
         call w = (Ok resp, w1) -> content_strip resp = Ok [] ->
         r = TEMPLATE_Produtivo)).
Proof.
  unfold generate_response.
  destruct (is_improdutivo category) eqn:Hc.
  - apply is_improdutivo_true in Hc.
    assert (Hn : ~ category <> PStr (u "Improdutivo")) by (intros H; auto).
    unfold try_except, bind, lift, ret, raise.
    destruct (_retry_backoff_call _ 2 _ w) as [[resp|e] w1] eqn:Er.
    + destruct (content_strip resp) as [reply|e] eqn:Ec.
      * destruct (len reply <? 30) eqn:El.
        -- exists TEMPLATE_Improdutivo, w1. split; [reflexivity|]. split.
           ++ apply len_pos_nonempty, templates_long.
           ++ split; [|intros H; contradiction]. intros _.
              split; [apply templates_long|]. split; [left; reflexivity|].
              intros; reflexivity.
        -- apply Z.ltb_ge in El.
           exists reply, w1. split; [reflexivity|]. split.
           ++ apply len_pos_nonempty. exact El.
           ++ split; [|intros H; contradiction]. intros _.
              split; [exact El|]. split.
              ** right. exists resp, w1. split; [reflexivity | exact Ec].
              ** intros resp' w1' reply' E1 E2 Hl. inversion E1; subst.
                 rewrite Ec in E2. inversion E2; subst. lia.
      * exists TEMPLATE_Improdutivo, w1. split; [reflexivity|]. split.
        -- apply len_pos_nonempty, templates_long.
        -- split; [|intros H; contradiction]. intros _.
           split; [apply templates_long|]. split; [left; reflexivity|].
           intros; reflexivity.
    + exists TEMPLATE_Improdutivo, w1. split; [reflexivity|]. split.
      * apply len_pos_nonempty, templates_long.
      * split; [|intros H; contradiction]. intros _.
        split; [apply templates_long|]. split; [left; reflexivity|].
        intros; reflexivity.
  - apply is_improdutivo_false in Hc.
    unfold try_except, bind, lift, ret, raise.
    destruct (_retry_backoff_call _ 3 _ w) as [[resp|e] w1] eqn:Er.
    + destruct (content_strip resp) as [reply|e] eqn:Ec.
      * destruct (str_eqb reply []) eqn:El.
        -- exists TEMPLATE_Produtivo, w1. split; [reflexivity|]. split.
           ++ apply len_pos_nonempty, templates_long.
           ++ split; [intros H; contradiction|]. intros _.
              split; [left; reflexivity|]. intros; reflexivity.
        -- apply str_eqb_neq in El.
           exists reply, w1. split; [reflexivity|]. split; [exact El|].
           split; [intros H; contradiction|]. intros _. split.
           ++ right. exists resp, w1. split; [reflexivity | exact Ec].
           ++ intros resp' w1' E1 E2. inversion E1; subst.
              rewrite Ec in E2. inversion E2; subst. contradiction.
      * exists TEMPLATE_Produtivo, w1. split; [reflexivity|]. split.
        -- apply len_pos_nonempty, templates_long.
        -- split; [intros H; contradiction|]. intros _.
           split; [left; reflexivity|]. intros; reflexivity.
    + exists TEMPLATE_Produtivo, w1. split; [reflexivity|]. split.
      * apply len_pos_nonempty, templates_long.
      * split; [intros H; contradiction|]. intros _.
        split; [left; reflexivity|]. intros; reflexivity.
Qed.

(** C3 as stated fails: for the category [Produtivo] the model's reply
    "Ok." is returned, a text of three characters that is neither
    template. *)
Lemma generate_response_short_reply :
  exists r,
    fst (generate_response (rt := ascii_runtime) (llm_says (u "Ok."))
           (PStr (u "Preciso de ajuda com o boleto")) (PStr (u "Produtivo"))
           None 512 world0) = Ok r /\
    r <> TEMPLATE_Produtivo /\ r <> TEMPLATE_Improdutivo /\ len r < 30.
Proof.
  exists (u "Ok."). split; [vm_compute; reflexivity|].
  repeat split; vm_compute; discriminate || reflexivity.
Qed.

Lemma generate_response_total_witness :
  fst (generate_response (rt := ascii_runtime) (llm_says (u "Obrigado."))
         (PStr (u "Bom dia")) (PStr (u "Improdutivo")) None 512 world0)
  = Ok TEMPLATE_Improdutivo.
Proof.
  destruct (generate_response_total ascii_runtime (llm_says (u "Obrigado."))
              (PStr (u "Bom dia")) (PStr (u "Improdutivo")) None 512 world0)
    as (r & w' & E & _ & H & _).
  rewrite E. simpl fst. apply (f_equal (@Ok pystr)).
  destruct (H eq_refl) as (_ & _ & Hshort).
  apply (Hshort (Resp (PStr (u "Obrigado.")))
           (snd (_retry_backoff_call
                   (create (llm_says (u "Obrigado."))
                      (improdutivo_request (rt := ascii_runtime) (PStr (u "Bom dia")) 512))
                   2 (8 # 10) world0))
           (u "Obrigado.")).
  - vm_compute. reflexivity.
  - vm_compute. reflexivity.
  - vm_compute. reflexivity.
Defined.

Ltac allowed_events :=
  repeat (apply Forall_cons;
          [first [left; reflexivity
                 | right; eexists; (split; [|reflexivity]); lia]|]);
  apply Forall_nil.

(** C10.  With a category that is not the exact string "Improdutivo",
    whether "improdutivo" in lower case, another string or no string at
    all, [generate_response] does what it does for "Produtivo": every
    call it makes sends the productive prompt, it makes at most three
    calls and sleeps 1.0 * 2^i after the failed attempt i, and whenever
    it does not return a reply of the model it returns the static
    Produtivo template. *)
Theorem generate_response_other_category (rt : Runtime)
        (llm : nat -> request -> result response)
        (email_text category : pyobj) (summary : option pystr)
        (max_tokens : Z) (w : world) :
  category <> PStr (u "Improdutivo") ->
  let req := produtivo_request email_text summary max_tokens in
  let c := ncalls w in
  let out := generate_response llm email_text category summary max_tokens w in
  out = generate_response llm email_text (PStr (u "Produtivo")) summary max_tokens w
  /\
  (exists r n evs,
      out = (Ok r, mkWorld (c + n) (trace w ++ evs)) /\ (1 <= n <= 3)%nat /\
      Forall (fun ev => ev = ECall req \/
                        exists i, (i < 3)%nat /\ ev = ESleep (1 * pow2 i)) evs /\
      (r = TEMPLATE_Produtivo \/
       exists i s, (i < 3)%nat /\ llm (c + i)%nat req = Ok (Resp (PStr s)) /\
                   r = strip s /\ r <> []))
  /\
  ((forall i, (i < 3)%nat -> exists e, llm (c + i)%nat req = Raise e) ->
   out = (Ok TEMPLATE_Produtivo,
          mkWorld (c + 3)
            (trace w ++ [ECall req; ESleep 1; ECall req; ESleep 2;
                         ECall req; ESleep 4]))).
Proof.
  intros Hc req c out.
  assert (Hout : out =
            match _retry_backoff_call (create llm req) 3 1 w with
            | (Ok resp, w1) => (Ok (reply_or TEMPLATE_Produtivo resp), w1)
            | (Raise _, w1) => (Ok TEMPLATE_Produtivo, w1)
            end).
  { unfold out, generate_response.
    apply is_improdutivo_false in Hc. rewrite Hc.
    unfold try_except, bind, lift, ret, raise, reply_or. fold req.
    destruct (_retry_backoff_call (create llm req) 3 1 w) as [[resp|e] w1];
      [|reflexivity].
    destruct (content_strip resp) as [reply|e]; [|reflexivity].
    destruct (str_eqb reply []); reflexivity. }
  assert (Hfin : forall r i,
             (i < 3)%nat -> llm (c + i)%nat req = Ok r ->
             reply_or TEMPLATE_Produtivo r = TEMPLATE_Produtivo \/
             exists i s, (i < 3)%nat /\ llm (c + i)%nat req = Ok (Resp (PStr s)) /\
                         reply_or TEMPLATE_Produtivo r = strip s /\
                         reply_or TEMPLATE_Produtivo r <> []).
  { intros r i Hi Hl. unfold reply_or.
    destruct r as [[s| | |]|e]; simpl; auto.
    destruct (str_eqb (strip s) []) eqn:Es; auto.
    right. exists i, s. repeat split; auto. apply str_eqb_neq. exact Es. }
  split; [|split].
  - rewrite Hout. unfold generate_response.
    replace (is_improdutivo (PStr (u "Produtivo"))) with false
      by (vm_compute; reflexivity).
    unfold try_except, bind, lift, ret, raise, reply_or. fold req.
    destruct (_retry_backoff_call (create llm req) 3 1 w) as [[resp|e] w1];
      [|reflexivity].
    destruct (content_strip resp) as [reply|e]; [|reflexivity].
    destruct (str_eqb reply []); reflexivity.
  - rewrite Hout. rewrite (retry_create_3 llm req Q01 w). cbv zeta. fold c.
    destruct (llm c req) as [r|e0] eqn:E0.
    + exists (reply_or TEMPLATE_Produtivo r), 1%nat, [ECall req].
      replace (c + 1)%nat with (S c) by lia.
      split; [reflexivity|]. split; [lia|]. split; [allowed_events|].
      apply (Hfin r 0%nat); [lia|]. rewrite Nat.add_0_r. exact E0.
    + destruct (llm (S c) req) as [r|e1] eqn:E1.
      * exists (reply_or TEMPLATE_Produtivo r), 2%nat,
               [ECall req; ESleep (1 * pow2 0); ECall req].
        replace (c + 2)%nat with (S (S c)) by lia.
        split; [reflexivity|]. split; [lia|]. split; [allowed_events|].
        apply (Hfin r 1%nat); [lia|].
        replace (c + 1)%nat with (S c) by lia. exact E1.
      * destruct (llm (S (S c)) req) as [r|e2] eqn:E2.
        -- exists (reply_or TEMPLATE_Produtivo r), 3%nat,
                  [ECall req; ESleep (1 * pow2 0); ECall req;
                   ESleep (1 * pow2 1); ECall req].
           replace (c + 3)%nat with (S (S (S c))) by lia.
           split; [reflexivity|]. split; [lia|]. split; [allowed_events|].
           apply (Hfin r 2%nat); [lia|].
           replace (c + 2)%nat with (S (S c)) by lia. exact E2.
        -- exists TEMPLATE_Produtivo, 3%nat,
                  [ECall req; ESleep (1 * pow2 0); ECall req;
                   ESleep (1 * pow2 1); ECall req; ESleep (1 * pow2 2)].
           replace (c + 3)%nat with (S (S (S c))) by lia.
           split; [reflexivity|]. split; [lia|]. split; [allowed_events|].
           left. reflexivity.
  - intros Hfail. rewrite Hout. rewrite (retry_create_3 llm req Q01 w).
    cbv zeta. fold c.
    destruct (Hfail 0%nat) as [e0 E0]; [lia|]. rewrite Nat.add_0_r in E0.
    destruct (Hfail 1%nat) as [e1 E1]; [lia|].
    replace (c + 1)%nat with (S c) in E1 by lia.
    destruct (Hfail 2%nat) as [e2 E2]; [lia|].
    replace (c + 2)%nat with (S (S c)) in E2 by lia.
    rewrite E0, E1, E2. replace (c + 3)%nat with (S (S (S c))) by lia.
    reflexivity.
Qed.

Lemma generate_response_other_category_witness :
  let req := produtivo_request (rt := ascii_runtime)
               (PStr (u "Bom dia")) (Some (u "saudacao")) 512 in
  generate_response (rt := ascii_runtime) llm_down
    (PStr (u "Bom dia")) (PStr (u "improdutivo")) (Some (u "saudacao")) 512 world0
  = (Ok TEMPLATE_Produtivo,
     mkWorld 3 [ECall req; ESleep 1; ECall req; ESleep 2; ECall req; ESleep 4]).
Proof.
  intros req.
  assert (Hc : PStr (u "improdutivo") <> PStr (u "Improdutivo"))
    by (vm_compute; discriminate).
  destruct (generate_response_other_category ascii_runtime llm_down
              (PStr (u "Bom dia")) (Some (u "saudacao")) 512 world0 Hc)
    as (_ & _ & H).
  apply H. intros i _. exists (ApiError 503). reflexivity.
Defined.

(** ** Finding the braces *)

Lemma find_from_spec c s : forall i,
  (~ In c s /\ find_from i c s = -1) \/
  (exists pre rest, s = pre ++ c :: rest /\ ~ In c pre /\
                    find_from i c s = i + len pre).
Proof.
  induction s as [|x s IH]; intros i; simpl.
  - left. split; [tauto | reflexivity].
  - destruct (x =? c) eqn:E.
    + apply Z.eqb_eq in E. subst x. right. exists [], s.
      split; [reflexivity|]. split; [tauto|]. unfold len. simpl. lia.
    + apply Z.eqb_neq in E. destruct (IH (i + 1)) as [[Hn Hf] | (pre & rest & Hs & Hn & Hf)].
      * left. split; [intros [H|H]; auto | exact Hf].
      * right. exists (x :: pre), rest. split; [rewrite Hs; reflexivity|].
        split; [intros [H|H]; auto|]. rewrite Hf. unfold len. simpl List.length. lia.
Qed.

Lemma rfind_from_spec c s : forall i best,
  (~ In c s /\ rfind_from i best c s = best) \/
  (exists pre post, s = pre ++ c :: post /\ ~ In c post /\
                    rfind_from i best c s = i + len pre).
Proof.
  induction s as [|x s IH]; intros i best; simpl.
  - left. split; [tauto | reflexivity].
  - destruct (IH (i + 1) (if x =? c then i else best))
      as [[Hn Hf] | (pre & post & Hs & Hn & Hf)].
    + destruct (x =? c) eqn:E.
      * apply Z.eqb_eq in E. subst x. right. exists [], s.
        split; [reflexivity|]. split; [exact Hn|]. rewrite Hf. unfold len. simpl. lia.
      * apply Z.eqb_neq in E. left. split; [intros [H|H]; auto | exact Hf].
    + right. exists (x :: pre), post. split; [rewrite Hs; reflexivity|].
      split; [exact Hn|]. rewrite Hf. unfold len. simpl List.length. lia.
Qed.

Lemma len_nonneg (s : pystr) : 0 <= len s.
Proof. unfold len. lia. Qed.

Lemma len_app (a b : pystr) : len (a ++ b) = len a + len b.
Proof. unfold len. rewrite length_app. lia. Qed.

(** Two ways of cutting one text: the earlier cut point lies inside the
    prefix of the later one. *)
Lemma cut_twice (A : Type) (p1 : list A) : forall p2 a b r1 r2,
  p1 ++ a :: r1 = p2 ++ b :: r2 ->
  (List.length p1 < List.length p2)%nat ->
  exists mid, p2 = p1 ++ a :: mid /\ r1 = mid ++ b :: r2.
Proof.
  induction p1 as [|x p1 IH]; intros p2 a b r1 r2 E L.
  - destruct p2 as [|y p2]; [simpl in L; lia|].
    simpl in E. inversion E; subst. exists p2. split; reflexivity.
  - destruct p2 as [|y p2]; [simpl in L; lia|].
    simpl in E. inversion E; subst.
    destruct (IH p2 a b r1 r2 H1) as (mid & E1 & E2); [simpl in L; lia|].
    exists mid. split; [rewrite E1; reflexivity | exact E2].
Qed.

Lemma cut_same (A : Type) (p1 : list A) : forall p2 a b r1 r2,
  p1 ++ a :: r1 = p2 ++ b :: r2 ->
  List.length p1 = List.length p2 -> a = b.
Proof.
  induction p1 as [|x p1 IH]; intros p2 a b r1 r2 E L;
    destruct p2 as [|y p2]; try discriminate; simpl in E; inversion E; subst.
  - reflexivity.
  - apply (IH p2 a b r1 r2 H1). simpl in L. lia.
Qed.

Lemma slice_span (pre mid post : pystr) :
  slice (len pre) (len pre + len mid) (pre ++ mid ++ post) = mid.
Proof.
  unfold slice, len. rewrite Nat2Z.id.
  replace (Z.to_nat (Z.of_nat (List.length pre) + Z.of_nat (List.length mid)
                     - Z.of_nat (List.length pre))) with (List.length mid) by lia.
  rewrite skipn_app, skipn_all, Nat.sub_diag. simpl.
  rewrite firstn_app, firstn_all, Nat.sub_diag. simpl. apply app_nil_r.
Qed.

Section ExtractFacts.
Context {rt : Runtime}.

Lemma extract_span pre mid post :
  ~ In 123 pre -> ~ In 125 post ->
  _extract_json_from_text (PStr (pre ++ [123] ++ mid ++ [125] ++ post))
  = loads_with_cleanup ([123] ++ mid ++ [125]).
Proof.
  intros Hpre Hpost. unfold _extract_json_from_text.
  set (s := pre ++ [123] ++ mid ++ [125] ++ post).
  assert (Hne : str_eqb s [] = false).
  { apply str_eqb_neq. unfold s. destruct pre; discriminate. }
  rewrite Hne.
  assert (Hfirst : find 123 s = len pre).
  { unfold find. destruct (find_from_spec 123 s 0)
      as [[Hn _] | (p & r & Hs & Hn & Hf)].
    - exfalso. apply Hn. unfold s. apply in_or_app. right. left. reflexivity.
    - rewrite Hf. cut (List.length p = List.length pre); [unfold len; lia|].
      destruct (Nat.lt_trichotomy (List.length p) (List.length pre)) as [L|[L|L]].
      + unfold s in Hs. simpl in Hs. symmetry in Hs.
        destruct (@cut_twice _ _ _ _ _ _ _ Hs L) as (m & E & _).
        exfalso. apply Hpre. rewrite E. apply in_or_app. right. left. reflexivity.
      + exact L.
      + unfold s in Hs. simpl in Hs.
        destruct (@cut_twice _ _ _ _ _ _ _ Hs L) as (m & E & _).
        exfalso. apply Hn. rewrite E. apply in_or_app. right. left. reflexivity. }
  assert (Hlast : rfind 125 s = len (pre ++ [123] ++ mid)).
  { unfold rfind.
    assert (Hs' : s = (pre ++ [123] ++ mid) ++ 125 :: post)
      by (unfold s; rewrite <- !app_assoc; reflexivity).
    destruct (rfind_from_spec 125 s 0 (-1))
      as [[Hn _] | (p & r & Hs & Hn & Hf)].
    - exfalso. apply Hn. rewrite Hs'. apply in_or_app. right. left. reflexivity.
    - rewrite Hf.
      cut (List.length p = List.length (pre ++ [123] ++ mid)); [unfold len; lia|].
      destruct (Nat.lt_trichotomy (List.length p) (List.length (pre ++ [123] ++ mid)))
        as [L|[L|L]].
      + rewrite Hs' in Hs. symmetry in Hs.
        destruct (@cut_twice _ _ _ _ _ _ _ Hs L) as (m & _ & E).
        exfalso. apply Hn. rewrite E. apply in_or_app. right. left. reflexivity.
      + exact L.
      + rewrite Hs' in Hs.
        destruct (@cut_twice _ _ _ _ _ _ _ Hs L) as (m & _ & E).
        exfalso. apply Hpost. rewrite E. apply in_or_app. right. left. reflexivity. }
  rewrite Hfirst, Hlast.
  pose proof (len_nonneg pre) as H0. pose proof (len_nonneg mid) as H1.
  rewrite !len_app. change (len [123]) with 1.
  replace (len pre =? -1) with false by (symmetry; apply Z.eqb_neq; lia).
  replace (len pre + (1 + len mid) =? -1) with false
    by (symmetry; apply Z.eqb_neq; lia).
  replace (len pre + (1 + len mid) <? len pre) with false
    by (symmetry; apply Z.ltb_ge; lia).
  simpl orb. cbv iota.
  replace (len pre + (1 + len mid) + 1)
    with (len pre + len ([123] ++ mid ++ [125]))
    by (rewrite !len_app; change (len [123]) with 1; change (len [125]) with 1; lia).
  unfold s.
  replace (pre ++ [123] ++ mid ++ [125] ++ post)
    with (pre ++ ([123] ++ mid ++ [125]) ++ post)
    by (rewrite <- !app_assoc; reflexivity).
  rewrite slice_span. reflexivity.
Qed.

Lemma extract_no_pair s :
  ~ (exists pre mid post, s = pre ++ [123] ++ mid ++ [125] ++ post) ->
  _extract_json_from_text (PStr s) = Raise ValueError.
Proof.
  intros Hno. unfold _extract_json_from_text.
  destruct (str_eqb s []); [reflexivity|].
  unfold find, rfind.
  destruct (find_from_spec 123 s 0) as [[_ Hf] | (p1 & r1 & Hs1 & _ & Hf)];
    rewrite Hf; [reflexivity|].
  destruct (rfind_from_spec 125 s 0 (-1)) as [[_ Hl] | (p2 & r2 & Hs2 & _ & Hl)];
    rewrite Hl; [rewrite orb_true_r; reflexivity|].
  simpl. destruct (len p2 <? len p1) eqn:L; [rewrite !orb_true_r; reflexivity|].
  exfalso. apply Z.ltb_ge in L. unfold len in L.
  assert (Hlt : (List.length p1 < List.length p2)%nat).
  { destruct (Nat.eq_dec (List.length p1) (List.length p2)) as [E|E]; [|lia].
    exfalso. rewrite Hs1 in Hs2.
    pose proof (@cut_same _ _ _ _ _ _ _ Hs2 E) as F. discriminate. }
  rewrite Hs1 in Hs2.
  destruct (@cut_twice _ _ _ _ _ _ _ Hs2 Hlt) as (mid & _ & E).
  apply Hno. exists p1, mid, r2. rewrite Hs1, E. reflexivity.
Qed.

End ExtractFacts.

(** C4.  [_extract_json_from_text] takes the text from the first [{] to
    the last [}], both included, and parses it; when the parse fails it
    parses the cleaned candidate, once, and that result, a failure
    included, is the result.  The clean-up turns single quotes into
    double quotes and drops a comma (with the white space after it)
    before [}] or []].  So ['prefix {"a":1,} suffix'] yields [{a: 1}],
    and a text that is no string, is empty or has no [{] followed later
    by a [}] is a [ValueError]. *)
Theorem extract_json_spec (rt : Runtime) :
  (forall pre mid post,
      ~ In 123 pre -> ~ In 125 post ->
      _extract_json_from_text (PStr (pre ++ [123] ++ mid ++ [125] ++ post))
      = loads_with_cleanup ([123] ++ mid ++ [125]))
  /\ (forall cand v, json_loads cand = Ok v -> loads_with_cleanup cand = Ok v)
  /\ (forall cand e, json_loads cand = Raise e ->
                     loads_with_cleanup cand = json_loads (json_cleaned cand))
  /\ json_cleaned (js "{'a':1,}") = js "{'a':1}"
  /\ json_cleaned (u "{'a': [1, 2 , ],  }") = js "{'a': [1, 2 ]}"
  /\ (forall e v,
         json_loads (js "{'a':1,}") = Raise e ->
         json_loads (js "{'a':1}") = Ok v ->
         _extract_json_from_text (PStr (js "prefix {'a':1,} suffix")) = Ok v)
  /\ (forall text,
         is_str text = false \/ text = PStr [] \/
         (exists s, text = PStr s /\
                    ~ exists pre mid post, s = pre ++ [123] ++ mid ++ [125] ++ post) ->
         _extract_json_from_text text = Raise ValueError)
  /\ _extract_json_from_text (PStr (u "no braces here")) = Raise ValueError.
Proof.
  split; [exact extract_span|].
  split; [intros cand v H; unfold loads_with_cleanup; rewrite H; reflexivity|].
  split; [intros cand e H; unfold loads_with_cleanup; rewrite H; reflexivity|].
  split; [vm_compute; reflexivity|].
  split; [vm_compute; reflexivity|].
  split.
  - intros e v He Hv.
    change (js "prefix {'a':1,} suffix")
      with (u "prefix " ++ [123] ++ js "'a':1," ++ [125] ++ u " suffix").
    rewrite extract_span.
    + change ([123] ++ js "'a':1," ++ [125]) with (js "{'a':1,}").
      unfold loads_with_cleanup. rewrite He.
      replace (json_cleaned (js "{'a':1,}")) with (js "{'a':1}")
        by (vm_compute; reflexivity).
      exact Hv.
    + vm_compute. intuition discriminate.
    + vm_compute. intuition discriminate.
  - split.
    + intros text [H | [H | (s & Hs & Hno)]].
      * destruct text; try reflexivity. discriminate.
      * subst text. reflexivity.
      * subst text. apply extract_no_pair. exact Hno.
    + reflexivity.
Qed.

Lemma extract_json_spec_witness :
  _extract_json_from_text (rt := ascii_runtime) (PStr (js "prefix {'a':1,} suffix"))
  = Ok (JObj [(u "a", JInt 1)])
  /\
  _extract_json_from_text (rt := ascii_runtime) (PStr (u "resposta sem chaves }"))
  = Raise ValueError.
Proof.
  destruct (extract_json_spec ascii_runtime)
    as (_ & _ & _ & _ & _ & Hex & Hfail & _).
  split.
  - apply (Hex JSONDecodeError); vm_compute; reflexivity.
  - apply Hfail. right. right. exists (u "resposta sem chaves }").
    split; [reflexivity|]. intros (pre & mid & post & E).
    assert (H : In 123 (u "resposta sem chaves }"))
      by (rewrite E; apply in_or_app; right; left; reflexivity).
    vm_compute in H. intuition discriminate.
Defined.

(** ** The keyword extractor *)

Lemma mem_In w l : mem w l = true <-> In w l.
Proof.
  unfold mem. rewrite existsb_exists. split.
  - intros (x & Hx & E). apply str_eqb_eq in E. subst. exact Hx.
  - intros H. exists w. split; [exact H | apply str_eqb_refl].
Qed.

Lemma mem_not_In w l : mem w l = false <-> ~ In w l.
Proof.
  split.
  - intros H Hin. apply mem_In in Hin. congruence.
  - intros H. destruct (mem w l) eqn:E; [|reflexivity].
    apply mem_In in E. contradiction.
Qed.

Lemma first_seen_In seen l w :
  In w (first_seen seen l) -> In w l /\ ~ In w seen.
Proof.
  revert seen. induction l as [|x l IH]; intros seen H; simpl in H; [tauto|].
  destruct (mem x seen) eqn:E.
  - destruct (IH _ H). split; [right|]; assumption.
  - destruct H as [H|H].
    + subst x. split; [left; reflexivity | apply mem_not_In; exact E].
    + destruct (IH _ H) as [H1 H2]. split; [right; exact H1|].
      intros Hin. apply H2. right. exact Hin.
Qed.

Lemma first_seen_NoDup l : forall seen, NoDup (first_seen seen l).
Proof.
  induction l as [|x l IH]; intros seen; simpl; [constructor|].
  destruct (mem x seen); [apply IH|]. constructor; [|apply IH].
  intros H. apply first_seen_In in H. destruct H as [_ H]. apply H. left. reflexivity.
Qed.

(** The loop, while [out] is still shorter than [top_k]. *)
Lemma kw_loop_spec top_k ws : forall seen out,
  Z.of_nat (List.length out) < top_k ->
  kw_loop top_k seen out ws
  = out ++ firstn (Z.to_nat (top_k - Z.of_nat (List.length out))) (first_seen seen ws).
Proof.
  induction ws as [|w ws IH]; intros seen out Hlt; simpl.
  - rewrite firstn_nil, app_nil_r. reflexivity.
  - destruct (mem w seen) eqn:E; simpl.
    + destruct (Z.of_nat (List.length out) >=? top_k) eqn:G; [lia|].
      apply IH. exact Hlt.
    + rewrite length_app. simpl List.length.
      destruct (Z.to_nat (top_k - Z.of_nat (List.length out))) as [|k] eqn:K; [lia|].
      simpl firstn.
      destruct (Z.of_nat (List.length out + 1) >=? top_k) eqn:G.
      * apply Z.geb_le in G. replace k with 0%nat by lia. reflexivity.
      * rewrite Z.geb_leb in G. apply Z.leb_gt in G.
        rewrite IH by (rewrite length_app; simpl List.length; lia).
        rewrite length_app. simpl List.length. rewrite <- app_assoc. simpl.
        do 3 f_equal. lia.
Qed.

Lemma extract_keywords_first_seen {rt : Runtime} text top_k :
  extract_keywords text top_k
  = firstn (Z.to_nat (Z.max 1 top_k)) (first_seen [] (kw_keywords text)).
Proof.
  unfold extract_keywords. destruct (Z_lt_le_dec 0 top_k) as [L|L].
  - rewrite kw_loop_spec by (simpl; lia). simpl. do 2 f_equal. lia.
  - replace (Z.to_nat (Z.max 1 top_k)) with 1%nat by lia.
    destruct (kw_keywords text) as [|w ws]; [reflexivity|]. simpl.
    destruct (1 >=? top_k) eqn:G; [reflexivity | lia].
Qed.

Lemma match_len_cls p prev c s :
  match_len (Cls p) prev (c :: s) = if p c then Some 1%nat else None.
Proof.
  unfold match_len, match_here. cbn [run]. destruct (p c); [|reflexivity].
  f_equal. cbn [List.length]. lia.
Qed.

(** [re.sub] with a one-character class replaces character by character. *)
Lemma sub_cls p rep s :
  sub (Cls p) rep s = flat_map (fun c => if p c then rep else [c]) s.
Proof.
  unfold sub. generalize (@None Z) as prev.
  induction s as [|c s IH]; intros prev; [reflexivity|].
  cbn [sub_aux flat_map]. rewrite match_len_cls.
  destruct (p c); rewrite IH; reflexivity.
Qed.

Lemma split_aux_chars s : forall cur w,
  Forall (fun c => is_space c = false) cur ->
  In w (split_aux cur s) ->
  w <> [] /\ forall c, In c w -> (In c cur \/ In c s) /\ is_space c = false.
Proof.
  induction s as [|x s IH]; intros cur w Hcur H; simpl in H.
  - destruct cur as [|y cur]; [destruct H|].
    destruct H as [H|[]]. subst w. split.
    + intros E. apply (f_equal (@List.length Z)) in E.
      rewrite length_rev in E. discriminate.
    + intros c Hc. apply in_rev in Hc. split; [left; exact Hc|].
      rewrite Forall_forall in Hcur. apply Hcur. exact Hc.
  - destruct (is_space x) eqn:E.
    + destruct cur as [|y cur].
      * destruct (IH [] w (Forall_nil _) H) as [H1 H2]. split; [exact H1|].
        intros c Hc. destruct (H2 c Hc) as [[[]|H3] H4].
        split; [right; right; exact H3 | exact H4].
      * destruct H as [H|H].
        -- subst w. split.
           ++ intros E'. apply (f_equal (@List.length Z)) in E'.
              rewrite length_rev in E'. discriminate.
           ++ intros c Hc. apply in_rev in Hc. split; [left; exact Hc|].
              rewrite Forall_forall in Hcur. apply Hcur. exact Hc.
        -- destruct (IH [] w (Forall_nil _) H) as [H1 H2]. split; [exact H1|].
           intros c Hc. destruct (H2 c Hc) as [[[]|H3] H4].
           split; [right; right; exact H3 | exact H4].
    + destruct (IH (x :: cur) w (Forall_cons _ E Hcur) H) as [H1 H2].
      split; [exact H1|]. intros c Hc. destruct (H2 c Hc) as [[[H3|H3]|H3] H4].
      * subst c. split; [right; left; reflexivity | exact H4].
      * split; [left; exact H3 | exact H4].
      * split; [right; right; exact H3 | exact H4].
Qed.

Lemma kw_class_letter c :
  kw_class c = true -> is_space c = false -> kw_letter c = true.
Proof.
  unfold kw_class, kw_letter. intros H Hs.
  apply orb_true_iff in H. destruct H as [H|H]; [exact H|].
  apply Z.eqb_eq in H. subst c. discriminate.
Qed.

Lemma kw_words_letters {rt : Runtime} text w :
  In w (kw_words text) -> Forall (fun c => kw_letter c = true) w.
Proof.
  unfold kw_words, split. intros H.
  destruct (@split_aux_chars _ [] w (Forall_nil _) H) as [_ Hc].
  apply Forall_forall. intros c Hin. destruct (Hc c Hin) as [[[]|H1] H2].
  apply kw_class_letter; [|exact H2].
  rewrite sub_cls in H1. apply in_flat_map in H1. destruct H1 as (x & _ & Hx).
  destruct (kw_class x) eqn:E; simpl in Hx.
  - destruct Hx as [Hx|[]]. subst x. exact E.
  - destruct Hx as [Hx|[]]. subst c. reflexivity.
Qed.

Lemma In_firstn (A : Type) n : forall (l : list A) x, In x (firstn n l) -> In x l.
Proof.
  induction n as [|n IH]; intros l x H; simpl in H; [destruct H|].
  destruct l as [|y l]; [destruct H|]. destruct H as [H|H].
  - left. exact H.
  - right. apply IH. exact H.
Qed.

Lemma NoDup_firstn_of (A : Type) n : forall (l : list A), NoDup l -> NoDup (firstn n l).
Proof.
  induction n as [|n IH]; intros l H; simpl; [constructor|].
  destruct l as [|y l]; [constructor|]. inversion H; subst.
  constructor; [|apply IH; assumption].
  intros Hin. apply In_firstn in Hin. contradiction.
Qed.

(** C9, as the code has it.  [extract_keywords] returns the first
    [max(1, top_k)] distinct keywords in the order of their first
    occurrence.  So the result has no duplicates; each of its words is a
    word of the lowercased text made only of characters of the class
    [a-zA-ZÀ-ú], is no stopword and is longer than 3; and for a [top_k]
    of at least 1 the result has at most [top_k] words. *)
Theorem extract_keywords_spec (rt : Runtime) (text : pystr) (top_k : Z) :
  let out := extract_keywords text top_k in
  out = firstn (Z.to_nat (Z.max 1 top_k)) (first_seen [] (kw_keywords text)) /\
  NoDup out /\
  (forall w, In w out ->
             In w (kw_words text) /\
             Forall (fun c => kw_letter c = true) w /\
             ~ In w stopwords /\ 3 < len w) /\
  (1 <= top_k -> Z.of_nat (List.length out) <= top_k).
Proof.
  intros out. unfold out. rewrite extract_keywords_first_seen.
  split; [reflexivity|]. split; [|split].
  - apply NoDup_firstn_of, first_seen_NoDup.
  - intros w H. apply In_firstn in H. apply first_seen_In in H.
    destruct H as [H _]. unfold kw_keywords in H. apply filter_In in H.
    destruct H as [Hw Hf]. apply andb_true_iff in Hf. destruct Hf as [Hs Hl].
    split; [exact Hw|]. split; [apply kw_words_letters with (1 := Hw)|].
    split.
    + apply negb_true_iff in Hs. apply mem_not_In. exact Hs.
    + apply Z.gtb_lt in Hl. lia.
  - intros Hk.
    pose proof (firstn_le_length (Z.to_nat (Z.max 1 top_k))
                  (first_seen [] (kw_keywords text))) as H.
    lia.
Qed.

Lemma extract_keywords_spec_witness :
  Z.of_nat (List.length
    (extract_keywords (rt := ascii_runtime)
       (u "Erro no boleto: o boleto venceu e o sistema acusa erro") 2)) <= 2.
Proof.
  destruct (extract_keywords_spec ascii_runtime
              (u "Erro no boleto: o boleto venceu e o sistema acusa erro") 2)
    as (_ & _ & _ & H).
  apply H. lia.
Defined.

(** C9 as stated fails twice: with [top_k = 0] one keyword is returned,
    and the sign [×], which the class [À-ú] contains, makes a keyword
    that is not made of letters. *)
Lemma extract_keywords_not_as_claimed :
  extract_keywords (rt := ascii_runtime) (u "fatura vencida") 0 = [u "fatura"]
  /\
  extract_keywords (rt := ascii_runtime) (u "tamanho 2×××××3 cm") 10
  = [u "tamanho"; u "×××××"].
Proof. split; vm_compute; reflexivity. Qed.

(** ** The matcher finds the matches *)

Lemma last_or_app prev a : forall b,
  last_or prev (a ++ b) = last_or (last_or prev a) b.
Proof.
  revert prev. induction a as [|x a IH]; intros prev b; simpl; [reflexivity|].
  apply IH.
Qed.

Lemma Matches_cls_inv p prev m t :
  Matches (Cls p) prev m t -> exists c, m = [c] /\ p c = true.
Proof. intros H. inversion H; subst. eauto. Qed.

Lemma Matches_many_inv p prev m t :
  Matches (Many p) prev m t ->
  m = [] \/ exists c m', m = c :: m' /\ p c = true /\ Matches (Many p) (Some c) m' t.
Proof. intros H. inversion H; subst; [left; reflexivity | right; eauto]. Qed.

Lemma Matches_wordb_inv w prev m t :
  Matches (WordB w) prev m t -> m = [] /\ boundary w prev t = true.
Proof. intros H. inversion H; subst. split; [reflexivity | assumption]. Qed.

Lemma Matches_cat_inv r1 r2 prev m t :
  Matches (Cat r1 r2) prev m t ->
  exists m1 m2, m = m1 ++ m2 /\ Matches r1 prev m1 (m2 ++ t) /\
                Matches r2 (last_or prev m1) m2 t.
Proof. intros H. inversion H; subst. eauto. Qed.

Section MatcherFacts.
Variable A : Type.

Lemma many_sound p (k : option Z -> pystr -> option A) s : forall prev v,
  many p k prev s = Some v ->
  exists m t, s = m ++ t /\ Matches (Many p) prev m t /\
              k (last_or prev m) t = Some v.
Proof.
  induction s as [|c s IH]; intros prev v H; simpl in H.
  - exists [], []. split; [reflexivity|]. split; [constructor | exact H].
  - destruct (p c) eqn:E.
    + destruct (many p k (Some c) s) as [r|] eqn:E1.
      * inversion H; subst r. destruct (IH _ _ E1) as (m & t & Hs & Hm & Hk).
        exists (c :: m), t. split; [rewrite Hs; reflexivity|].
        split; [constructor; assumption | exact Hk].
      * exists [], (c :: s). split; [reflexivity|]. split; [constructor | exact H].
    + exists [], (c :: s). split; [reflexivity|]. split; [constructor | exact H].
Qed.

Lemma many_complete p (k : option Z -> pystr -> option A) m : forall prev t v,
  Matches (Many p) prev m t ->
  k (last_or prev m) t = Some v ->
  exists v', many p k prev (m ++ t) = Some v'.
Proof.
  induction m as [|c m IH]; intros prev t v Hm Hk; simpl in *.
  - destruct t as [|x t]; simpl; [eauto|].
    destruct (p x); [|eauto]. destruct (many p k (Some x) t); eauto.
  - apply Matches_many_inv in Hm.
    destruct Hm as [Hm | (c' & m' & E & Hp & Hm)]; [discriminate|].
    inversion E; subst c' m'. rewrite Hp.
    destruct (IH _ _ _ Hm Hk) as (v' & E'). rewrite E'. eauto.
Qed.

Lemma run_sound r : forall prev s (k : option Z -> pystr -> option A) v,
  run r prev s k = Some v ->
  exists m t, s = m ++ t /\ Matches r prev m t /\ k (last_or prev m) t = Some v.
Proof.
  induction r as [p|p|w|r1 IH1 r2 IH2]; intros prev s k v H; simpl in H.
  - destruct s as [|c s]; [discriminate|]. destruct (p c) eqn:E; [|discriminate].
    exists [c], s. split; [reflexivity|]. split; [constructor; exact E | exact H].
  - apply many_sound. exact H.
  - destruct (boundary w prev s) eqn:E; [|discriminate].
    exists [], s. split; [reflexivity|]. split; [constructor; exact E | exact H].
  - destruct (IH1 _ _ _ _ H) as (m1 & t1 & Hs & Hm1 & Hk).
    destruct (IH2 _ _ _ _ Hk) as (m2 & t & Ht & Hm2 & Hk2).
    exists (m1 ++ m2), t. split; [rewrite Hs, Ht, app_assoc; reflexivity|].
    split; [constructor; [rewrite <- Ht; exact Hm1 | exact Hm2]|].
    rewrite last_or_app. exact Hk2.
Qed.

Lemma run_complete r : forall prev m t (k : option Z -> pystr -> option A) v,
  Matches r prev m t ->
  k (last_or prev m) t = Some v ->
  exists v', run r prev (m ++ t) k = Some v'.
Proof.
  induction r as [p|p|w|r1 IH1 r2 IH2]; intros prev m t k v Hm Hk.
  - apply Matches_cls_inv in Hm. destruct Hm as (c & E & Hp). subst m.
    simpl. rewrite Hp. eauto.
  - simpl. apply many_complete with (v := v); assumption.
  - apply Matches_wordb_inv in Hm. destruct Hm as [E Hb]. subst m.
    simpl. rewrite Hb. eauto.
  - apply Matches_cat_inv in Hm. destruct Hm as (m1 & m2 & E & H1 & H2). subst m.
    simpl. rewrite last_or_app in Hk.
    destruct (IH2 _ _ _ _ _ H2 Hk) as (v2 & E2).
    rewrite <- app_assoc.
    apply (IH1 _ _ _ (fun prev' s' => run r2 prev' s' k) v2 H1 E2).
Qed.

End MatcherFacts.

Lemma match_here_sound r prev s rest :
  match_here r prev s = Some rest ->
  exists m, s = m ++ rest /\ Matches r prev m rest.
Proof.
  unfold match_here. intros H.
  destruct (run_sound _ _ _ _ H) as (m & t & Hs & Hm & Hk).
  inversion Hk; subst. eauto.
Qed.

Lemma match_here_none r prev m t :
  match_here r prev (m ++ t) = None -> ~ Matches r prev m t.
Proof.
  unfold match_here. intros H Hm.
  destruct (@run_complete _ r prev m t (fun _ rest => Some rest) t Hm eq_refl)
    as (v' & E).
  congruence.
Qed.

(** [re.search] finds nothing where nothing occurs. *)
Lemma search_from_none r s : forall prev,
  ~ Occurs r prev s -> search_from r prev s = false.
Proof.
  induction s as [|c s IH]; intros prev Hno; simpl.
  - destruct (match_here r prev []) as [rest|] eqn:E; [|reflexivity].
    exfalso. apply Hno. destruct (match_here_sound _ _ _ E) as (m & Hs & Hm).
    exists [], m, rest. split; [exact Hs | exact Hm].
  - destruct (match_here r prev (c :: s)) as [rest|] eqn:E.
    + exfalso. apply Hno. destruct (match_here_sound _ _ _ E) as (m & Hs & Hm).
      exists [], m, rest. split; [exact Hs | exact Hm].
    + apply IH. intros (l & m & t & Hs & Hm). apply Hno.
      exists (c :: l), m, t. split; [rewrite Hs; reflexivity | exact Hm].
Qed.

(** ** What a match is made of *)

Lemma Matches_alphabet r prev m t :
  Matches r prev m t -> Forall (fun c => alphabet r c = true) m.
Proof.
  induction 1; simpl.
  - constructor; [assumption | constructor].
  - constructor.
  - constructor; assumption.
  - constructor.
  - apply Forall_app. split.
    + eapply Forall_impl; [|eassumption]. intros a Ha. simpl in Ha.
      rewrite Ha. reflexivity.
    + eapply Forall_impl; [|eassumption]. intros a Ha. simpl in Ha.
      rewrite Ha. apply orb_true_r.
Qed.

Lemma Matches_consumes r prev m t :
  Matches r prev m t -> consumes r = true -> m <> [].
Proof.
  induction 1; simpl; intros Hc; try discriminate.
  apply orb_true_iff in Hc. intros E. apply app_eq_nil in E. destruct E as [E1 E2].
  destruct Hc as [Hc|Hc]; [apply IHMatches1 | apply IHMatches2]; assumption.
Qed.

Lemma same_context_app w prev prev' m t t' :
  same_context w prev prev' t t' ->
  same_context w prev prev' (m ++ t) (m ++ t').
Proof.
  intros [H1 H2]. split; [exact H1|]. destruct m; [exact H2 | reflexivity].
Qed.

Lemma same_context_last w prev prev' m t t' :
  same_context w prev prev' t t' ->
  same_context w (last_or prev m) (last_or prev' m) t t'.
Proof.
  intros [H1 H2]. split; [|exact H2]. destruct m as [|c m]; [exact H1|].
  simpl. clear H1. revert c. induction m as [|x m IH]; intros c; simpl; auto.
Qed.

(** A match stays a match in every context its boundaries cannot tell
    from the original one. *)
Lemma Matches_context w r prev m t :
  Matches r prev m t ->
  forall prev' t', uses_words w r -> same_context w prev prev' t t' ->
                   Matches r prev' m t'.
Proof.
  induction 1; intros prev' t' Hu Hc.
  - constructor. assumption.
  - constructor.
  - constructor; [assumption|]. apply IHMatches; [exact Hu|].
    split; [reflexivity | apply Hc].
  - simpl in Hu. subst w0. constructor. destruct Hc as [H1 H2].
    unfold boundary in *. rewrite <- H1, <- H2. assumption.
  - destruct Hu as [Hu1 Hu2]. constructor.
    + apply IHMatches1; [exact Hu1 | apply same_context_app; exact Hc].
    + apply IHMatches2; [exact Hu2 | apply same_context_last; exact Hc].
Qed.

(** ** The scan of [re.sub] *)

Lemma sub_aux_skip r rep m : forall prev t,
  sub_aux r rep (List.length m) prev (m ++ t) = sub_aux r rep 0 (last_or prev m) t.
Proof.
  induction m as [|c m IH]; intros prev t; [reflexivity|].
  simpl. apply IH.
Qed.

Lemma sub_aux_Subst r rep :
  consumes r = true ->
  forall n s, (List.length s <= n)%nat ->
  forall prev, Subst r rep prev s (sub_aux r rep 0 prev s).
Proof.
  intros Hc. induction n as [|n IH]; intros s Hn prev.
  - destruct s; [|simpl in Hn; lia]. simpl. unfold match_len.
    destruct (match_here r prev []) as [rest|] eqn:E; [|constructor].
    exfalso. destruct (match_here_sound _ _ _ E) as (m & Hs & Hm).
    symmetry in Hs. apply app_eq_nil in Hs. destruct Hs as [Hs _].
    apply (Matches_consumes Hm Hc Hs).
  - destruct s as [|c s].
    + simpl. unfold match_len.
      destruct (match_here r prev []) as [rest|] eqn:E; [|constructor].
      exfalso. destruct (match_here_sound _ _ _ E) as (m & Hs & Hm).
      symmetry in Hs. apply app_eq_nil in Hs. destruct Hs as [Hs _].
      apply (Matches_consumes Hm Hc Hs).
    + cbn [sub_aux]. unfold match_len.
      destruct (match_here r prev (c :: s)) as [rest|] eqn:E.
      * destruct (match_here_sound _ _ _ E) as (m & Hs & Hm).
        pose proof (Matches_consumes Hm Hc) as Hne.
        destruct m as [|x m]; [contradiction|].
        simpl in Hs. inversion Hs; subst x s.
        replace (List.length (c :: m ++ rest) - List.length rest)%nat
          with (S (List.length m))
          by (cbn [List.length]; rewrite length_app; lia).
        rewrite sub_aux_skip.
        change (c :: m ++ rest) with ((c :: m) ++ rest).
        apply Sub_repl; [discriminate | exact Hm |].
        apply IH. simpl in Hn. rewrite length_app in Hn. lia.
      * apply Sub_keep; [exact E|]. apply IH. simpl in Hn. lia.
Qed.

Lemma sub_Subst r rep s :
  consumes r = true -> Subst r rep None s (sub r rep s).
Proof. intros Hc. apply sub_aux_Subst with (n := List.length s); [exact Hc | lia]. Qed.

(** ** Lists cut in two ways *)

Lemma app_cut (A : Type) (l : list A) : forall rep x y,
  l ++ x = rep ++ y ->
  (exists l', l = rep ++ l' /\ y = l' ++ x) \/
  (exists c rest, rep = l ++ c :: rest /\ x = c :: rest ++ y).
Proof.
  induction l as [|a l IH]; intros rep x y E; simpl in E.
  - destruct rep as [|c rest].
    + left. exists []. split; [reflexivity | symmetry; exact E].
    + right. exists c, rest. split; [reflexivity | exact E].
  - destruct rep as [|c rest].
    + left. exists (a :: l). split; [reflexivity | symmetry; exact E].
    + simpl in E. injection E as Ea Er. subst c.
      destruct (IH _ _ _ Er) as [(l' & E1 & E2) | (c & rest' & E1 & E2)].
      * left. exists l'. split; [rewrite E1; reflexivity | exact E2].
      * right. exists c, rest'. split; [rewrite E1; reflexivity | exact E2].
Qed.

Lemma prefix_before (A : Type) (P : A -> Prop) (mu : list A) :
  forall a z b t,
    a ++ z :: b = mu ++ t -> Forall P mu -> ~ P z ->
    exists a', a = mu ++ a'.
Proof.
  induction mu as [|x mu IH]; intros a z b t E HP Hz.
  - exists a. reflexivity.
  - apply Forall_cons_iff in HP. destruct HP as [Hx HP].
    destruct a as [|y a]; simpl in E.
    + injection E as E1 E2. subst z. contradiction.
    + injection E as E1 E2. subst y.
      destruct (IH _ _ _ _ E2 HP Hz) as (a' & Ea).
      exists a'. rewrite Ea. reflexivity.
Qed.

Lemma last_or_nonempty prev m : m <> [] -> last_or prev m = last_or None m.
Proof. destruct m; [contradiction | reflexivity]. Qed.

Lemma is_word_at_none w : (forall c, w c = false) ->
  forall x, is_word_at w x = false.
Proof. intros H [c|]; simpl; auto. Qed.

Lemma suffix_last (A : Type) (l : list A) : forall x y c rest,
  x ++ [y] = l ++ c :: rest -> exists z, c :: rest = z ++ [y].
Proof.
  induction l as [|a l IH]; intros x y c rest E; simpl in E.
  - exists x. symmetry. exact E.
  - destruct x as [|b x]; simpl in E.
    + injection E as _ E. destruct l; discriminate.
    + injection E as _ E. apply (IH _ _ _ _ E).
Qed.

Section Hidden.
Variable w : Z -> bool.
Variable target : re.
Variable rep : pystr.
Variables (o1 o2 : Z) (body : pystr).
Variable need : Z -> bool.
Hypothesis rep_shape : rep = o1 :: body ++ [o2].
Hypothesis target_words : uses_words w target.
Hypothesis target_consumes : consumes target = true.
Hypothesis open_foreign : alphabet target o1 = false.
Hypothesis close_foreign : alphabet target o2 = false.
Hypothesis close_nonword : w o2 = false.
Hypothesis target_needs :
  forall prev m t, Matches target prev m t -> exists c, In c m /\ need c = true.
Hypothesis rep_lacks : forall c, In c rep -> need c = false.
Hypothesis target_edges : Edges w target.

(** A stretch of the output made of characters of the target pattern
    is a stretch of the input. *)
Lemma kept_prefix prev s o :
  Kept w target rep prev s o ->
  forall a t, o = a ++ t -> Forall (fun c => alphabet target c = true) a ->
  exists t', s = a ++ t' /\
             (is_word_at w (hd_error t') = is_word_at w (hd_error t) \/
              is_word_at w (last_or prev a) = false).
Proof.
  induction 1 as [prev | prev c s o Hno HK IH | prev m r o Hm Hp Hr HK IH];
    intros a t E Ha.
  - symmetry in E. apply app_eq_nil in E. destruct E; subst.
    exists []. split; [reflexivity | left; reflexivity].
  - destruct a as [|x a]; simpl in E.
    + subst t. exists (c :: s). split; [reflexivity | left; reflexivity].
    + injection E as Ex Eo. subst x.
      apply Forall_cons_iff in Ha. destruct Ha as [_ Ha].
      destruct (IH a t Eo Ha) as (t' & Es & Hd).
      exists t'. split; [rewrite Es; reflexivity | exact Hd].
  - destruct a as [|x a].
    + exists (m ++ r). split; [reflexivity|]. right. exact Hp.
    + exfalso. rewrite rep_shape in E. simpl in E. injection E as Ex _. subst x.
      apply Forall_cons_iff in Ha. destruct Ha as [Ha _]. congruence.
Qed.

Lemma last_or_rep prev : last_or prev rep = Some o2.
Proof.
  rewrite rep_shape. simpl. rewrite last_or_app. reflexivity.
Qed.

(** The target pattern occurs nowhere in the output of such a scan. *)
Lemma kept_hidden prev s o :
  Kept w target rep prev s o ->
  forall prev_o,
    is_word_at w prev_o = is_word_at w prev \/ is_word_at w (hd_error s) = false ->
    ~ Occurs target prev_o o.
Proof.
  induction 1 as [prev | prev c s o Hno HK IH | prev m r o Hm Hp Hr HK IH];
    intros prev_o Hcompat (l & mu & t & E & HM).
  - symmetry in E. apply app_eq_nil in E. destruct E as [_ E].
    apply app_eq_nil in E. destruct E as [E _].
    apply (Matches_consumes HM target_consumes E).
  - destruct l as [|x l]; simpl in E, HM.
    + pose proof (Matches_consumes HM target_consumes) as Hne.
      destruct (@kept_prefix prev (c :: s) (c :: o) (K_keep Hno HK) mu t E
                  (Matches_alphabet HM)) as (t' & Es & Hd).
      apply (Hno mu t' Es).
      apply Matches_context with (w := w) (prev := prev_o) (t := t);
        [exact HM | exact target_words | split].
      * destruct Hcompat as [Hc|Hc]; [exact Hc|].
        destruct target_edges as [Hn|He].
        -- rewrite !(is_word_at_none _ Hn). reflexivity.
        -- exfalso. destruct (He _ _ _ HM) as [Hf _].
           destruct mu as [|y mu]; [contradiction|].
           simpl in E. injection E as Ey _. subst y. simpl in Hc, Hf. congruence.
      * destruct Hd as [Hd|Hd]; [symmetry; exact Hd|].
        destruct target_edges as [Hn|He].
        -- rewrite !(is_word_at_none _ Hn). reflexivity.
        -- exfalso. destruct (He _ _ _ HM) as [_ Hl].
           rewrite (last_or_nonempty prev Hne) in Hd. congruence.
    + injection E as Ex Eo. subst x.
      apply (IH (Some c)); [left; reflexivity|].
      exists l, mu, t. split; [exact Eo | exact HM].
  - symmetry in E. destruct (app_cut _ _ _ _ E) as [(l' & El & Eo) | (c & rest & Er & Em)].
    + apply (IH (Some o2)); [right; exact Hr|].
      exists l', mu, t. split; [exact Eo|].
      subst l. rewrite last_or_app, last_or_rep in HM. exact HM.
    + assert (Hz : exists z, c :: rest = z ++ [o2]).
      { apply (suffix_last l (o1 :: body)). rewrite <- Er. symmetry. exact rep_shape. }
      destruct Hz as (z & Ez).
      change (c :: rest ++ o) with ((c :: rest) ++ o) in Em.
      rewrite Ez in Em. rewrite <- app_assoc in Em.
      symmetry in Em. simpl in Em.
      destruct (@prefix_before Z (fun c => alphabet target c = true) mu z o2 o t Em
                  (Matches_alphabet HM)) as (a' & Ea); [congruence|].
      destruct (target_needs HM) as (ch & Hin & Hneed).
      rewrite rep_lacks in Hneed; [discriminate|].
      rewrite Er. apply in_or_app. right. rewrite Ez, Ea.
      apply in_or_app. left. apply in_or_app. left. exact Hin.
Qed.

End Hidden.

(** ** One substitution after another *)

Lemma subst_kept_self w t rep prev s o :
  Fenced w t -> Subst t rep prev s o -> Kept w t rep prev s o.
Proof.
  intros Hf. induction 1 as [prev | prev c s o Hn HS IH | prev m r o Hm HM HS IH].
  - constructor.
  - constructor; [|exact IH]. intros m r E. rewrite E in Hn.
    apply match_here_none. exact Hn.
  - destruct (Hf _ _ _ HM) as [H1 H2]. constructor; assumption.
Qed.

Lemma subst_kept_other w t r rep prev s o :
  Fenced w r -> Subst r rep prev s o -> ~ Occurs t prev s ->
  Kept w t rep prev s o.
Proof.
  intros Hf. induction 1 as [prev | prev c s o Hn HS IH | prev m x o Hm HM HS IH];
    intros Hno.
  - constructor.
  - constructor.
    + intros m x E HM. apply Hno. exists [], m, x. split; [exact E | exact HM].
    + apply IH. intros (l & m & x & E & HM). apply Hno.
      exists (c :: l), m, x. split; [rewrite E; reflexivity | exact HM].
  - destruct (Hf _ _ _ HM) as [H1 H2]. constructor; try assumption.
    apply IH. intros (l & mu & y & E & HM'). apply Hno.
    exists (m ++ l), mu, y. split.
    + rewrite E, app_assoc. reflexivity.
    + rewrite last_or_app. exact HM'.
Qed.

(** After [re.sub(t, rep, s)] the pattern [t] occurs nowhere. *)
Lemma sub_hides w t rep s :
  Hides w t rep -> Fenced w t -> ~ Occurs t None (sub t rep s).
Proof.
  intros (o1 & o2 & body & need & H1 & H2 & H3 & H4 & H5 & H6 & H7 & H8 & H9) Hf.
  apply (@kept_hidden w t rep o1 o2 body need H1 H2 H3 H4 H5 H6 H7 H8 H9 None s).
  - apply subst_kept_self; [exact Hf | apply sub_Subst; exact H3].
  - left. reflexivity.
Qed.

(** A later [re.sub(r, rep, s)] brings no occurrence of [t] back. *)
Lemma sub_keeps_hidden w t r rep s :
  Hides w t rep -> Fenced w r -> consumes r = true ->
  ~ Occurs t None s -> ~ Occurs t None (sub r rep s).
Proof.
  intros (o1 & o2 & body & need & H1 & H2 & H3 & H4 & H5 & H6 & H7 & H8 & H9) Hf Hc Hno.
  apply (@kept_hidden w t rep o1 o2 body need H1 H2 H3 H4 H5 H6 H7 H8 H9 None s).
  - apply subst_kept_other with (r := r); [exact Hf | apply sub_Subst; exact Hc | exact Hno].
  - left. reflexivity.
Qed.

(** ** The patterns of the anonymizer *)

Lemma starts_with_first p r :
  StartsWith p r ->
  forall prev m t, Matches r prev m t -> exists c m', m = c :: m' /\ p c = true.
Proof.
  induction 1 as [|r1 r2 H IH]; intros prev m t HM.
  - apply Matches_cls_inv in HM. destruct HM as (c & E & Hp). eauto.
  - apply Matches_cat_inv in HM. destruct HM as (m1 & m2 & E & H1 & H2).
    destruct (IH _ _ _ H1) as (c & m' & E1 & Hp). subst m m1.
    exists c, (m' ++ m2). split; [reflexivity | exact Hp].
Qed.

Lemma many_last p m : forall c t,
  p c = true -> Matches (Many p) (Some c) m t ->
  exists c', last_or (Some c) m = Some c' /\ p c' = true.
Proof.
  induction m as [|x m IH]; intros c t Hp HM.
  - exists c. split; [reflexivity | exact Hp].
  - apply Matches_many_inv in HM.
    destruct HM as [E | (y & m' & E & Hy & HM)]; [discriminate|].
    injection E as Ex Em. subst y m'. simpl. apply (IH x t Hy HM).
Qed.

Lemma ends_with_last p r :
  EndsWith p r ->
  forall prev m t, Matches r prev m t ->
                   exists c, last_or prev m = Some c /\ p c = true /\ m <> [].
Proof.
  induction 1 as [|r1 r2 H IH|r1 H IH]; intros prev m t HM.
  - apply Matches_cls_inv in HM. destruct HM as (c & E & Hp). subst m.
    exists c. split; [reflexivity|]. split; [exact Hp | discriminate].
  - apply Matches_cat_inv in HM. destruct HM as (m1 & m2 & E & H1 & H2).
    destruct (IH _ _ _ H2) as (c & El & Hp & Hne). subst m.
    exists c. rewrite last_or_app. split; [exact El|]. split; [exact Hp|].
    intros E. apply app_eq_nil in E. destruct E as [_ E]. contradiction.
  - apply Matches_cat_inv in HM. destruct HM as (m1 & m2 & E & H1 & H2).
    destruct (IH _ _ _ H1) as (c & El & Hp & Hne). subst m.
    rewrite El in H2. destruct (many_last Hp H2) as (c' & El' & Hp').
    exists c'. rewrite last_or_app, El. split; [exact El'|]. split; [exact Hp'|].
    intros E. apply app_eq_nil in E. destruct E as [E _]. contradiction.
Qed.

Lemma fenced_without_words r : Fenced (fun _ => false) r.
Proof.
  intros prev m t _. split.
  - destruct prev; reflexivity.
  - destruct (hd_error t); reflexivity.
Qed.

Section AnonymizerFacts.
Context {rt : Runtime}.

Lemma digit_word c : is_digit c = true -> is_word c = true.
Proof.
  unfold is_digit, is_word. destruct (c <? 128); intros H; rewrite H.
  - rewrite orb_true_r. reflexivity.
  - reflexivity.
Qed.

Lemma bounded_inv core prev m t :
  Matches (bounded core) prev m t ->
  Matches core prev m t /\
  boundary is_word prev (m ++ t) = true /\
  boundary is_word (last_or prev m) t = true.
Proof.
  unfold bounded. intros HM.
  apply Matches_cat_inv in HM. destruct HM as (m0 & m' & E & H0 & HM).
  apply Matches_wordb_inv in H0. destruct H0 as [E0 Hb0]. subst m0 m.
  simpl in *.
  apply Matches_cat_inv in HM. destruct HM as (m1 & m2 & E & H1 & H2).
  apply Matches_wordb_inv in H2. destruct H2 as [E2 Hb2]. subst m2 m'.
  rewrite app_nil_r in *. simpl in H1. auto.
Qed.

Lemma bounded_edges core prev m t :
  StartsWith is_digit core -> EndsWith is_digit core ->
  Matches (bounded core) prev m t ->
  (exists c m', m = c :: m' /\ is_digit c = true) /\
  (exists c, last_or None m = Some c /\ is_digit c = true) /\
  is_word_at is_word prev = false /\
  is_word_at is_word (hd_error t) = false.
Proof.
  intros Hs He HM. destruct (bounded_inv HM) as (Hc & Hb1 & Hb2).
  destruct (starts_with_first Hs Hc) as (c & m' & E & Hd).
  destruct (ends_with_last He Hc) as (c' & El & Hd' & Hne).
  split; [eauto|]. split.
  - exists c'. rewrite <- (last_or_nonempty prev Hne). split; assumption.
  - unfold boundary in Hb1, Hb2. subst m. simpl in Hb1.
    rewrite (digit_word _ Hd) in Hb1. rewrite El in Hb2. simpl in Hb2.
    rewrite (digit_word _ Hd') in Hb2.
    split.
    + destruct (is_word_at is_word prev); [discriminate | reflexivity].
    + destruct (is_word_at is_word (hd_error t)); [discriminate | reflexivity].
Qed.

Lemma bounded_fenced core :
  StartsWith is_digit core -> EndsWith is_digit core ->
  Fenced is_word (bounded core).
Proof.
  intros Hs He prev m t HM.
  destruct (bounded_edges Hs He HM) as (_ & _ & H1 & H2). split; assumption.
Qed.

(** A bracketed text without digits hides a bounded pattern of digits. *)
Lemma bounded_hidden core body :
  StartsWith is_digit core -> EndsWith is_digit core ->
  uses_words is_word core -> consumes core = true ->
  alphabet core 91 = false -> alphabet core 93 = false ->
  (forall c, In c (91 :: body ++ [93]) -> is_digit c = false) ->
  Hides is_word (bounded core) (91 :: body ++ [93]).
Proof.
  intros Hs He Hu Hc H91 H93 Hnd.
  exists 91, 93, body, is_digit.
  split; [reflexivity|]. split; [simpl; auto|].
  split; [simpl; rewrite Hc; reflexivity|].
  split; [simpl; rewrite H91; reflexivity|].
  split; [simpl; rewrite H93; reflexivity|].
  split; [reflexivity|]. split; [|split; [exact Hnd|]].
  - intros prev m r HM. destruct (bounded_edges Hs He HM) as ((c & m' & E & Hd) & _).
    exists c. split; [subst m; left; reflexivity | exact Hd].
  - right. intros prev m r HM.
    destruct (bounded_edges Hs He HM) as ((c & m' & E & Hd) & (c' & El & Hd') & _).
    subst m. simpl hd_error. rewrite El. simpl. split; apply digit_word; assumption.
Qed.

End AnonymizerFacts.

(** A bracketed text without [@] hides the e-mail pattern, which has no
    word boundary. *)
Lemma email_hidden body :
  (forall c, In c (91 :: body ++ [93]) -> (c =? 64) = false) ->
  Hides (fun _ => false) re_email (91 :: body ++ [93]).
Proof.
  intros Hno. exists 91, 93, body, (fun c => c =? 64).
  split; [reflexivity|]. split; [simpl; tauto|].
  split; [reflexivity|]. split; [reflexivity|]. split; [reflexivity|].
  split; [reflexivity|]. split; [|split; [exact Hno | left; reflexivity]].
  intros prev m r HM. unfold re_email in HM. simpl seq in HM.
  apply Matches_cat_inv in HM. destruct HM as (m1 & m2 & E & _ & HM). subst m.
  apply Matches_cat_inv in HM. destruct HM as (m3 & m4 & E & HM & _). subst m2.
  apply Matches_cls_inv in HM. destruct HM as (c & E & Hc). subst m3.
  exists c. split; [|exact Hc].
  apply in_or_app. right. left. reflexivity.
Qed.

Ltac in_cases H :=
  repeat (destruct H as [H|H]; [subst; reflexivity|]); destruct H.

Lemma reps_bracketed :
  EMAIL_REMOVIDO = 91 :: u "EMAIL_REMOVIDO" ++ [93] /\
  PII_REMOVIDO = 91 :: u "PII_REMOVIDO" ++ [93] /\
  NUM_REMOVIDO = 91 :: u "NUM_REMOVIDO" ++ [93].
Proof. repeat split. Qed.

Lemma reps_without_at c :
  In c EMAIL_REMOVIDO \/ In c PII_REMOVIDO \/ In c NUM_REMOVIDO ->
  (c =? 64) = false.
Proof.
  intros [H|[H|H]]; vm_compute in H; in_cases H.
Qed.

Section AnonymizerProof.
Context {rt : Runtime}.

Lemma reps_without_digit c :
  In c EMAIL_REMOVIDO \/ In c PII_REMOVIDO \/ In c NUM_REMOVIDO ->
  is_digit c = false.
Proof.
  intros [H|[H|H]]; vm_compute in H; in_cases H.
Qed.

Lemma cores_start :
  StartsWith is_digit core_cpf /\ StartsWith is_digit (dg 11) /\
  StartsWith is_digit core_cnpj /\ StartsWith is_digit (dg 14) /\
  StartsWith is_digit core_d6.
Proof. repeat split; repeat constructor. Qed.

Lemma cores_end :
  EndsWith is_digit core_cpf /\ EndsWith is_digit (dg 11) /\
  EndsWith is_digit core_cnpj /\ EndsWith is_digit (dg 14) /\
  EndsWith is_digit core_d6.
Proof.
  split; [repeat constructor|].
  split; [repeat constructor|].
  split; [repeat constructor|].
  split; [repeat constructor|].
  apply EW_many. repeat constructor.
Qed.

Lemma cores_fenced :
  Fenced is_word re_cpf /\ Fenced is_word re_d11 /\ Fenced is_word re_cnpj /\
  Fenced is_word re_d14 /\ Fenced is_word re_d6.
Proof.
  destruct cores_start as (S1 & S2 & S3 & S4 & S5).
  destruct cores_end as (E1 & E2 & E3 & E4 & E5).
  split; [apply bounded_fenced; assumption|].
  split; [apply bounded_fenced; assumption|].
  split; [apply bounded_fenced; assumption|].
  split; apply bounded_fenced; assumption.
Qed.

End AnonymizerProof.

Section AnonymizerTheorem.
Context {rt : Runtime}.

Lemma core_facts :
  (uses_words is_word core_cpf /\ consumes core_cpf = true /\
   alphabet core_cpf 91 = false /\ alphabet core_cpf 93 = false) /\
  (uses_words is_word core_cnpj /\ consumes core_cnpj = true /\
   alphabet core_cnpj 91 = false /\ alphabet core_cnpj 93 = false) /\
  (uses_words is_word core_d6 /\ consumes core_d6 = true /\
   alphabet core_d6 91 = false /\ alphabet core_d6 93 = false).
Proof.
  split; [|split]; (split; [simpl; tauto|]); repeat split.
Qed.

Lemma steps_consume :
  consumes re_email = true /\ consumes re_cpf = true /\ consumes re_d11 = true /\
  consumes re_cnpj = true /\ consumes re_d14 = true /\ consumes re_d6 = true.
Proof. repeat split. Qed.

Lemma email_hidden_by rep :
  rep = EMAIL_REMOVIDO \/ rep = PII_REMOVIDO \/ rep = NUM_REMOVIDO ->
  Hides (fun _ => false) re_email rep.
Proof.
  destruct reps_bracketed as (B1 & B2 & B3).
  intros [E|[E|E]]; subst rep.
  - rewrite B1. apply email_hidden. rewrite <- B1. intros c H.
    apply reps_without_at. auto.
  - rewrite B2. apply email_hidden. rewrite <- B2. intros c H.
    apply reps_without_at. auto.
  - rewrite B3. apply email_hidden. rewrite <- B3. intros c H.
    apply reps_without_at. auto.
Qed.

Lemma digits_hidden_by core rep :
  StartsWith is_digit core -> EndsWith is_digit core ->
  uses_words is_word core /\ consumes core = true /\
  alphabet core 91 = false /\ alphabet core 93 = false ->
  rep = PII_REMOVIDO \/ rep = NUM_REMOVIDO ->
  Hides is_word (bounded core) rep.
Proof.
  destruct reps_bracketed as (_ & B2 & B3).
  intros Hs He (Hu & Hc & H91 & H93) [E|E]; subst rep.
  - rewrite B2. apply bounded_hidden; try assumption. rewrite <- B2.
    intros c H. apply reps_without_digit. auto.
  - rewrite B3. apply bounded_hidden; try assumption. rewrite <- B3.
    intros c H. apply reps_without_digit. auto.
Qed.

(** The output of [anonymize_text] has no occurrence of the e-mail, CPF,
    CNPJ and long-number patterns. *)
Lemma anonymize_text_no_occurrence text :
  let out := anonymize_text (PStr text) in
  ~ Occurs re_email None out /\ ~ Occurs re_cpf None out /\
  ~ Occurs re_cnpj None out /\ ~ Occurs re_d6 None out.
Proof.
  destruct cores_start as (S1 & S2 & S3 & S4 & S5).
  destruct cores_end as (E1 & E2 & E3 & E4 & E5).
  destruct cores_fenced as (F1 & F2 & F3 & F4 & F5).
  destruct core_facts as (C1 & C3 & C5).
  destruct steps_consume as (N0 & N1 & N2 & N3 & N4 & N5).
  simpl.
  set (t1 := sub re_email EMAIL_REMOVIDO text).
  set (t2 := sub re_cpf PII_REMOVIDO t1).
  set (t3 := sub re_d11 PII_REMOVIDO t2).
  set (t4 := sub re_cnpj PII_REMOVIDO t3).
  set (t5 := sub re_d14 PII_REMOVIDO t4).
  set (t6 := sub re_d6 NUM_REMOVIDO t5).
  split; [|split; [|split]].
  - assert (H1 : ~ Occurs re_email None t1).
    { apply sub_hides with (w := fun _ => false); [apply email_hidden_by; auto | apply fenced_without_words]. }
    assert (H2 : ~ Occurs re_email None t2).
    { apply sub_keeps_hidden with (w := fun _ => false);
        [apply email_hidden_by; auto | apply fenced_without_words | exact N1 | exact H1]. }
    assert (H3 : ~ Occurs re_email None t3).
    { apply sub_keeps_hidden with (w := fun _ => false);
        [apply email_hidden_by; auto | apply fenced_without_words | exact N2 | exact H2]. }
    assert (H4 : ~ Occurs re_email None t4).
    { apply sub_keeps_hidden with (w := fun _ => false);
        [apply email_hidden_by; auto | apply fenced_without_words | exact N3 | exact H3]. }
    assert (H5 : ~ Occurs re_email None t5).
    { apply sub_keeps_hidden with (w := fun _ => false);
        [apply email_hidden_by; auto | apply fenced_without_words | exact N4 | exact H4]. }
    apply sub_keeps_hidden with (w := fun _ => false);
      [apply email_hidden_by; auto | apply fenced_without_words | exact N5 | exact H5].
  - assert (H2 : ~ Occurs re_cpf None t2).
    { apply sub_hides with (w := is_word);
        [apply digits_hidden_by; auto | exact F1]. }
    assert (H3 : ~ Occurs re_cpf None t3).
    { apply sub_keeps_hidden with (w := is_word);
        [apply digits_hidden_by; auto | exact F2 | exact N2 | exact H2]. }
    assert (H4 : ~ Occurs re_cpf None t4).
    { apply sub_keeps_hidden with (w := is_word);
        [apply digits_hidden_by; auto | exact F3 | exact N3 | exact H3]. }
    assert (H5 : ~ Occurs re_cpf None t5).
    { apply sub_keeps_hidden with (w := is_word);
        [apply digits_hidden_by; auto | exact F4 | exact N4 | exact H4]. }
    apply sub_keeps_hidden with (w := is_word);
      [apply digits_hidden_by; auto | exact F5 | exact N5 | exact H5].
  - assert (H4 : ~ Occurs re_cnpj None t4).
    { apply sub_hides with (w := is_word);
        [apply digits_hidden_by; auto | exact F3]. }
    assert (H5 : ~ Occurs re_cnpj None t5).
    { apply sub_keeps_hidden with (w := is_word);
        [apply digits_hidden_by; auto | exact F4 | exact N4 | exact H4]. }
    apply sub_keeps_hidden with (w := is_word);
      [apply digits_hidden_by; auto | exact F5 | exact N5 | exact H5].
  - apply sub_hides with (w := is_word);
      [apply digits_hidden_by; auto | exact F5].
Qed.

End AnonymizerTheorem.

(** ** A substring on its own and in its place *)







(** The boundaries are part of the patterns: a run of digits glued to a
    letter is no match of [\b\d{6,}\b], and [anonymize_text] leaves it. *)
Example anonymize_glued_digits :
  anonymize_text (rt := ascii_runtime) (PStr (u "ref abc1234567 e 7654321"))
  = u "ref abc1234567 e [NUM_REMOVIDO]".
Proof. vm_compute. reflexivity. Qed.

(** * Further properties *)

(** ** The retry loop at its edges *)

(** X1.  With a budget of zero or less, [_retry_backoff_call] never runs
    the call: the loop body is skipped and [raise last_exc] raises a
    [TypeError], since [last_exc] is still [None]. *)
Theorem retry_without_budget (A : Type) (func : M A) (retries : Z)
        (base_delay : Q) (w : world) :
  retries <= 0 ->
  _retry_backoff_call func retries base_delay w = (Raise TypeError, w).
Proof.
  intros H. unfold _retry_backoff_call.
  replace (Z.to_nat retries) with 0%nat by lia. reflexivity.
Qed.

Lemma retry_without_budget_witness :
  _retry_backoff_call (create (llm_says (u "ok")) req0) 0 1 world0
  = (Raise TypeError, world0).
Proof. apply retry_without_budget. lia. Defined.

Lemma pow2_0 : pow2 0 = 1%Q.
Proof. reflexivity. Qed.

(** X2.  With a negative base delay the first failure of the call is
    lost: [time.sleep] raises inside the handler, so a [ValueError]
    escapes after a single attempt, whatever the budget. *)
Theorem retry_negative_delay (A : Type) (func : M A) (retries : Z)
        (base_delay : Q) (w w1 : world) (e : exc) :
  1 <= retries -> (base_delay < 0)%Q ->
  func w = (Raise e, w1) ->
  _retry_backoff_call func retries base_delay w = (Raise ValueError, w1).
Proof.
  intros Hr Hb Hf. unfold _retry_backoff_call.
  destruct (Z.to_nat retries) as [|n] eqn:E; [lia|].
  simpl. unfold try_except, bind. rewrite Hf. unfold sleep.
  destruct (Qlt_le_dec (base_delay * pow2 0) 0) as [L|L]; [reflexivity|].
  exfalso. rewrite pow2_0, Qmult_1_r in L. apply (Qlt_not_le _ _ Hb L).
Qed.

Lemma retry_negative_delay_witness :
  _retry_backoff_call (create llm_down req0) 3 (-1 # 2) world0
  = (Raise ValueError, mkWorld 1 [ECall req0]).
Proof.
  apply retry_negative_delay with (e := ApiError 503).
  - lia.
  - reflexivity.
  - reflexivity.
Defined.

(** ** The cost of a retried call *)

Lemma pow2_S i : (pow2 (S i) == 2 * pow2 i)%Q.
Proof.
  unfold pow2. rewrite Nat2Z.inj_succ, Z.pow_succ_r by lia.
  rewrite inject_Z_mult. reflexivity.
Qed.

Lemma pow2_ge_1 i : (1 <= pow2 i)%Q.
Proof.
  unfold pow2. change 1%Q with (inject_Z 1). rewrite <- Zle_Qle.
  assert (0 < 2 ^ Z.of_nat i) by (apply Z.pow_pos_nonneg; lia). lia.
Qed.

Lemma pow2_mono i j : (i <= j)%nat -> (pow2 i <= pow2 j)%Q.
Proof.
  intros H. unfold pow2. rewrite <- Zle_Qle.
  apply Z.pow_le_mono_r; lia.
Qed.

Lemma total_sleep_app a b :
  (total_sleep (a ++ b) == total_sleep a + total_sleep b)%Q.
Proof.
  induction a as [|[r|d] a IH]; simpl.
  - ring.
  - exact IH.
  - rewrite IH. ring.
Qed.

Lemma calls_of_app a b : calls_of (a ++ b) = calls_of a ++ calls_of b.
Proof.
  induction a as [|[r|d] a IH]; simpl; [reflexivity | rewrite IH; reflexivity | exact IH].
Qed.

Section RetryCost.
Variable llm : nat -> request -> result response.
Variable req : request.
Variable base : Q.
Hypothesis base_nonneg : (0 <= base)%Q.

(** A run of the loop on [create]: [k] calls, all of them with [req],
    and the sleeps of a geometric series. *)
Lemma retry_create_run n : forall i0 last w,
  exists k evs,
    snd (retry_loop (create llm req) base i0 n last w)
    = mkWorld (ncalls w + k) (trace w ++ evs) /\
    (k <= n)%nat /\ calls_of evs = repeat req k /\
    match fst (retry_loop (create llm req) base i0 n last w) with
    | Ok r => (1 <= k)%nat /\ llm (ncalls w + k - 1)%nat req = Ok r /\
              (total_sleep evs == base * pow2 i0 * (pow2 (k - 1) - 1))%Q
    | Raise e => k = n /\
              (total_sleep evs == base * pow2 i0 * (pow2 n - 1))%Q
    end.
Proof.
  induction n as [|n IH]; intros i0 last w.
  - exists 0%nat, []. simpl. destruct w as [c tr]. simpl.
    rewrite Nat.add_0_r, app_nil_r.
    destruct last; simpl; (repeat split; [lia | unfold pow2; simpl; ring]).
  - cbn [retry_loop]. unfold try_except. rewrite create_step.
    destruct (llm (ncalls w) req) as [r|e] eqn:E.
    + exists 1%nat, [ECall req]. cbn [fst snd]. repeat split.
      * rewrite Nat.add_1_r. reflexivity.
      * lia.
      * lia.
      * replace (ncalls w + 1 - 1)%nat with (ncalls w) by lia. exact E.
      * simpl. unfold pow2. simpl. ring.
    + unfold bind. rewrite sleep_backoff_ok by exact base_nonneg.
      unfold slept. cbn [ncalls trace].
      destruct (IH (S i0) (Some e)
                   (mkWorld (S (ncalls w))
                            ((trace w ++ [ECall req]) ++ [ESleep (base * pow2 i0)])))
        as (k & evs & Hw & Hk & Hc & Hr).
      exists (S k), (ECall req :: ESleep (base * pow2 i0) :: evs).
      split; [|split; [|split]].
      * rewrite Hw. cbn [ncalls trace]. f_equal; [lia|].
        rewrite <- !app_assoc. reflexivity.
      * lia.
      * simpl. rewrite Hc. reflexivity.
      * cbn [ncalls] in Hr.
        destruct (fst (retry_loop (create llm req) base (S i0) n (Some e) _)) as [r|e'].
        -- destruct Hr as (H1 & Hl & Ht). split; [lia|]. split.
           ++ replace (ncalls w + S k - 1)%nat with (S (ncalls w) + k - 1)%nat by lia.
              exact Hl.
           ++ simpl total_sleep. rewrite Ht.
              destruct k as [|j]; [lia|].
              replace (S (S j) - 1)%nat with (S j) by lia.
              replace (S j - 1)%nat with j by lia.
              rewrite !pow2_S. ring.
        -- destruct Hr as (H1 & Ht). split; [lia|].
           simpl total_sleep. rewrite Ht. rewrite !pow2_S. ring.
Qed.

End RetryCost.

Lemma pow2_minus_mono i j : (i <= j)%nat -> (pow2 i - 1 <= pow2 j - 1)%Q.
Proof.
  intros H. unfold Qminus. apply Qplus_le_compat; [apply pow2_mono; exact H|].
  apply Qle_refl.
Qed.

Lemma backoff_le base i j :
  (0 <= base)%Q -> (i <= j)%nat ->
  (base * (pow2 i - 1) <= base * (pow2 j - 1))%Q.
Proof.
  intros Hb H. rewrite (Qmult_comm base (pow2 i - 1)), (Qmult_comm base (pow2 j - 1)).
  apply Qmult_le_compat_r; [apply pow2_minus_mono; exact H | exact Hb].
Qed.

(** X3.  What a retried [ChatCompletion.create] costs, whatever the
    model does: with a base delay that is not negative it makes [k] calls,
    at most [retries], all with the same request; it sleeps
    [base_delay * (2^retries - 1)] seconds at most; when it returns, the
    result is the answer to the last call and it has slept
    [base_delay * (2^(k-1) - 1)]; when it raises, it has made all
    [retries] calls and slept the whole [base_delay * (2^retries - 1)]:
    the last failure is followed by a sleep too. *)
Theorem retry_create_cost (llm : nat -> request -> result response)
        (req : request) (retries : Z) (base_delay : Q) (w : world) :
  (0 <= base_delay)%Q ->
  exists k evs,
    snd (_retry_backoff_call (create llm req) retries base_delay w)
    = mkWorld (ncalls w + k) (trace w ++ evs) /\
    (k <= Z.to_nat retries)%nat /\ calls_of evs = repeat req k /\
    (total_sleep evs <= base_delay * (pow2 (Z.to_nat retries) - 1))%Q /\
    match fst (_retry_backoff_call (create llm req) retries base_delay w) with
    | Ok r => (1 <= k)%nat /\ llm (ncalls w + k - 1)%nat req = Ok r /\
              (total_sleep evs == base_delay * (pow2 (k - 1) - 1))%Q
    | Raise _ => k = Z.to_nat retries /\
              (total_sleep evs == base_delay * (pow2 (Z.to_nat retries) - 1))%Q
    end.
Proof.
  intros Hb. unfold _retry_backoff_call.
  destruct (retry_create_run llm req Hb (Z.to_nat retries) 0 None w)
    as (k & evs & Hw & Hk & Hc & Hr).
  exists k, evs. split; [exact Hw|]. split; [exact Hk|]. split; [exact Hc|].
  destruct (fst (retry_loop (create llm req) base_delay 0 (Z.to_nat retries) None w))
    as [r|e].
  - destruct Hr as (H1 & Hl & Ht).
    assert (Ht' : (total_sleep evs == base_delay * (pow2 (k - 1) - 1))%Q).
    { rewrite Ht. rewrite pow2_0. ring. }
    split; [|split; [exact H1|split; [exact Hl|exact Ht']]].
    rewrite Ht'. apply backoff_le; [exact Hb | lia].
  - destruct Hr as (H1 & Ht).
    assert (Ht' : (total_sleep evs
                   == base_delay * (pow2 (Z.to_nat retries) - 1))%Q).
    { rewrite Ht. rewrite pow2_0. ring. }
    split; [|split; [exact H1|exact Ht']].
    rewrite Ht'. apply Qle_refl.
Qed.

Lemma retry_create_cost_witness :
  exists k evs,
    snd (_retry_backoff_call (create llm_down req0) 3 1 world0)
    = mkWorld (ncalls world0 + k) (trace world0 ++ evs) /\
    (k <= Z.to_nat 3)%nat /\ calls_of evs = repeat req0 k /\
    (total_sleep evs <= 1 * (pow2 (Z.to_nat 3) - 1))%Q /\
    match fst (_retry_backoff_call (create llm_down req0) 3 1 world0) with
    | Ok r => (1 <= k)%nat /\ llm_down (ncalls world0 + k - 1)%nat req0 = Ok r /\
              (total_sleep evs == 1 * (pow2 (k - 1) - 1))%Q
    | Raise _ => k = Z.to_nat 3 /\
              (total_sleep evs == 1 * (pow2 (Z.to_nat 3) - 1))%Q
    end.
Proof.
  apply (retry_create_cost llm_down req0 3 world0).
  unfold Qle; simpl; lia.
Defined.

(** ** The calls of the pipeline *)

Section RetryTwice.
Variable llm : nat -> request -> result response.
Variable req : request.
Variable base : Q.
Hypothesis base_nonneg : (0 <= base)%Q.

(** The retried call with a budget of two, outcome by outcome. *)
Lemma retry_create_twice w :
  _retry_backoff_call (create llm req) 2 base w =
  match llm (ncalls w) req with
  | Ok r => (Ok r, mkWorld (S (ncalls w)) (trace w ++ [ECall req]))
  | Raise _ =>
      match llm (S (ncalls w)) req with
      | Ok r => (Ok r, mkWorld (S (S (ncalls w)))
                         (trace w ++ [ECall req; ESleep (base * pow2 0); ECall req]))
      | Raise e => (Raise e, mkWorld (S (S (ncalls w)))
                               (trace w ++ [ECall req; ESleep (base * pow2 0);
                                            ECall req; ESleep (base * pow2 1)]))
      end
  end.
Proof.
  unfold _retry_backoff_call. change (Z.to_nat 2) with 2%nat.
  cbn [retry_loop]. unfold try_except, bind, raise.
  rewrite create_step. destruct (llm (ncalls w) req); [reflexivity|].
  rewrite sleep_backoff_ok by exact base_nonneg. unfold slept; cbn [ncalls trace].
  rewrite create_step; cbn [ncalls trace]. rewrite <- !app_assoc; cbn [app].
  destruct (llm (S (ncalls w)) req); [reflexivity|].
  rewrite sleep_backoff_ok by exact base_nonneg. unfold slept; cbn [ncalls trace].
  rewrite <- !app_assoc; cbn [app]. reflexivity.
Qed.

(** What every run of the retried call has in common. *)
Lemma retry_create_summary retries w :
  (1 <= retries) ->
  exists k evs,
    snd (_retry_backoff_call (create llm req) retries base w)
    = mkWorld (ncalls w + k) (trace w ++ evs) /\
    (1 <= k <= Z.to_nat retries)%nat /\ calls_of evs = repeat req k /\
    (total_sleep evs <= base * (pow2 (Z.to_nat retries) - 1))%Q.
Proof.
  intros Hr. unfold _retry_backoff_call.
  destruct (retry_create_run llm req base_nonneg (Z.to_nat retries) 0 None w)
    as (k & evs & Hw & Hk & Hc & Hres).
  exists k, evs. split; [exact Hw|].
  destruct (fst (retry_loop (create llm req) base 0 (Z.to_nat retries) None w))
    as [r|e].
  - destruct Hres as (H1 & _ & Ht). split; [lia|]. split; [exact Hc|].
    rewrite Ht, pow2_0, Qmult_1_r. apply backoff_le; [exact base_nonneg | lia].
  - destruct Hres as (H1 & Ht). split; [lia|]. split; [exact Hc|].
    rewrite Ht, pow2_0, Qmult_1_r. apply Qle_refl.
Qed.

End RetryTwice.

Lemma Q08 : (0 <= 8 # 10)%Q.
Proof. unfold Qle; simpl; lia. Qed.

Section PipelineFacts.
Context {rt : Runtime}.
Variable llm : nat -> request -> result response.

(** [classify_email] in one piece: the retried call, then the reading
    of its response, with the heuristic wherever something raises. *)
Lemma classify_email_run email mt temp w :
  classify_email llm email mt temp w =
  match _retry_backoff_call (create llm (classify_request email mt temp)) 3 1 w with
  | (Ok resp, w1) =>
      (Ok match classify_response email resp with
          | Ok c => c
          | Raise _ => heuristics_fallback_classify email
          end, w1)
  | (Raise _, w1) => (Ok (heuristics_fallback_classify email), w1)
  end.
Proof.
  unfold classify_email, try_except, classify_try, bind, lift, ret, classify_response.
  destruct (_retry_backoff_call _ _ _ w) as [[resp|e] w1]; [|reflexivity].
  destruct (content_strip resp) as [t|e]; [|reflexivity].
  destruct (_extract_json_from_text (PStr t)) as [parsed|e]; [|reflexivity].
  destruct (classify_parsed email parsed); reflexivity.
Qed.

(** The reply [generate_response] keeps of a response for the category
    "Improdutivo". *)
Lemma generate_improdutivo_run email summary mt w :
  generate_response llm email (PStr Improdutivo) summary mt w =
  match _retry_backoff_call (create llm (improdutivo_request email mt)) 2 (8 # 10) w with
  | (Ok resp, w1) =>
      (Ok match content_strip resp with
          | Ok reply => if len reply <? 30 then TEMPLATE_Improdutivo else reply
          | Raise _ => TEMPLATE_Improdutivo
          end, w1)
  | (Raise _, w1) => (Ok TEMPLATE_Improdutivo, w1)
  end.
Proof.
  unfold generate_response.
  replace (is_improdutivo (PStr Improdutivo)) with true
    by (symmetry; apply is_improdutivo_true; reflexivity).
  unfold try_except, bind, lift, ret, raise.
  destruct (_retry_backoff_call _ _ _ w) as [[resp|e] w1]; [|reflexivity].
  destruct (content_strip resp) as [reply|e]; [|reflexivity].
  destruct (len reply <? 30); reflexivity.
Qed.

Lemma generate_produtivo_run email category summary mt w :
  is_improdutivo category = false ->
  generate_response llm email category summary mt w =
  match _retry_backoff_call (create llm (produtivo_request email summary mt)) 3 1 w with
  | (Ok resp, w1) => (Ok (reply_or TEMPLATE_Produtivo resp), w1)
  | (Raise _, w1) => (Ok TEMPLATE_Produtivo, w1)
  end.
Proof.
  intros Hc. unfold generate_response. rewrite Hc.
  unfold try_except, bind, lift, ret, raise, reply_or.
  destruct (_retry_backoff_call _ _ _ w) as [[resp|e] w1]; [|reflexivity].
  destruct (content_strip resp) as [reply|e]; [|reflexivity].
  destruct (str_eqb reply []); reflexivity.
Qed.

Lemma reply_or_nonempty resp : reply_or TEMPLATE_Produtivo resp <> [].
Proof.
  unfold reply_or. destruct (content_strip resp) as [reply|e].
  - destruct (str_eqb reply []) eqn:E.
    + apply len_pos_nonempty, templates_long.
    + apply str_eqb_neq. exact E.
  - apply len_pos_nonempty, templates_long.
Qed.

End PipelineFacts.

(** X4.  The calls of [classify_email], whatever the model does: between
    one and three calls, every one of them with the classification
    prompt of the anonymized e-mail, and seven seconds of sleep at most.
    An answer of the model ends the calls even when nothing can be made
    of it: once the first call has returned, no second call is made and
    nothing is slept. *)
Theorem classify_email_cost (rt : Runtime)
        (llm : nat -> request -> result response)
        (email_text : pystr) (max_tokens : Z) (temperature : Q) (w : world) :
  let req := classify_request email_text max_tokens temperature in
  exists k evs,
    snd (classify_email llm email_text max_tokens temperature w)
    = mkWorld (ncalls w + k) (trace w ++ evs) /\
    (1 <= k <= 3)%nat /\ calls_of evs = repeat req k /\
    (total_sleep evs <= 7)%Q /\
    (forall resp, llm (ncalls w) req = Ok resp -> evs = [ECall req]).
Proof.
  intros req. rewrite classify_email_run. fold req.
  rewrite (retry_create_3 llm req Q01 w). cbv zeta.
  destruct (llm (ncalls w) req) as [r|e0] eqn:E0.
  - exists 1%nat, [ECall req]. cbn [snd]. rewrite Nat.add_1_r.
    split; [reflexivity|]. split; [lia|]. split; [reflexivity|].
    split; [vm_compute; discriminate|]. intros; reflexivity.
  - destruct (llm (S (ncalls w)) req) as [r|e1] eqn:E1.
    + exists 2%nat, [ECall req; ESleep (1 * pow2 0); ECall req]. cbn [snd].
      replace (ncalls w + 2)%nat with (S (S (ncalls w))) by lia.
      split; [reflexivity|]. split; [lia|]. split; [reflexivity|].
      split; [vm_compute; discriminate|]. intros resp H; discriminate H.
    + destruct (llm (S (S (ncalls w))) req) as [r|e2] eqn:E2.
      * exists 3%nat, [ECall req; ESleep (1 * pow2 0); ECall req;
                       ESleep (1 * pow2 1); ECall req]. cbn [snd].
        replace (ncalls w + 3)%nat with (S (S (S (ncalls w)))) by lia.
        split; [reflexivity|]. split; [lia|]. split; [reflexivity|].
        split; [vm_compute; discriminate|]. intros resp H; discriminate H.
      * exists 3%nat, [ECall req; ESleep (1 * pow2 0); ECall req;
                       ESleep (1 * pow2 1); ECall req; ESleep (1 * pow2 2)].
        cbn [snd].
        replace (ncalls w + 3)%nat with (S (S (S (ncalls w)))) by lia.
        split; [reflexivity|]. split; [lia|]. split; [reflexivity|].
        split; [vm_compute; discriminate|]. intros resp H; discriminate H.
Qed.

(** X5.  The calls of [generate_response] for the category
    "Improdutivo": one or two calls, each with the improductive prompt
    of the anonymized e-mail, a sleep of 0.8 s after the first failure
    and of 1.6 s after the second.  A reply that is too short or cannot
    be read is not asked for again; and when both calls fail the result
    is the static template, after 2.4 s of sleep in all. *)
Theorem generate_response_improdutivo_cost (rt : Runtime)
        (llm : nat -> request -> result response)
        (email_text : pyobj) (summary : option pystr)
        (max_tokens : Z) (w : world) :
  let req := improdutivo_request email_text max_tokens in
  let out := generate_response llm email_text (PStr (u "Improdutivo"))
                               summary max_tokens w in
  (exists k evs,
      snd out = mkWorld (ncalls w + k) (trace w ++ evs) /\
      (1 <= k <= 2)%nat /\ calls_of evs = repeat req k /\
      (total_sleep evs <= 24 # 10)%Q /\
      (forall resp, llm (ncalls w) req = Ok resp -> evs = [ECall req]))
  /\
  ((forall i, (i < 2)%nat -> exists e, llm (ncalls w + i)%nat req = Raise e) ->
   out = (Ok TEMPLATE_Improdutivo,
          mkWorld (ncalls w + 2)
            (trace w ++ [ECall req; ESleep (8 # 10); ECall req; ESleep (16 # 10)]))).
Proof.
  intros req out. unfold out.
  change (PStr (u "Improdutivo")) with (PStr Improdutivo).
  rewrite generate_improdutivo_run. fold req.
  rewrite (retry_create_twice llm req Q08 w). split.
  - destruct (llm (ncalls w) req) as [r|e0] eqn:E0.
    + exists 1%nat, [ECall req]. cbn [snd]. rewrite Nat.add_1_r.
      split; [reflexivity|]. split; [lia|]. split; [reflexivity|].
      split; [vm_compute; discriminate|]. intros; reflexivity.
    + destruct (llm (S (ncalls w)) req) as [r|e1] eqn:E1.
      * exists 2%nat, [ECall req; ESleep ((8 # 10) * pow2 0); ECall req].
        cbn [snd]. replace (ncalls w + 2)%nat with (S (S (ncalls w))) by lia.
        split; [reflexivity|]. split; [lia|]. split; [reflexivity|].
        split; [vm_compute; discriminate|]. intros resp H; discriminate H.
      * exists 2%nat, [ECall req; ESleep ((8 # 10) * pow2 0); ECall req;
                       ESleep ((8 # 10) * pow2 1)].
        cbn [snd]. replace (ncalls w + 2)%nat with (S (S (ncalls w))) by lia.
        split; [reflexivity|]. split; [lia|]. split; [reflexivity|].
        split; [vm_compute; discriminate|]. intros resp H; discriminate H.
  - intros Hfail.
    destruct (Hfail 0%nat) as [e0 E0]; [lia|]. rewrite Nat.add_0_r in E0.
    destruct (Hfail 1%nat) as [e1 E1]; [lia|].
    replace (ncalls w + 1)%nat with (S (ncalls w)) in E1 by lia.
    rewrite E0, E1. replace (ncalls w + 2)%nat with (S (S (ncalls w))) by lia.
    reflexivity.
Qed.

Lemma generate_response_improdutivo_cost_witness :
  let req := improdutivo_request (rt := ascii_runtime) (PStr (u "Bom dia")) 512 in
  generate_response (rt := ascii_runtime) llm_down
    (PStr (u "Bom dia")) (PStr (u "Improdutivo")) None 512 world0
  = (Ok TEMPLATE_Improdutivo,
     mkWorld 2 [ECall req; ESleep (8 # 10); ECall req; ESleep (16 # 10)]).
Proof.
  intros req.
  destruct (generate_response_improdutivo_cost ascii_runtime llm_down
              (PStr (u "Bom dia")) None 512 world0) as (_ & H).
  apply H. intros i _. exists (ApiError 503). reflexivity.
Defined.

(** ** The compatibility entry point *)

Lemma sleep_7 : (1 * (pow2 (Z.to_nat 3) - 1) <= 7)%Q.
Proof. vm_compute. discriminate. Qed.

Lemma sleep_24 : ((8 # 10) * (pow2 (Z.to_nat 2) - 1) <= 7)%Q.
Proof. vm_compute. discriminate. Qed.

Section EntryFacts.
Context {rt : Runtime}.
Variable llm : nat -> request -> result response.

Lemma classify_response_canonical email resp :
  canonical match classify_response email resp with
            | Ok c => c
            | Raise _ => heuristics_fallback_classify email
            end.
Proof.
  unfold classify_response.
  destruct (content_strip resp) as [t|e]; [|apply heuristics_canonical].
  destruct (_extract_json_from_text (PStr t)) as [parsed|e];
    [|apply heuristics_canonical].
  destruct (classify_parsed email parsed) as [c|e] eqn:E;
    [|apply heuristics_canonical].
  apply classify_parsed_canonical with (1 := E).
Qed.

Lemma classify_email_summary email mt temp w :
  exists c k evs,
    classify_email llm email mt temp w
    = (Ok c, mkWorld (ncalls w + k) (trace w ++ evs)) /\
    canonical c /\ (1 <= k <= 3)%nat /\
    calls_of evs = repeat (classify_request email mt temp) k /\
    (total_sleep evs <= 7)%Q.
Proof.
  rewrite classify_email_run.
  destruct (@retry_create_summary llm (classify_request email mt temp) 1 Q01 3 w)
    as (k & evs & Hw & Hk & Hc & Ht); [lia|].
  assert (Ht' : (total_sleep evs <= 7)%Q)
    by (eapply Qle_trans; [exact Ht | exact sleep_7]).
  change (Z.to_nat 3) with 3%nat in Hk.
  destruct (_retry_backoff_call _ _ _ w) as [[resp|e] w1]; cbn [snd] in Hw; subst w1.
  - eexists _, k, evs. split; [reflexivity|].
    split; [apply classify_response_canonical|]. auto.
  - eexists _, k, evs. split; [reflexivity|].
    split; [apply heuristics_canonical|]. auto.
Qed.

Lemma generate_response_summary email category summary mt w :
  exists r k evs,
    generate_response llm email category summary mt w
    = (Ok r, mkWorld (ncalls w + k) (trace w ++ evs)) /\
    r <> [] /\
    (is_improdutivo category = true -> 30 <= len r /\ (k <= 2)%nat) /\
    (1 <= k <= 3)%nat /\
    calls_of evs = repeat (if is_improdutivo category
                           then improdutivo_request email mt
                           else produtivo_request email summary mt) k /\
    (total_sleep evs <= 7)%Q.
Proof.
  destruct (is_improdutivo category) eqn:Hc.
  - apply is_improdutivo_true in Hc. subst category.
    change (PStr (u "Improdutivo")) with (PStr Improdutivo).
    rewrite generate_improdutivo_run.
    destruct (@retry_create_summary llm (improdutivo_request email mt) (8 # 10) Q08 2 w)
      as (k & evs & Hw & Hk & Hcalls & Ht); [lia|].
    assert (Ht' : (total_sleep evs <= 7)%Q)
      by (eapply Qle_trans; [exact Ht | exact sleep_24]).
    change (Z.to_nat 2) with 2%nat in Hk.
    destruct (_retry_backoff_call _ _ _ w) as [[resp|e] w1]; cbn [snd] in Hw; subst w1.
    + eexists _, k, evs. split; [reflexivity|].
      assert (Hl : 30 <= len match content_strip resp with
                             | Ok reply => if len reply <? 30
                                           then TEMPLATE_Improdutivo else reply
                             | Raise _ => TEMPLATE_Improdutivo
                             end).
      { destruct (content_strip resp) as [reply|e]; [|apply templates_long].
        destruct (len reply <? 30) eqn:El; [apply templates_long|].
        apply Z.ltb_ge in El. exact El. }
      split; [apply len_pos_nonempty; exact Hl|].
      split; [intros _; split; [exact Hl | lia]|].
      split; [lia|]. split; [exact Hcalls | exact Ht'].
    + eexists _, k, evs. split; [reflexivity|].
      split; [apply len_pos_nonempty, templates_long|].
      split; [intros _; split; [apply templates_long | lia]|].
      split; [lia|]. split; [exact Hcalls | exact Ht'].
  - rewrite generate_produtivo_run by exact Hc.
    destruct (@retry_create_summary llm (produtivo_request email summary mt) 1 Q01 3 w)
      as (k & evs & Hw & Hk & Hcalls & Ht); [lia|].
    assert (Ht' : (total_sleep evs <= 7)%Q)
      by (eapply Qle_trans; [exact Ht | exact sleep_7]).
    change (Z.to_nat 3) with 3%nat in Hk.
    destruct (_retry_backoff_call _ _ _ w) as [[resp|e] w1]; cbn [snd] in Hw; subst w1.
    + eexists _, k, evs. split; [reflexivity|].
      split; [apply reply_or_nonempty|].
      split; [intros H; discriminate H|]. auto.
    + eexists _, k, evs. split; [reflexivity|].
      split; [apply len_pos_nonempty, templates_long|].
      split; [intros H; discriminate H|]. auto.
Qed.

End EntryFacts.

(** X6.  [call_llm_for_classify_and_respond] always returns a pair: a
    category that is exactly "Produtivo" or "Improdutivo", and a
    suggested response that is not empty, of 30 characters or more when
    the category is "Improdutivo".  On the way it calls the model
    between two and six times, five at most for "Improdutivo": first
    with the classification prompt, with 256 tokens at temperature 0,
    then with the response prompt of that category, with 512 tokens and
    the summary of the classification; and it sleeps 14 s at most. *)
Theorem call_llm_for_classify_and_respond_total (rt : Runtime)
        (llm : nat -> request -> result response)
        (email_text : pystr) (w : world) :
  exists cat suggested k evs,
    call_llm_for_classify_and_respond llm email_text w
    = (Ok (cat, suggested), mkWorld (ncalls w + k) (trace w ++ evs)) /\
    (cat = u "Produtivo" \/ cat = u "Improdutivo") /\
    suggested <> [] /\
    (cat = u "Improdutivo" -> 30 <= len suggested /\ (k <= 5)%nat) /\
    (2 <= k <= 6)%nat /\
    (total_sleep evs <= 14)%Q /\
    exists k1 k2 summary,
      (1 <= k1 <= 3)%nat /\ (1 <= k2 <= 3)%nat /\ k = (k1 + k2)%nat /\
      calls_of evs
      = repeat (classify_request email_text 256 0) k1 ++
        repeat (if str_eqb cat (u "Improdutivo")
                then improdutivo_request (PStr email_text) 512
                else produtivo_request (PStr email_text) (Some summary) 512) k2.
Proof.
  unfold call_llm_for_classify_and_respond, bind, ret.
  destruct (classify_email_summary llm email_text 256 0 w)
    as (c & k1 & evs1 & E1 & [Hcat _] & Hk1 & Hc1 & Ht1).
  rewrite E1.
  destruct (generate_response_summary llm (PStr email_text) (PStr (category c))
              (Some (summary c)) 512 (mkWorld (ncalls w + k1) (trace w ++ evs1)))
    as (r & k2 & evs2 & E2 & Hr & Hi & Hk2 & Hc2 & Ht2).
  rewrite E2. cbn [ncalls trace].
  exists (category c), r, (k1 + k2)%nat, (evs1 ++ evs2).
  split; [rewrite Nat.add_assoc, app_assoc; reflexivity|].
  split; [exact Hcat|]. split; [exact Hr|].
  split.
  { intros Hc. destruct Hi as [Hl Hk].
    - apply is_improdutivo_true. rewrite Hc. reflexivity.
    - split; [exact Hl | lia]. }
  split; [lia|]. split.
  { rewrite total_sleep_app.
    apply Qle_trans with (7 + 7)%Q; [apply Qplus_le_compat; assumption|].
    vm_compute. discriminate. }
  exists k1, k2, (summary c). split; [exact Hk1|]. split; [exact Hk2|].
  split; [reflexivity|].
  rewrite calls_of_app, Hc1, Hc2. reflexivity.
Qed.

Lemma heuristics_category {rt : Runtime} text :
  category (heuristics_fallback_classify text)
  = if str_eqb (category (heuristics_fallback_classify text)) Improdutivo
    then Improdutivo else Produtivo.
Proof.
  unfold heuristics_fallback_classify. destruct (List.find _ _); reflexivity.
Qed.

(** X7.  With a model that is down, every call raising, the pair that
    [call_llm_for_classify_and_respond] returns is made without it: the
    category of the keyword heuristic and the static template of that
    category.  The model has then been called three times for the
    classification and two ("Improdutivo") or three ("Produtivo") times
    for the response, with 9.4 s or 14 s of sleep. *)
Theorem call_llm_for_classify_and_respond_offline (rt : Runtime)
        (llm : nat -> request -> result response)
        (email_text : pystr) (w : world) :
  (forall n r, exists e, llm n r = Raise e) ->
  let h := heuristics_fallback_classify email_text in
  let rc := classify_request email_text 256 0 in
  let ri := improdutivo_request (PStr email_text) 512 in
  let rp := produtivo_request (PStr email_text) (Some (summary h)) 512 in
  call_llm_for_classify_and_respond llm email_text w =
  if str_eqb (category h) (u "Improdutivo")
  then (Ok (u "Improdutivo", TEMPLATE_Improdutivo),
        mkWorld (ncalls w + 5)
          (trace w ++ [ECall rc; ESleep 1; ECall rc; ESleep 2; ECall rc; ESleep 4;
                       ECall ri; ESleep (8 # 10); ECall ri; ESleep (16 # 10)]))
  else (Ok (u "Produtivo", TEMPLATE_Produtivo),
        mkWorld (ncalls w + 6)
          (trace w ++ [ECall rc; ESleep 1; ECall rc; ESleep 2; ECall rc; ESleep 4;
                       ECall rp; ESleep 1; ECall rp; ESleep 2; ECall rp; ESleep 4])).
Proof.
  intros Hdown h rc ri rp.
  unfold call_llm_for_classify_and_respond, bind, ret.
  rewrite classify_email_run. fold rc.
  rewrite (retry_create_3 llm rc Q01 w). cbv zeta.
  destruct (Hdown (ncalls w) rc) as [e0 E0]. rewrite E0.
  destruct (Hdown (S (ncalls w)) rc) as [e1 E1]. rewrite E1.
  destruct (Hdown (S (S (ncalls w))) rc) as [e2 E2]. rewrite E2.
  fold h. change (u "Improdutivo") with Improdutivo.
  assert (Hcat : category h
                 = if str_eqb (category h) Improdutivo
                   then Improdutivo else Produtivo)
    by apply heuristics_category.
  destruct (str_eqb (category h) Improdutivo) eqn:Ec; rewrite Hcat.
  - rewrite generate_improdutivo_run. fold ri.
    rewrite (retry_create_twice llm ri Q08). cbn [ncalls trace].
    destruct (Hdown (S (S (S (ncalls w)))) ri) as [e3 E3]. rewrite E3.
    destruct (Hdown (S (S (S (S (ncalls w))))) ri) as [e4 E4]. rewrite E4.
    rewrite <- app_assoc. cbn [app].
    replace (ncalls w + 5)%nat with (S (S (S (S (S (ncalls w)))))) by lia.
    reflexivity.
  - rewrite generate_produtivo_run by (vm_compute; reflexivity). fold rp.
    rewrite (retry_create_3 llm rp Q01). cbv zeta. cbn [ncalls trace].
    destruct (Hdown (S (S (S (ncalls w)))) rp) as [e3 E3]. rewrite E3.
    destruct (Hdown (S (S (S (S (ncalls w))))) rp) as [e4 E4]. rewrite E4.
    destruct (Hdown (S (S (S (S (S (ncalls w)))))) rp) as [e5 E5]. rewrite E5.
    rewrite <- app_assoc. cbn [app].
    replace (ncalls w + 6)%nat with (S (S (S (S (S (S (ncalls w))))))) by lia.
    reflexivity.
Qed.

Lemma call_llm_for_classify_and_respond_offline_witness :
  fst (call_llm_for_classify_and_respond (rt := ascii_runtime) llm_down
         (u "Erro no sistema") world0)
  = Ok (u "Produtivo", TEMPLATE_Produtivo)
  /\
  fst (call_llm_for_classify_and_respond (rt := ascii_runtime) llm_down
         (u "Bom dia, obrigado") world0)
  = Ok (u "Improdutivo", TEMPLATE_Improdutivo).
Proof.
  assert (Hdown : forall (n : nat) (r : request), exists e, llm_down n r = Raise e)
    by (intros n r; exists (ApiError 503); reflexivity).
  split.
  - rewrite (call_llm_for_classify_and_respond_offline ascii_runtime llm_down
               (u "Erro no sistema") world0 Hdown).
    vm_compute. reflexivity.
  - rewrite (call_llm_for_classify_and_respond_offline ascii_runtime llm_down
               (u "Bom dia, obrigado") world0 Hdown).
    vm_compute. reflexivity.
Defined.

(** ** nlp_utils.py: cleaning *)

Lemma many_greedy p prev s :
  many p (fun (_ : option Z) rest => Some rest) prev s
  = Some ((fix drop (s : pystr) : pystr :=
             match s with
             | c :: s' => if p c then drop s' else s
             | [] => []
             end) s).
Proof.
  revert prev. induction s as [|c s IH]; intros prev; [reflexivity|].
  cbn [many]. destruct (p c); [|reflexivity]. rewrite IH. reflexivity.
Qed.

Lemma space_run_length s :
  List.length s = (space_run s + List.length (lstrip s))%nat.
Proof.
  induction s as [|c s IH]; [reflexivity|].
  cbn [space_run lstrip]. destruct (is_space c); [|reflexivity].
  cbn [List.length]. rewrite IH. lia.
Qed.

Lemma match_len_spaces prev c s :
  match_len (Many1 is_space) prev (c :: s)
  = if is_space c then Some (S (space_run s)) else None.
Proof.
  unfold match_len, match_here, Many1. cbn [run].
  destruct (is_space c); [|reflexivity].
  rewrite many_greedy. fold lstrip. f_equal.
  cbn [List.length]. rewrite (space_run_length s). lia.
Qed.

Lemma sub_spaces s :
  (forall prev, sub_aux (Many1 is_space) [32] 0 prev s = squeeze false s) /\
  (forall prev, sub_aux (Many1 is_space) [32] (space_run s) prev s = squeeze true s).
Proof.
  induction s as [|c s [IH0 IH1]]; [split; reflexivity|].
  assert (H0 : forall prev,
             sub_aux (Many1 is_space) [32] 0 prev (c :: s) = squeeze false (c :: s)).
  { intros prev. cbn [sub_aux squeeze]. rewrite match_len_spaces.
    destruct (is_space c).
    - rewrite IH1. reflexivity.
    - rewrite IH0. reflexivity. }
  split; [exact H0|]. intros prev. cbn [space_run].
  destruct (is_space c) eqn:E.
  - cbn [sub_aux squeeze]. rewrite E. apply IH1.
  - rewrite H0. cbn [squeeze]. rewrite E. reflexivity.
Qed.

Lemma join_one sep w : join sep [w] = w.
Proof. reflexivity. Qed.

Lemma join_cons sep w l :
  l <> [] -> join sep (w :: l) = w ++ sep ++ join sep l.
Proof. destruct l; [contradiction | reflexivity]. Qed.

(** A squeezed text is the words of the text joined by single spaces,
    between whitespace. *)
Lemma squeeze_join s :
  (forall b, exists pre post,
      squeeze b s = pre ++ join [32] (split_aux [] s) ++ post /\
      Forall (fun c => is_space c = true) pre /\
      Forall (fun c => is_space c = true) post /\
      (b = true -> pre = [])) /\
  (forall cur, cur <> [] ->
     exists post,
       rev cur ++ squeeze false s = join [32] (split_aux cur s) ++ post /\
       Forall (fun c => is_space c = true) post).
Proof.
  induction s as [|c s [IHP IHQ]].
  - split.
    + intros b. exists [], []. simpl. auto.
    + intros cur Hc. exists []. destruct cur as [|x cur]; [contradiction|].
      cbn [split_aux squeeze]. rewrite join_one, !app_nil_r. auto.
  - split.
    + intros b. cbn [squeeze split_aux]. destruct (is_space c) eqn:E.
      * destruct (IHP true) as (pre & post & Hs & Hpre & Hpost & Hb).
        rewrite (Hb eq_refl) in Hs. cbn [app] in Hs.
        destruct b.
        -- exists [], post. rewrite Hs. auto.
        -- exists [32], post. rewrite Hs. split; [reflexivity|].
           split; [constructor; [reflexivity | constructor]|].
           split; [exact Hpost|]. intros H; discriminate H.
      * destruct (IHQ [c]) as (post & Hs & Hpost); [discriminate|].
        cbn [rev app] in Hs. exists [], post. rewrite Hs. auto.
    + intros cur Hc. cbn [squeeze split_aux]. destruct (is_space c) eqn:E.
      * destruct (IHP true) as (pre & post & Hs & Hpre & Hpost & Hb).
        rewrite (Hb eq_refl) in Hs. cbn [app] in Hs.
        destruct cur as [|x cur]; [contradiction|]. cbv iota.
        destruct (split_aux [] s) as [|w l] eqn:El.
        -- exists (32 :: post). rewrite Hs. cbn [join app]. split; [reflexivity|].
           constructor; [reflexivity | exact Hpost].
        -- exists post. rewrite Hs.
           change (join [32] (rev (x :: cur) :: w :: l))
             with (rev (x :: cur) ++ [32] ++ join [32] (w :: l)).
           rewrite <- !app_assoc. cbn [app]. auto.
      * destruct (IHQ (c :: cur)) as (post & Hs & Hpost); [discriminate|].
        exists post. cbn [rev] in Hs. rewrite <- app_assoc in Hs. cbn [app] in Hs.
        auto.
Qed.

Lemma split_words s : Forall word (split s).
Proof.
  apply Forall_forall. intros w H. unfold split in H.
  destruct (@split_aux_chars s [] w (Forall_nil _) H) as [H1 H2].
  split; [exact H1|]. apply Forall_forall. intros c Hc. apply (H2 c Hc).
Qed.

Lemma last_or_some prev a m : exists z, last_or prev (a :: m) = Some z /\ In z (a :: m).
Proof.
  revert prev a. induction m as [|b m IH]; intros prev a.
  - exists a. simpl. auto.
  - destruct (IH (Some a) b) as (z & Hz & Hin). exists z. split; [exact Hz|].
    right. exact Hin.
Qed.

Lemma word_tight w : word w -> tight w.
Proof.
  intros [Hne Hall]. rewrite Forall_forall in Hall. split.
  - intros a H. destruct w as [|x w]; [discriminate|]. inversion H; subst.
    apply Hall. left. reflexivity.
  - intros z H. destruct w as [|x w]; [discriminate|].
    destruct (last_or_some None x w) as (z' & Hz & Hin).
    rewrite Hz in H. inversion H; subst. apply Hall. exact Hin.
Qed.

Lemma join_tight l : Forall word l -> tight (join [32] l).
Proof.
  induction l as [|w l IH]; intros H.
  - split; intros ? E; discriminate E.
  - inversion H as [|? ? Hw Hl]; subst. destruct l as [|w' l].
    + rewrite join_one. apply word_tight. exact Hw.
    + rewrite join_cons by discriminate. specialize (IH Hl).
      destruct (word_tight Hw) as [Hh _]. destruct IH as [_ Hlast]. split.
      * intros a E. apply Hh. destruct Hw as [Hne _].
        destruct w as [|x w]; [contradiction|]. exact E.
      * intros z E. apply Hlast.
        rewrite app_assoc, last_or_app in E.
        assert (Hj : join [32] (w' :: l) <> []).
        { inversion Hl as [|? ? [Hne' _] _]; subst.
          destruct l; [rewrite join_one; exact Hne'|].
          rewrite join_cons by discriminate.
          destruct w'; [contradiction | discriminate]. }
        rewrite last_or_nonempty in E by exact Hj. exact E.
Qed.

Lemma lstrip_spaces pre s :
  Forall (fun c => is_space c = true) pre -> lstrip (pre ++ s) = lstrip s.
Proof.
  induction 1 as [|c pre Hc _ IH]; [reflexivity|].
  cbn [app lstrip]. rewrite Hc. exact IH.
Qed.

Lemma lstrip_tight s :
  (forall a, hd_error s = Some a -> is_space a = false) -> lstrip s = s.
Proof.
  intros H. destruct s as [|a s]; [reflexivity|].
  cbn [lstrip]. rewrite (H a eq_refl). reflexivity.
Qed.

Lemma hd_rev (s : pystr) : hd_error (rev s) = last_or None s.
Proof.
  assert (G : forall prev, last_or prev s
                           = match hd_error (rev s) with
                             | Some z => Some z
                             | None => prev
                             end).
  { induction s as [|a s IH]; intros prev; [reflexivity|].
    cbn [last_or rev]. rewrite IH.
    destruct (rev s) as [|z r]; reflexivity. }
  rewrite (G None). destruct (hd_error (rev s)); reflexivity.
Qed.

(** [strip] takes the whitespace off both ends and nothing else. *)
Lemma strip_spec pre mid post :
  Forall (fun c => is_space c = true) pre ->
  Forall (fun c => is_space c = true) post ->
  tight mid ->
  strip (pre ++ mid ++ post) = mid.
Proof.
  intros Hpre Hpost [Hh Hl]. unfold strip.
  rewrite lstrip_spaces by exact Hpre.
  destruct mid as [|a mid].
  - cbn [app]. replace (lstrip post) with (@nil Z).
    + reflexivity.
    + rewrite <- (app_nil_r post) at 1. rewrite lstrip_spaces by exact Hpost.
      reflexivity.
  - rewrite (@lstrip_tight ((a :: mid) ++ post))
      by (intros x E; apply Hh; exact E).
    rewrite rev_app_distr. rewrite lstrip_spaces by (apply Forall_rev; exact Hpost).
    rewrite (@lstrip_tight (rev (a :: mid))).
    + apply rev_involutive.
    + intros x E. apply Hl. rewrite <- hd_rev. exact E.
Qed.

Lemma split_replace_char c s : is_space c = true ->
  forall cur, split_aux cur (replace_char c [32] s) = split_aux cur s.
Proof.
  intros Hc. induction s as [|x s IH]; intros cur; [reflexivity|].
  unfold replace_char in *. cbn [flat_map].
  destruct (x =? c) eqn:E.
  - apply Z.eqb_eq in E. subst x. cbn [app split_aux]. rewrite Hc.
    change (is_space 32) with true. cbv iota.
    rewrite !IH. reflexivity.
  - cbn [app split_aux]. rewrite !IH. reflexivity.
Qed.

(** Squeezed and stripped, a text is its words joined by single spaces. *)
Lemma strip_squeeze s : strip (squeeze false s) = join [32] (split s).
Proof.
  destruct (squeeze_join s) as [HP _].
  destruct (HP false) as (pre & post & Hs & Hpre & Hpost & _).
  rewrite Hs. apply strip_spec; [exact Hpre | exact Hpost |].
  apply join_tight, split_words.
Qed.

(** Writing one space for every run of whitespace squeezes the text. *)
Lemma sub_squeeze s : sub (Many1 is_space) (u " ") s = squeeze false s.
Proof. destruct (sub_spaces s) as [H0 _]. apply H0. Qed.

Lemma split_aux_word w : Forall (fun c => is_space c = false) w ->
  forall cur rest, split_aux cur (w ++ rest) = split_aux (rev w ++ cur) rest.
Proof.
  induction 1 as [|c w Hc _ IH]; intros cur rest; [reflexivity|].
  cbn [app split_aux]. rewrite Hc. rewrite IH. cbn [rev].
  rewrite <- app_assoc. reflexivity.
Qed.

(** Splitting what was joined gives the words back. *)
Lemma split_join l : Forall word l -> split (join [32] l) = l.
Proof.
  unfold split. induction l as [|w l IH]; intros H; [reflexivity|].
  inversion H as [|? ? [Hne Hw] Hl]; subst.
  assert (Hr : rev w <> []).
  { intros E. apply Hne. rewrite <- (rev_involutive w), E. reflexivity. }
  destruct l as [|w' l].
  - rewrite join_one. rewrite <- (app_nil_r w) at 1.
    rewrite split_aux_word by exact Hw. rewrite app_nil_r. cbn [split_aux].
    destruct (rev w) eqn:E; [contradiction|]. rewrite <- E, rev_involutive.
    reflexivity.
  - rewrite join_cons by discriminate. rewrite split_aux_word by exact Hw.
    rewrite app_nil_r. cbn [app split_aux]. change (is_space 32) with true.
    cbv iota. destruct (rev w) eqn:E; [contradiction|].
    rewrite <- E, rev_involutive. rewrite (IH Hl). reflexivity.
Qed.

(** X8.  [clean_text] of a string is its words joined by single spaces:
    [clean_text(text) == " ".join(text.split())]. *)
Theorem clean_text_join (text : pystr) :
  clean_text (PStr text) = join (u " ") (split text).
Proof.
  unfold clean_text. rewrite sub_squeeze, strip_squeeze.
  unfold split. change (u " ") with [32].
  rewrite !split_replace_char by reflexivity. reflexivity.
Qed.

(** X9.  [clean_text] is a normal form: cleaning a cleaned text changes
    nothing, whatever the argument was, and the cleaned text has the
    words of the text. *)
Theorem clean_text_idempotent (text : pyobj) :
  clean_text (PStr (clean_text text)) = clean_text text /\
  split (clean_text text)
  = match text with PStr s => split s | _ => [] end.
Proof.
  destruct text as [s| | |]; try (split; reflexivity).
  assert (Hs : clean_text (PStr s) = join [32] (split s)).
  { unfold clean_text. rewrite sub_squeeze, strip_squeeze.
    unfold split. change (u " ") with [32].
    rewrite !split_replace_char by reflexivity. reflexivity. }
  assert (Hw : split (clean_text (PStr s)) = split s)
    by (rewrite Hs; apply split_join, split_words).
  split; [|exact Hw].
  unfold clean_text at 1. rewrite sub_squeeze, strip_squeeze.
  unfold split at 1. change (u " ") with [32].
  rewrite !split_replace_char by reflexivity. fold (split (clean_text (PStr s))).
  rewrite Hw. symmetry. exact Hs.
Qed.

(** ** nlp_utils.py: the cut *)

Lemma len_firstn (n : nat) (s : pystr) :
  len (firstn n s) = Z.min (Z.of_nat n) (len s).
Proof. unfold len. rewrite length_firstn. lia. Qed.

Lemma len_TRUNCADO : len TRUNCADO = 15.
Proof. reflexivity. Qed.

(** X10.  [preprocess_for_sending] returns the cleaned text when it has
    at most [max_chars] characters.  Otherwise it returns a beginning of
    the cleaned text followed by the marker of 15 characters: the first
    [max_chars] characters, so that the result is longer than
    [max_chars], or, for a negative [max_chars], all but the last
    [-max_chars] characters; a negative [max_chars] marks every text as
    cut, the empty one too. *)
Theorem preprocess_for_sending_spec (text : pyobj) (max_chars : Z) :
  let c := clean_text text in
  let out := preprocess_for_sending text max_chars in
  (len c <= max_chars -> out = c) /\
  (max_chars < len c ->
   exists kept cut,
     c = kept ++ cut /\ out = kept ++ TRUNCADO /\
     len kept = (if 0 <=? max_chars then max_chars
                 else Z.max 0 (len c + max_chars)) /\
     len out = len kept + 15) /\
  (0 <= max_chars -> len out <= max_chars + 15).
Proof.
  intros c out. unfold out, preprocess_for_sending. fold c.
  assert (Hcut : max_chars < len c ->
            exists kept cut,
              c = kept ++ cut /\ py_prefix max_chars c = kept /\
              len kept = (if 0 <=? max_chars then max_chars
                          else Z.max 0 (len c + max_chars))).
  { intros H. unfold py_prefix. destruct (max_chars <? 0) eqn:N.
    - apply Z.ltb_lt in N.
      exists (firstn (List.length c - Z.to_nat (- max_chars)) c),
             (skipn (List.length c - Z.to_nat (- max_chars)) c).
      split; [symmetry; apply firstn_skipn|]. split; [reflexivity|].
      replace (0 <=? max_chars) with false by (symmetry; apply Z.leb_gt; lia).
      rewrite len_firstn. unfold len. lia.
    - apply Z.ltb_ge in N.
      exists (firstn (Z.to_nat max_chars) c), (skipn (Z.to_nat max_chars) c).
      split; [symmetry; apply firstn_skipn|]. split; [reflexivity|].
      replace (0 <=? max_chars) with true by (symmetry; apply Z.leb_le; lia).
      rewrite len_firstn. lia. }
  split; [|split].
  - intros H. replace (len c >? max_chars) with false; [reflexivity|].
    symmetry. rewrite Z.gtb_ltb. apply Z.ltb_ge. exact H.
  - intros H. replace (len c >? max_chars) with true
      by (symmetry; rewrite Z.gtb_ltb; apply Z.ltb_lt; exact H).
    destruct (Hcut H) as (kept & cut & Hc & Hp & Hl).
    exists kept, cut. rewrite Hp. split; [exact Hc|]. split; [reflexivity|].
    split; [exact Hl|]. rewrite len_app, len_TRUNCADO. reflexivity.
  - intros H0. destruct (len c >? max_chars) eqn:G.
    + rewrite Z.gtb_ltb in G. apply Z.ltb_lt in G.
      destruct (Hcut G) as (kept & cut & Hc & Hp & Hl).
      rewrite Hp, len_app, len_TRUNCADO, Hl.
      replace (0 <=? max_chars) with true by (symmetry; apply Z.leb_le; lia).
      lia.
    + rewrite Z.gtb_ltb in G. apply Z.ltb_ge in G. lia.
Qed.

Lemma preprocess_for_sending_spec_witness :
  preprocess_for_sending (PStr (u "Bom dia")) 20 = u "Bom dia" /\
  len (preprocess_for_sending (PStr (u "Bom dia, tudo bem?")) 7) <= 7 + 15.
Proof.
  split.
  - destruct (preprocess_for_sending_spec (PStr (u "Bom dia")) 20) as [H _].
    apply H. vm_compute. discriminate.
  - destruct (preprocess_for_sending_spec (PStr (u "Bom dia, tudo bem?")) 7)
      as (_ & _ & H).
    apply H. lia.
Defined.

(** The cut at work: a text over the bound, and a negative bound. *)
Example preprocess_for_sending_ex :
  preprocess_for_sending (PStr ([32; 32] ++ u "Bom" ++ [32; 10; 9] ++ u "dia, tudo bem? ")) 7
  = u "Bom dia" ++ [10; 10] ++ u "[...TRUNCADO]"
  /\
  preprocess_for_sending (PStr (u "abc")) (-1)
  = u "ab" ++ [10; 10] ++ u "[...TRUNCADO]"
  /\
  preprocess_for_sending PNone (-1) = [10; 10] ++ u "[...TRUNCADO]".
Proof. repeat split; vm_compute; reflexivity. Qed.

(** ** app.py: the file filter *)

Lemma last_cut_unique (c : Z) (pre : pystr) : forall pre' post post',
  pre ++ c :: post = pre' ++ c :: post' ->
  ~ In c post -> ~ In c post' -> pre = pre' /\ post = post'.
Proof.
  induction pre as [|x pre IH]; intros pre' post post' E H H'.
  - destruct pre' as [|y pre'].
    + simpl in E. inversion E. auto.
    + simpl in E. inversion E; subst. exfalso. apply H.
      apply in_or_app. right. left. reflexivity.
  - destruct pre' as [|y pre'].
    + simpl in E. inversion E; subst. exfalso. apply H'.
      apply in_or_app. right. left. reflexivity.
    + simpl in E. inversion E; subst.
      destruct (IH pre' post post' H2 H H') as [E1 E2]. subst. auto.
Qed.

Lemma skipn_past (pre : pystr) c post :
  skipn (Z.to_nat (len pre + 1)) (pre ++ c :: post) = post.
Proof.
  unfold len. replace (Z.to_nat (Z.of_nat (List.length pre) + 1))
    with (S (List.length pre)) by lia.
  rewrite skipn_app. rewrite skipn_all2 by lia.
  replace (S (List.length pre) - List.length pre)%nat with 1%nat by lia.
  reflexivity.
Qed.

Lemma existsb_dot (s : pystr) : existsb (fun c => c =? 46) s = true <-> In 46 s.
Proof.
  rewrite existsb_exists. split.
  - intros (x & Hx & E). apply Z.eqb_eq in E. subst. exact Hx.
  - intros H. exists 46. split; [exact H | reflexivity].
Qed.

(** X11.  [allowed_file] accepts exactly the names that end in a dot
    and an extension without dot whose lower case is "pdf" or "txt":
    only what follows the last dot counts, in any case, and the part
    before it may be empty. *)
Theorem allowed_file_spec (rt : Runtime) (filename : pystr) :
  allowed_file filename = true <->
  exists base ext,
    filename = base ++ [46] ++ ext /\ ~ In 46 ext /\
    (str_lower ext = u "pdf" \/ str_lower ext = u "txt").
Proof.
  unfold allowed_file, after_last_dot, rfind. rewrite andb_true_iff, existsb_dot.
  split.
  - intros [Hdot Hmem].
    destruct (rfind_from_spec 46 filename 0 (-1))
      as [[Hn _] | (pre & post & Hs & Hn & Hf)]; [contradiction|].
    rewrite Hf, Hs in Hmem. rewrite Z.add_0_l, skipn_past in Hmem.
    exists pre, post. split; [exact Hs|]. split; [exact Hn|].
    apply mem_In in Hmem. destruct Hmem as [H|[H|[]]]; [left | right]; symmetry; exact H.
  - intros (base & ext & Hs & Hn & Hext).
    assert (Hdot : In 46 filename).
    { rewrite Hs. apply in_or_app. right. left. reflexivity. }
    split; [exact Hdot|].
    destruct (rfind_from_spec 46 filename 0 (-1))
      as [[Hn' _] | (pre & post & Hs' & Hn' & Hf)]; [contradiction|].
    rewrite Hf. rewrite Hs' at 1. rewrite Z.add_0_l, skipn_past.
    assert (E : pre = base /\ post = ext).
    { apply last_cut_unique with (c := 46); [|exact Hn' | exact Hn].
      rewrite <- Hs'. exact Hs. }
    destruct E as [_ E]. subst post. apply mem_In.
    destruct Hext as [H|H]; rewrite H; [left | right; left]; reflexivity.
Qed.

Example allowed_file_ex :
  map (allowed_file (rt := ascii_runtime))
      (map u ["carta.pdf"; "nota.TXT"; ".pdf"; "a.tar.txt"; "pdf"; "carta.pdf.";
              "carta.pdf.exe"; "carta.docx"])
  = [true; true; true; true; false; false; false; false].
Proof. vm_compute. reflexivity. Qed.

(** ** [re.sub] where nothing matches *)

Lemma occurs_shift r prev c s : Occurs r (Some c) s -> Occurs r prev (c :: s).
Proof.
  intros (l & m & t & Hs & Hm). exists (c :: l), m, t.
  split; [rewrite Hs; reflexivity | exact Hm].
Qed.

Lemma match_len_none r prev s :
  ~ Occurs r prev s -> match_len r prev s = None.
Proof.
  intros Hno. unfold match_len.
  destruct (match_here r prev s) as [rest|] eqn:E; [|reflexivity].
  exfalso. apply Hno. destruct (match_here_sound _ _ _ E) as (m & Hs & Hm).
  exists [], m, rest. split; [exact Hs | exact Hm].
Qed.

(** A text in which the pattern does not occur is left as it is. *)
Lemma sub_aux_no_occurrence r rep s : forall prev,
  ~ Occurs r prev s -> sub_aux r rep 0 prev s = s.
Proof.
  induction s as [|c s IH]; intros prev Hno.
  - cbn [sub_aux]. rewrite (match_len_none Hno). reflexivity.
  - cbn [sub_aux]. rewrite (match_len_none Hno). f_equal. apply IH.
    intros H. apply Hno. apply occurs_shift. exact H.
Qed.

Lemma sub_no_occurrence r rep s : ~ Occurs r None s -> sub r rep s = s.
Proof. apply sub_aux_no_occurrence. Qed.

(** An occurrence lies inside the text. *)
Lemma occurs_inside r prev s (need : Z -> bool) :
  (forall prev m t, Matches r prev m t -> exists c, In c m /\ need c = true) ->
  (forall c, In c s -> need c = false) ->
  ~ Occurs r prev s.
Proof.
  intros Hneed Hs (l & m & t & E & Hm).
  destruct (Hneed _ _ _ Hm) as (c & Hc & Hn).
  rewrite (Hs c) in Hn; [discriminate|].
  rewrite E. apply in_or_app. right. apply in_or_app. left. exact Hc.
Qed.

(** ** Runs of a class *)

Lemma Matches_many_chars p m : forall prev t,
  Matches (Many p) prev m t -> Forall (fun c => p c = true) m.
Proof.
  induction m as [|c m IH]; intros prev t H; [constructor|].
  apply Matches_many_inv in H.
  destruct H as [E | (y & m' & E & Hy & HM)]; [discriminate|].
  injection E as Ex Em. subst y m'. constructor; [exact Hy|].
  apply (IH _ _ HM).
Qed.

Lemma Matches_many_intro p m : forall prev t,
  Forall (fun c => p c = true) m -> Matches (Many p) prev m t.
Proof.
  induction m as [|c m IH]; intros prev t H; [constructor|].
  inversion H; subst. apply M_many1; [assumption|]. apply IH. assumption.
Qed.

Lemma Matches_rep_chars p n : forall prev m t,
  Matches (Rep n p) prev m t ->
  List.length m = n /\ Forall (fun c => p c = true) m.
Proof.
  induction n as [|n IH]; intros prev m t H.
  - cbn [Rep] in H. apply Matches_many_chars in H.
    destruct m as [|c m]; [split; [reflexivity | constructor]|].
    inversion H; subst. discriminate.
  - destruct n as [|k].
    + cbn [Rep] in H. apply Matches_cls_inv in H. destruct H as (c & E & Hp).
      subst m. split; [reflexivity|]. constructor; [exact Hp | constructor].
    + change (Rep (S (S k)) p) with (Cat (Cls p) (Rep (S k) p)) in H.
      apply Matches_cat_inv in H. destruct H as (m1 & m2 & E & H1 & H2).
      apply Matches_cls_inv in H1. destruct H1 as (c & E1 & Hp). subst m1 m.
      destruct (IH _ _ _ H2) as [Hl Hf]. split.
      * cbn [app List.length]. rewrite Hl. reflexivity.
      * constructor; assumption.
Qed.

Lemma Matches_rep_intro p n : forall prev m t,
  (1 <= n)%nat -> List.length m = n -> Forall (fun c => p c = true) m ->
  Matches (Rep n p) prev m t.
Proof.
  induction n as [|n IH]; intros prev m t Hn Hl Hf; [lia|].
  destruct m as [|c m]; [discriminate|]. inversion Hf; subst.
  destruct n as [|k].
  - destruct m; [|discriminate]. cbn [Rep]. constructor. assumption.
  - change (Rep (S (S k)) p) with (Cat (Cls p) (Rep (S k) p)).
    change (c :: m) with ([c] ++ m). apply M_cat.
    + constructor. assumption.
    + apply IH; [lia | simpl in Hl; lia | assumption].
Qed.

Section LongNumbers.
Context {rt : Runtime}.

Lemma bounded_intro core prev m t :
  Matches core prev m t ->
  boundary is_word prev (m ++ t) = true ->
  boundary is_word (last_or prev m) t = true ->
  Matches (bounded core) prev m t.
Proof.
  intros Hc Hb1 Hb2. unfold bounded.
  replace m with ([] ++ (m ++ [])) by (cbn [app]; apply app_nil_r).
  apply M_cat.
  - constructor. rewrite app_nil_r. exact Hb1.
  - apply M_cat.
    + exact Hc.
    + constructor. exact Hb2.
Qed.

(** A run of [n >= 6] digits between word boundaries is a match of
    [\b\d{6,}\b]. *)
Lemma long_run_is_d6 n prev m t :
  (6 <= n)%nat -> Matches (bounded (dg n)) prev m t -> Matches re_d6 prev m t.
Proof.
  intros Hn H. destruct (bounded_inv H) as (Hc & Hb1 & Hb2).
  unfold dg in Hc. apply Matches_rep_chars in Hc. destruct Hc as [Hl Hf].
  apply bounded_intro; [|exact Hb1 | exact Hb2].
  unfold core_d6. rewrite <- (firstn_skipn 6 m) in Hf |- *.
  apply Forall_app in Hf. destruct Hf as [Hf1 Hf2].
  apply M_cat.
  - unfold dg. apply Matches_rep_intro; [lia | | exact Hf1].
    rewrite length_firstn. lia.
  - apply Matches_many_intro. exact Hf2.
Qed.

Lemma no_d6_no_run n prev s :
  (6 <= n)%nat -> ~ Occurs re_d6 prev s -> ~ Occurs (bounded (dg n)) prev s.
Proof.
  intros Hn Hno (l & m & t & E & Hm). apply Hno.
  exists l, m, t. split; [exact E|]. apply long_run_is_d6 with (n := n); assumption.
Qed.

End LongNumbers.

(** ** The anonymizer on its own output and on plain text *)

Lemma email_needs_at prev m t :
  Matches re_email prev m t -> exists c, In c m /\ (c =? 64) = true.
Proof.
  intros HM. unfold re_email in HM. simpl seq in HM.
  apply Matches_cat_inv in HM. destruct HM as (m1 & m2 & E & _ & HM). subst m.
  apply Matches_cat_inv in HM. destruct HM as (m3 & m4 & E & HM & _). subst m2.
  apply Matches_cls_inv in HM. destruct HM as (c & E & Hc). subst m3.
  exists c. split; [|exact Hc].
  apply in_or_app. right. left. reflexivity.
Qed.

Section AnonymizerAgain.
Context {rt : Runtime}.

Lemma bounded_needs_digit core prev m t :
  StartsWith is_digit core -> EndsWith is_digit core ->
  Matches (bounded core) prev m t -> exists c, In c m /\ is_digit c = true.
Proof.
  intros Hs He HM.
  destruct (bounded_edges Hs He HM) as ((c & m' & E & Hd) & _).
  exists c. split; [subst m; left; reflexivity | exact Hd].
Qed.

(** The six substitutions, hypothesis by hypothesis. *)
Lemma anonymize_text_unchanged s :
  ~ Occurs re_email None s -> ~ Occurs re_cpf None s ->
  ~ Occurs re_d11 None s -> ~ Occurs re_cnpj None s ->
  ~ Occurs re_d14 None s -> ~ Occurs re_d6 None s ->
  anonymize_text (PStr s) = s.
Proof.
  intros H1 H2 H3 H4 H5 H6. cbn [anonymize_text].
  rewrite (@sub_no_occurrence re_email EMAIL_REMOVIDO s H1).
  rewrite (@sub_no_occurrence re_cpf PII_REMOVIDO s H2).
  rewrite (@sub_no_occurrence re_d11 PII_REMOVIDO s H3).
  rewrite (@sub_no_occurrence re_cnpj PII_REMOVIDO s H4).
  rewrite (@sub_no_occurrence re_d14 PII_REMOVIDO s H5).
  apply (@sub_no_occurrence re_d6 NUM_REMOVIDO s H6).
Qed.

Lemma anonymize_text_fixed s :
  anonymize_text (PStr (anonymize_text (PStr s))) = anonymize_text (PStr s).
Proof.
  pose proof (anonymize_text_no_occurrence s) as H. cbv zeta in H.
  destruct H as (H1 & H2 & H4 & H6).
  apply anonymize_text_unchanged; try assumption.
  - apply no_d6_no_run; [lia | exact H6].
  - apply no_d6_no_run; [lia | exact H6].
Qed.

Lemma anonymize_text_plain_text s :
  (forall c, In c s -> (c =? 64) = false) ->
  (forall c, In c s -> is_digit c = false) ->
  anonymize_text (PStr s) = s.
Proof.
  intros Hat Hd.
  destruct cores_start as (S1 & S2 & S3 & S4 & S5).
  destruct cores_end as (E1 & E2 & E3 & E4 & E5).
  apply anonymize_text_unchanged.
  - apply occurs_inside with (need := fun c => c =? 64);
      [apply email_needs_at | exact Hat].
  - apply occurs_inside with (need := is_digit); [|exact Hd].
    intros prev m t. apply bounded_needs_digit; assumption.
  - apply occurs_inside with (need := is_digit); [|exact Hd].
    intros prev m t. apply bounded_needs_digit; assumption.
  - apply occurs_inside with (need := is_digit); [|exact Hd].
    intros prev m t. apply bounded_needs_digit; assumption.
  - apply occurs_inside with (need := is_digit); [|exact Hd].
    intros prev m t. apply bounded_needs_digit; assumption.
  - apply occurs_inside with (need := is_digit); [|exact Hd].
    intros prev m t. apply bounded_needs_digit; assumption.
Qed.

End AnonymizerAgain.

(** X12.  [anonymize_text] is idempotent: its output has nothing left to
    replace, so anonymizing it again gives the same text; the
    replacement texts are themselves left alone. *)
Theorem anonymize_text_idempotent (rt : Runtime) (text : pyobj) :
  anonymize_text (PStr (anonymize_text text)) = anonymize_text text.
Proof.
  destruct text as [s| | |]; try reflexivity.
  apply anonymize_text_fixed.
Qed.

(** X13.  A text with no [@] and no digit goes through [anonymize_text]
    unchanged: nothing but e-mail addresses and numbers is touched. *)
Theorem anonymize_text_plain (rt : Runtime) (text : pystr) :
  (forall c, In c text -> c <> 64 /\ is_digit c = false) ->
  anonymize_text (PStr text) = text.
Proof.
  intros H. apply anonymize_text_plain_text.
  - intros c Hc. apply Z.eqb_neq. apply (H c Hc).
  - intros c Hc. apply (H c Hc).
Qed.

Lemma anonymize_text_plain_witness :
  anonymize_text (rt := ascii_runtime) (PStr (u "Bom dia, tudo bem?"))
  = u "Bom dia, tudo bem?".
Proof.
  apply anonymize_text_plain. intros c H. vm_compute in H.
  repeat (destruct H as [H|H]; [subst c; split; [discriminate | reflexivity]|]).
  destruct H.
Defined.

(** ** The clean-up of a JSON candidate *)

Lemma replace_char_absent a b s : ~ In a s -> replace_char a b s = s.
Proof.
  unfold replace_char. induction s as [|x s IH]; intros H; [reflexivity|].
  cbn [flat_map]. destruct (x =? a) eqn:E.
  - apply Z.eqb_eq in E. exfalso. apply H. left. exact E.
  - cbn [app]. f_equal. apply IH. intros Hin. apply H. right. exact Hin.
Qed.

Lemma comma_needed (close : Z) prev m t :
  Matches (seq [Lit 44; Many is_space; Lit close]) prev m t ->
  exists c, In c m /\ (c =? 44) = true.
Proof.
  intros HM. simpl seq in HM.
  apply Matches_cat_inv in HM. destruct HM as (m1 & m2 & E & HM & _). subst m.
  apply Matches_cls_inv in HM. destruct HM as (c & E & Hc). subst m1.
  exists c. split; [left; reflexivity | exact Hc].
Qed.

Lemma json_cleaned_plain cand :
  ~ In 39 cand -> ~ In 44 cand -> json_cleaned cand = cand.
Proof.
  intros Hq Hc. unfold json_cleaned.
  rewrite (@replace_char_absent 39 dq cand Hq).
  assert (Hno : forall c, In c cand -> (c =? 44) = false).
  { intros c Hin. apply Z.eqb_neq. intros E. subst c. contradiction. }
  rewrite (@sub_no_occurrence (seq [Lit 44; Many is_space; Lit 125]) (u "}") cand)
    by (apply occurs_inside with (need := fun c => c =? 44);
        [apply comma_needed | exact Hno]).
  apply sub_no_occurrence.
  apply occurs_inside with (need := fun c => c =? 44);
    [apply comma_needed | exact Hno].
Qed.

(** X14.  The clean-up of [_extract_json_from_text] changes single
    quotes and commas only: for a candidate with neither, the second
    [json.loads] reads the very same text, so the result, a failure
    included, is that of [json.loads] on the candidate. *)
Theorem extract_json_plain_candidate (rt : Runtime) (pre mid post : pystr) :
  ~ In 123 pre -> ~ In 125 post -> ~ In 39 mid -> ~ In 44 mid ->
  _extract_json_from_text (PStr (pre ++ [123] ++ mid ++ [125] ++ post))
  = json_loads ([123] ++ mid ++ [125]).
Proof.
  intros Hpre Hpost Hq Hc. rewrite extract_span by assumption.
  unfold loads_with_cleanup. rewrite json_cleaned_plain.
  - destruct (json_loads ([123] ++ mid ++ [125])); reflexivity.
  - intros H. cbn [app] in H. destruct H as [H|H]; [discriminate|].
    apply in_app_or in H. destruct H as [H|[H|[]]]; [contradiction | discriminate].
  - intros H. cbn [app] in H. destruct H as [H|H]; [discriminate|].
    apply in_app_or in H. destruct H as [H|[H|[]]]; [contradiction | discriminate].
Qed.

Ltac not_among H :=
  vm_compute in H; repeat (destruct H as [H|H]; [discriminate H|]); exact H.

Lemma extract_json_plain_candidate_witness :
  _extract_json_from_text (rt := ascii_runtime)
    (PStr (u "Segue: " ++ [123] ++ js "'category': 'Produtivo' 'confidence': 1"
             ++ [125] ++ u " fim"))
  = Raise JSONDecodeError.
Proof.
  rewrite extract_json_plain_candidate.
  - vm_compute. reflexivity.
  - intros H. not_among H.
  - intros H. not_among H.
  - intros H. not_among H.
  - intros H. not_among H.
Defined.

(** ** The keyword heuristic: a keyword that never counts *)

Lemma starts_with_app_l a : forall b t,
  starts_with (a ++ b) t = true -> starts_with a t = true.
Proof.
  induction a as [|x a IH]; intros b t H; [reflexivity|].
  destruct t as [|y t]; [discriminate|]. simpl in H |- *.
  apply andb_true_iff in H. destruct H as [H1 H2].
  rewrite H1. apply (IH b t H2).
Qed.

Lemma contains_app_l a b : forall t,
  contains t (a ++ b) = true -> contains t a = true.
Proof.
  induction t as [|x t IH]; intros H; simpl in H |- *.
  - rewrite orb_false_r in H. rewrite (starts_with_app_l _ _ _ H). reflexivity.
  - apply orb_true_iff in H. destruct H as [H|H].
    + rewrite (starts_with_app_l _ _ _ H). reflexivity.
    + rewrite (IH H). apply orb_true_r.
Qed.

Lemma find_first_true (A : Type) (f : A -> bool) before x after :
  f x = true ->
  exists z, List.find f (before ++ x :: after) = Some z /\ In z (before ++ [x]).
Proof.
  intros Hx. induction before as [|y before IH]; simpl.
  - rewrite Hx. exists x. auto.
  - destruct (f y).
    + exists y. auto.
    + destruct IH as (z & Hz & Hin). exists z. auto.
Qed.

Lemma atualizacao_shadowed t :
  contains t (u "atualização") = true -> contains t (u "atualiza") = true.
Proof.
  change (u "atualização") with (u "atualiza" ++ u "ção").
  apply contains_app_l.
Qed.

(** X15.  The keyword "atualização" of [_PRODUCTIVE_KEYWORDS] never
    counts: "atualiza", which stands before it in the list, occurs
    wherever it does.  So the summary of the heuristic never names it,
    and a text in which none of the other twelve keywords occurs is
    "Improdutivo". *)
Theorem heuristics_keyword_shadowed (rt : Runtime) (text : pystr) :
  let h := heuristics_fallback_classify text in
  summary h <> u "Contém palavra-chave indicativa: 'atualização'"
  /\
  ((forall k, In k _PRODUCTIVE_KEYWORDS -> k <> u "atualização" ->
              contains (str_lower text) k = false) ->
   h = mkClassification (u "Improdutivo") (FFin (55 # 100))
         (u "Nenhuma palavra-chave produtiva detectada")).
Proof.
  intros h. unfold h, heuristics_fallback_classify. split.
  - destruct (List.find _ _PRODUCTIVE_KEYWORDS) as [kw|] eqn:F.
    + cbn [summary].
      change (u "Contém palavra-chave indicativa: 'atualização'")
        with (u "Contém palavra-chave indicativa: '" ++ u "atualização" ++ u "'").
      intros E. apply app_inv_head in E. apply app_inv_tail in E. subst kw.
      pose proof (find_some _ _ F) as [_ Hc].
      apply atualizacao_shadowed in Hc.
      change _PRODUCTIVE_KEYWORDS
        with (map u ["erro"; "problema"; "solicit"] ++ u "atualiza" ::
              map u ["atualização"; "status"; "não consigo"; "não funciona";
                     "falha"; "incidente"; "reclama"; "ajuda"; "suporte"]) in F.
      destruct (find_first_true (fun kw => contains (str_lower text) kw)
                  (map u ["erro"; "problema"; "solicit"]) (u "atualiza")
                  (map u ["atualização"; "status"; "não consigo"; "não funciona";
                          "falha"; "incidente"; "reclama"; "ajuda"; "suporte"]) Hc)
        as (z & Hz & Hin).
      rewrite Hz in F. inversion F; subst z.
      vm_compute in Hin.
      repeat (destruct Hin as [Hin|Hin]; [discriminate Hin|]). exact Hin.
    + cbn [summary]. intros E. vm_compute in E. discriminate E.
  - intros Hno. rewrite find_no_match; [reflexivity|].
    intros k Hk. destruct (list_eq_dec Z.eq_dec k (u "atualização")) as [E|E].
    + subst k. destruct (contains (str_lower text) (u "atualização")) eqn:C;
        [|reflexivity].
      apply atualizacao_shadowed in C. rewrite Hno in C; [discriminate| |].
      * vm_compute. auto 6.
      * vm_compute. discriminate.
    + apply Hno; assumption.
Qed.

Lemma heuristics_keyword_shadowed_witness :
  heuristics_fallback_classify (rt := ascii_runtime) (u "Bom dia, obrigado")
  = mkClassification (u "Improdutivo") (FFin (55 # 100))
      (u "Nenhuma palavra-chave produtiva detectada").
Proof.
  destruct (heuristics_keyword_shadowed ascii_runtime (u "Bom dia, obrigado"))
    as [_ H].
  apply H. intros k Hk _. vm_compute in Hk.
  repeat (destruct Hk as [Hk|Hk]; [subst k; vm_compute; reflexivity|]).
  destruct Hk.
Defined.

(** ** nlp_utils.py: the words of [extract_keywords] *)

Lemma blocks_sep p c a : forall cur b,
  p c = false ->
  blocks_aux p cur (a ++ c :: b) = blocks_aux p cur a ++ blocks_aux p [] b.
Proof.
  induction a as [|x a IH]; intros cur b Hc.
  - cbn [app blocks_aux]. rewrite Hc. destruct cur; reflexivity.
  - cbn [app blocks_aux]. destruct (p x).
    + apply IH. exact Hc.
    + destruct cur; rewrite IH by exact Hc; reflexivity.
Qed.

(** The runs of a class without whitespace lie inside the words. *)
Lemma blocks_of_words p :
  (forall c, is_space c = true -> p c = false) ->
  forall s cur,
    blocks p (rev cur ++ s) = flat_map (blocks p) (split_aux cur s).
Proof.
  intros Hp. induction s as [|c s IH]; intros cur.
  - cbn [split_aux]. rewrite app_nil_r. destruct cur as [|x cur]; [reflexivity|].
    cbn [flat_map]. rewrite app_nil_r. reflexivity.
  - cbn [split_aux]. destruct (is_space c) eqn:E.
    + unfold blocks. rewrite blocks_sep by (apply Hp; exact E).
      destruct cur as [|x cur].
      * cbn [rev app blocks_aux]. apply (IH []).
      * cbn [flat_map]. f_equal. apply (IH []).
    + rewrite <- (IH (c :: cur)). cbn [rev]. rewrite <- app_assoc. reflexivity.
Qed.

Lemma blocks_join p l :
  p 32 = false -> blocks p (join [32] l) = flat_map (blocks p) l.
Proof.
  intros H32. induction l as [|w l IH]; [reflexivity|].
  destruct l as [|w' l].
  - rewrite join_one. cbn [flat_map]. rewrite app_nil_r. reflexivity.
  - change (join [32] (w :: w' :: l)) with (w ++ 32 :: join [32] (w' :: l)).
    unfold blocks. rewrite blocks_sep by exact H32.
    cbn [flat_map]. f_equal. exact IH.
Qed.

Lemma kw_letter_class c : kw_letter c = true -> kw_class c = true.
Proof. unfold kw_letter, kw_class. intros H. rewrite H. reflexivity. Qed.

Lemma kw_letter_not_space c : kw_letter c = true -> is_space c = false.
Proof.
  intros H. destruct (is_space c) eqn:S; [exfalso|reflexivity].
  unfold kw_letter in H. unfold is_space in S.
  rewrite !orb_true_iff, !andb_true_iff, !Z.leb_le in H.
  rewrite !orb_true_iff, !andb_true_iff, !Z.leb_le, !Z.eqb_eq in S.
  lia.
Qed.

Lemma space_not_letter c : is_space c = true -> kw_letter c = false.
Proof.
  intros S. destruct (kw_letter c) eqn:K; [|reflexivity].
  apply kw_letter_not_space in K. congruence.
Qed.

Lemma kw_class_cases c :
  kw_class c = true ->
  (kw_letter c = true /\ is_space c = false) \/
  (kw_letter c = false /\ is_space c = true).
Proof.
  intros H. destruct (kw_letter c) eqn:K.
  - left. split; [reflexivity | apply kw_letter_not_space; exact K].
  - right. split; [reflexivity|]. unfold kw_class in H. unfold kw_letter in K.
    rewrite K in H. simpl in H. apply Z.eqb_eq in H. subst c. reflexivity.
Qed.

(** After the substitution of a space for every other character, the
    words are the runs of letters. *)
Lemma split_blanked s : forall cur,
  split_aux cur (flat_map (fun c => if negb (kw_class c) then [32] else [c]) s)
  = blocks_aux kw_letter cur s.
Proof.
  induction s as [|c s IH]; intros cur; [reflexivity|].
  cbn [flat_map blocks_aux]. destruct (kw_class c) eqn:K; cbn [negb app].
  - cbn [split_aux]. destruct (kw_class_cases c K) as [[L S]|[L S]];
      rewrite L, S, !IH; reflexivity.
  - cbn [split_aux]. change (is_space 32) with true. cbv iota.
    assert (L : kw_letter c = false).
    { destruct (kw_letter c) eqn:L; [|reflexivity].
      apply kw_letter_class in L. congruence. }
    rewrite L, !IH. reflexivity.
Qed.

Lemma clean_text_words s : clean_text (PStr s) = join [32] (split s).
Proof.
  unfold clean_text. rewrite sub_squeeze, strip_squeeze.
  unfold split. change (u " ") with [32].
  rewrite !split_replace_char by reflexivity. reflexivity.
Qed.

(** X16.  The words [extract_keywords] works on are exactly the maximal
    runs of characters of the class [a-zA-ZÀ-ú] in the lowercased text,
    in order: every other character separates, and the cleaning of the
    text before the substitution changes nothing. *)
Theorem kw_words_blocks (rt : Runtime) (text : pystr) :
  kw_words text = blocks kw_letter (str_lower text).
Proof.
  unfold kw_words. rewrite sub_cls. change (u " ") with [32].
  unfold split. rewrite split_blanked. fold (blocks kw_letter (clean_text (PStr (str_lower text)))).
  rewrite clean_text_words.
  rewrite blocks_join by reflexivity.
  symmetry. apply (blocks_of_words kw_letter space_not_letter (str_lower text) []).
Qed.

Example kw_words_ex :
  kw_words (rt := ascii_runtime) (u "Re: fatura-2024 (2a via), e-mail: ana@x.com")
  = map u ["re"; "fatura"; "a"; "via"; "e"; "mail"; "ana"; "x"; "com"].
Proof. vm_compute. reflexivity. Qed.

(** ** What reaches the model *)

(** A block that does not contain [z] lies before it or after it. *)
Lemma block_between (A : Type) (z : A) (l m t P Q : list A) :
  l ++ m ++ t = P ++ z :: Q -> ~ In z m ->
  (exists r, P = l ++ m ++ r /\ t = r ++ z :: Q) \/
  (exists l', l = P ++ z :: l' /\ Q = l' ++ m ++ t).
Proof.
  intros E Hz. destruct (app_cut _ _ _ _ E) as [(l1 & E1 & E2) | (c & rest & E1 & E2)].
  - destruct l1 as [|y l1].
    + simpl in E2. destruct m as [|x m].
      * left. exists []. split; [rewrite E1, !app_nil_r; reflexivity|].
        simpl in E2. symmetry. exact E2.
      * simpl in E2. injection E2 as Ez _. exfalso. apply Hz. left.
        symmetry. exact Ez.
    + simpl in E2. injection E2 as Ez EQ. subst y. right. exists l1.
      split; assumption.
  - destruct (app_cut m (c :: rest) t (z :: Q) E2)
      as [(m1 & E3 & E4) | (c' & rest' & E3 & E4)].
    + destruct m1 as [|y m1].
      * left. exists []. rewrite app_nil_r in E3. subst m.
        split; [rewrite app_nil_r; exact E1|]. simpl in E4. symmetry. exact E4.
      * simpl in E4. injection E4 as Ez _. subst y. exfalso. apply Hz.
        rewrite E3. apply in_or_app. right. left. reflexivity.
    + left. exists (c' :: rest'). split; [|exact E4].
      rewrite E1, E3. reflexivity.
Qed.

Lemma Matches_without r prev m t z :
  Matches r prev m t -> alphabet r z = false -> ~ In z m.
Proof.
  intros HM Hz Hin. apply Matches_alphabet in HM.
  rewrite Forall_forall in HM. rewrite (HM z Hin) in Hz. discriminate.
Qed.

(** A text between two characters that no match contains and that are no
    word characters: a match in the whole lies in one of the three
    parts, and inside the text it is a match of the text alone. *)
Lemma occurs_fenced w r (A X B : pystr) (a b : Z) :
  uses_words w r -> w a = false -> w b = false ->
  alphabet r a = false -> alphabet r b = false ->
  NoBlock r A -> NoBlock r B ->
  ~ Occurs r None X ->
  ~ Occurs r None (A ++ a :: X ++ b :: B).
Proof.
  intros Hu Hwa Hwb Ha Hb HA HB HX (l & m & t & E & HM).
  symmetry in E.
  destruct (@block_between _ a l m t A (X ++ b :: B) E
              (@Matches_without _ _ _ _ _ HM Ha))
    as [(r1 & E1 & _) | (l1 & E1 & E2)].
  - apply (HA _ _ _ l r1 HM E1).
  - symmetry in E2.
    destruct (@block_between _ b l1 m t X B E2
                (@Matches_without _ _ _ _ _ HM Hb))
      as [(r2 & E3 & E4) | (l2 & _ & E4)].
    + apply HX. exists l1, m, r2. split; [exact E3|].
      apply (@Matches_context w _ _ _ _ HM); [exact Hu|]. split.
      * rewrite E1, last_or_app. cbn [last_or]. destruct l1 as [|x l1].
        -- simpl. exact Hwa.
        -- reflexivity.
      * rewrite E4. destruct r2 as [|x r2]; [simpl; exact Hwb | reflexivity].
    + apply (HB _ _ _ l2 t HM E4).
Qed.

Lemma no_block_need r (need : Z -> bool) s :
  (forall prev m t, Matches r prev m t -> exists c, In c m /\ need c = true) ->
  forallb (fun c => negb (need c)) s = true ->
  NoBlock r s.
Proof.
  intros Hneed Hs prev m t l l' HM E.
  destruct (Hneed _ _ _ HM) as (c & Hc & Hn).
  rewrite forallb_forall in Hs.
  assert (Hin : In c s).
  { rewrite E. apply in_or_app. right. apply in_or_app. left. exact Hc. }
  specialize (Hs c Hin). rewrite Hn in Hs. discriminate.
Qed.

(** The two prompts that carry the text of the e-mail, cut around it. *)
Lemma classify_request_user {rt : Runtime} email mt temp :
  req_user (classify_request email mt temp)
  = (CLASSIFY_PROMPT_INSTRUCTIONS ++ nl ++ u "Email: ''") ++ 39 ::
    anonymize_text (PStr email) ++ 39 :: ([39; 39] ++ nl ++ nl ++ u "Saída JSON:").
Proof.
  unfold classify_request. cbn [req_user].
  change (u "Email: '''") with (u "Email: ''" ++ [39]).
  change q3 with ([39] ++ [39; 39]).
  rewrite <- !app_assoc. reflexivity.
Qed.

Lemma improdutivo_request_user {rt : Runtime} email mt :
  req_user (improdutivo_request (PStr email) mt)
  = (INSTITUTIONAL_TONE ++ nl ++ nl ++
     u "O e-mail a seguir parece improdutivo. Gere uma resposta curta e cordial em Português." ++
     nl ++ nl ++ u "Email: ''") ++ 39 ::
    anonymize_text (PStr email) ++ 39 :: ([39; 39] ++ nl ++ nl ++ u "Resposta:").
Proof.
  unfold improdutivo_request. cbn [req_user].
  change (u "Email: '''") with (u "Email: ''" ++ [39]).
  change q3 with ([39] ++ [39; 39]).
  rewrite <- !app_assoc. reflexivity.
Qed.

Lemma email_no_block s :
  forallb (fun c => negb (c =? 64)) s = true -> NoBlock re_email s.
Proof. apply no_block_need. apply email_needs_at. Qed.

(** ** Numbers in a fixed text *)

Lemma risky_app_r m : forall l', risky m = true -> risky (m ++ l') = true.
Proof.
  induction m as [|c1 m IH]; intros l' H; [discriminate|].
  destruct m as [|c2 [|c3 m]]; try discriminate.
  cbn [risky] in H. cbn [app risky].
  apply orb_true_iff in H. destruct H as [H|H].
  - rewrite H. reflexivity.
  - apply orb_true_iff. right. apply (IH l' H).
Qed.

Lemma risky_app_l l : forall s, risky s = true -> risky (l ++ s) = true.
Proof.
  induction l as [|x l IH]; intros s H; [exact H|].
  specialize (IH s H). cbn [app].
  destruct (l ++ s) as [|c2 [|c3 s3]]; try discriminate.
  cbn [risky]. cbn [risky] in IH. rewrite IH. apply orb_true_r.
Qed.

Section NumbersInText.
Context {rt : Runtime}.

Lemma digit_maybe c : is_digit c = true -> maybe_digit c = true.
Proof.
  unfold is_digit, maybe_digit. destruct (c <? 128) eqn:E; intros H.
  - rewrite H. reflexivity.
  - apply Z.ltb_ge in E. apply orb_true_iff. right. apply Z.leb_le. exact E.
Qed.

Lemma rep_risky n prev m t :
  (3 <= n)%nat -> Matches (dg n) prev m t -> risky m = true.
Proof.
  intros Hn H. unfold dg in H. apply Matches_rep_chars in H.
  destruct H as [Hl Hf].
  destruct m as [|c1 [|c2 [|c3 m]]]; try (simpl in Hl; lia).
  inversion Hf as [|? ? H1 Hf1]; subst. inversion Hf1 as [|? ? H2 Hf2]; subst.
  inversion Hf2 as [|? ? H3 Hf3]; subst.
  cbn [risky]. rewrite (digit_maybe _ H1), (digit_maybe _ H2), (digit_maybe _ H3).
  reflexivity.
Qed.

Lemma cat_risky n rest prev m t :
  (3 <= n)%nat -> Matches (Cat (dg n) rest) prev m t -> risky m = true.
Proof.
  intros Hn H. apply Matches_cat_inv in H. destruct H as (m1 & m2 & E & H1 & _).
  subst m. apply risky_app_r. apply (rep_risky Hn H1).
Qed.

Lemma cnpj_risky prev m t : Matches core_cnpj prev m t -> risky m = true.
Proof.
  intros H. unfold core_cnpj in H. simpl seq in H.
  apply Matches_cat_inv in H. destruct H as (m1 & m2 & E & H1 & H2). subst m.
  apply Matches_cat_inv in H2. destruct H2 as (m3 & m4 & E & H3 & _). subst m2.
  apply Matches_cls_inv in H3. destruct H3 as (c & E & Hc). subst m3.
  apply Z.eqb_eq in Hc. subst c.
  unfold dg in H1. apply Matches_rep_chars in H1. destruct H1 as [Hl Hf].
  destruct m1 as [|c1 [|c2 [|c3 m1]]]; try (simpl in Hl; lia).
  inversion Hf as [|? ? D1 Hf1]; subst. inversion Hf1 as [|? ? D2 _]; subst.
  cbn [app risky]. rewrite (digit_maybe _ D1), (digit_maybe _ D2).
  rewrite orb_true_r. reflexivity.
Qed.

(** A text that is not [risky] holds no CPF, no CNPJ and no run of six
    digits, whatever the Unicode tables say. *)
Lemma bounded_no_block core s :
  (forall prev m t, Matches core prev m t -> risky m = true) ->
  risky s = false -> NoBlock (bounded core) s.
Proof.
  intros Hr Hs prev m t l l' HM E.
  destruct (bounded_inv HM) as (Hc & _).
  pose proof (Hr _ _ _ Hc) as Hm.
  rewrite E in Hs. rewrite risky_app_l in Hs; [discriminate|].
  apply risky_app_r. exact Hm.
Qed.

Lemma numbers_no_block s :
  risky s = false ->
  NoBlock re_cpf s /\ NoBlock re_cnpj s /\ NoBlock re_d6 s.
Proof.
  intros Hs. split; [|split]; apply bounded_no_block; try exact Hs.
  - intros prev m t H. unfold core_cpf in H. simpl seq in H.
    refine (cat_risky _ H). lia.
  - apply cnpj_risky.
  - intros prev m t H. unfold core_d6 in H.
    refine (cat_risky _ H). lia.
Qed.

(** The anonymized text between two quotes, in a fixed text with no
    [@] and nothing [risky]. *)
Lemma quoted_hidden (A B : pystr) email :
  forallb (fun c => negb (c =? 64)) A = true ->
  forallb (fun c => negb (c =? 64)) B = true ->
  risky A = false -> risky B = false ->
  let s := A ++ 39 :: anonymize_text (PStr email) ++ 39 :: B in
  search re_email s = false /\ search re_cpf s = false /\
  search re_cnpj s = false /\ search re_d6 s = false.
Proof.
  intros HA HB RA RB s.
  pose proof (anonymize_text_no_occurrence email) as H. cbv zeta in H.
  destruct H as (H1 & H2 & H3 & H4).
  destruct (numbers_no_block A RA) as (A2 & A3 & A4).
  destruct (numbers_no_block B RB) as (B2 & B3 & B4).
  destruct core_facts as ((U1 & _) & (U3 & _) & (U5 & _)).
  unfold search, s. repeat split; apply search_from_none.
  - apply occurs_fenced with (w := fun _ => false);
      try reflexivity; try (apply email_no_block; assumption); try assumption.
    simpl. tauto.
  - apply occurs_fenced with (w := is_word);
      try reflexivity; try assumption.
    unfold re_cpf, bounded. simpl. auto.
  - apply occurs_fenced with (w := is_word);
      try reflexivity; try assumption.
    unfold re_cnpj, bounded. simpl. auto.
  - apply occurs_fenced with (w := is_word);
      try reflexivity; try assumption.
    unfold re_d6, bounded. simpl. auto.
Qed.

End NumbersInText.

(** X17.  What [classify_email] and the "Improdutivo" branch of
    [generate_response] send to the model holds no e-mail address, no
    CPF, no CNPJ and no run of six or more digits: [re.search] finds no
    match of these patterns in the whole prompt, whatever the text of
    the e-mail, the instructions around it included. *)
Theorem prompts_hide_pii (rt : Runtime) (email_text : pystr)
        (max_tokens : Z) (temperature : Q) :
  (let s := req_user (classify_request email_text max_tokens temperature) in
   search re_email s = false /\ search re_cpf s = false /\
   search re_cnpj s = false /\ search re_d6 s = false)
  /\
  (let s := req_user (improdutivo_request (PStr email_text) max_tokens) in
   search re_email s = false /\ search re_cpf s = false /\
   search re_cnpj s = false /\ search re_d6 s = false).
Proof.
  split.
  - cbv zeta. rewrite classify_request_user.
    apply quoted_hidden; vm_compute; reflexivity.
  - cbv zeta. rewrite improdutivo_request_user.
    apply quoted_hidden; vm_compute; reflexivity.
Qed.

(** ** What the summary carries *)

Lemma search_from_sound r s : forall prev,
  search_from r prev s = true -> Occurs r prev s.
Proof.
  induction s as [|c s IH]; intros prev H; simpl in H.
  - destruct (match_here r prev []) as [rest|] eqn:E; [|discriminate].
    destruct (match_here_sound _ _ _ E) as (m & Hs & Hm).
    exists [], m, rest. split; [exact Hs | exact Hm].
  - destruct (match_here r prev (c :: s)) as [rest|] eqn:E.
    + destruct (match_here_sound _ _ _ E) as (m & Hs & Hm).
      exists [], m, rest. split; [exact Hs | exact Hm].
    + apply occurs_shift. apply IH. exact H.
Qed.

Lemma search_from_complete r l : forall prev m t,
  Matches r (last_or prev l) m t -> search_from r prev (l ++ m ++ t) = true.
Proof.
  induction l as [|c l IH]; intros prev m t HM.
  - cbn [app last_or] in *.
    destruct (match_here r prev (m ++ t)) as [rest|] eqn:E.
    + destruct (m ++ t); simpl; rewrite E; reflexivity.
    + exfalso. apply (match_here_none E HM).
  - cbn [app search_from].
    destruct (match_here r prev (c :: l ++ m ++ t)); [reflexivity|].
    apply IH. exact HM.
Qed.

(** A pattern without word boundary is found in a text as soon as it is
    found in a part of it. *)
Lemma search_inside r (A X B : pystr) :
  uses_words (fun _ => false) r ->
  search r X = true -> search r (A ++ X ++ B) = true.
Proof.
  intros Hu H. unfold search in *. apply search_from_sound in H.
  destruct H as (l & m & t & E & HM). subst X.
  replace (A ++ (l ++ m ++ t) ++ B) with ((A ++ l) ++ m ++ (t ++ B))
    by (rewrite <- !app_assoc; reflexivity).
  apply search_from_complete.
  apply (@Matches_context (fun _ => false) _ _ _ _ HM); [exact Hu|].
  split; rewrite !is_word_at_none; reflexivity.
Qed.

(** X18.  The summary is no part of what [anonymize_text] covers: the
    prompt of the productive branch of [generate_response] carries the
    summary as it is given, so an e-mail address in the summary is an
    e-mail address in the prompt. *)
Theorem summary_not_anonymized (rt : Runtime) (email_text : pyobj)
        (summary : pystr) (max_tokens : Z) :
  search re_email summary = true ->
  search re_email
    (req_user (produtivo_request email_text (Some summary) max_tokens)) = true.
Proof.
  intros H.
  assert (E : req_user (produtivo_request email_text (Some summary) max_tokens)
              = (INSTITUTIONAL_TONE ++ nl ++ nl ++
                 u "O e-mail abaixo foi classificado como 'Produtivo'. Gere uma resposta profissional em Português, " ++
                 u "objetiva, com próximos passos claros e solicite informações adicionais se necessário." ++
                 nl ++ nl ++ u "Resumo do e-mail: " ++ dq)
                ++ summary ++
                (dq ++ nl ++ nl ++ u "Email: '''" ++ anonymize_text email_text ++
                 q3 ++ nl ++ nl ++ u "Resposta:")).
  { unfold produtivo_request. cbn [req_user]. rewrite <- !app_assoc. reflexivity. }
  rewrite E. apply search_inside; [simpl; tauto | exact H].
Qed.

Lemma summary_not_anonymized_witness :
  search re_email
    (req_user (produtivo_request (rt := ascii_runtime) (PStr (u "Preciso do boleto"))
                 (Some (u "Cliente ana@x.com pede o boleto")) 512)) = true.
Proof.
  apply summary_not_anonymized. vm_compute. reflexivity.
Defined.
